(** * Tasky: the task store, the filtered view and the selection

    A shallow embedding of [Tasky.py] (the Textual task manager) and the
    properties of its task store: loading and saving [tasks.json], id
    allocation, the search filter, the selection and the three mutations
    (add, complete, delete).

    Conventions of the embedding.
    - A Python [str] is a [string]: one [ascii] per code point, so the
      strings covered are those over code points below 256. The filter,
      whose [str.lower] behaves differently beyond them, is also given
      on strings over all code points ([UStr]).
    - Values read from JSON are dynamically typed ([pyval]); a [Task] stores
      whatever value it was constructed with, as the dataclass does.
    - [Task] objects are shared between [self.tasks], the lists returned by
      [get_filtered_tasks] and [self.current_task]; they live in a heap and
      are referred to by their index.
    - A method of the app is a function from the app state to an outcome
      (a value or a raised exception) and the state it leaves behind. *)

From Stdlib Require Import ZArith Ascii String DecimalString DecimalZ.
From stdpp Require Import base option list strings gmap.

Local Open Scope Z_scope.

Set Warnings "-register-all".

(** ** Exceptions and outcomes *)

Inductive exn :=
| JSONDecodeError
| UnicodeDecodeError
| ValueError
| KeyError
| TypeError
| AttributeError
| OverflowError
| OSError
| IndexError
| RowDoesNotExist
| DuplicateKey.

Definition exn_eqb (a b : exn) : bool :=
  match a, b with
  | JSONDecodeError, JSONDecodeError | UnicodeDecodeError, UnicodeDecodeError
  | ValueError, ValueError | KeyError, KeyError | TypeError, TypeError
  | AttributeError, AttributeError | OverflowError, OverflowError
  | OSError, OSError | IndexError, IndexError
  | RowDoesNotExist, RowDoesNotExist
  | DuplicateKey, DuplicateKey => true
  | _, _ => false
  end.

(** [isinstance e cls] for the classes an [except] clause of the source
    names: [JSONDecodeError] and [UnicodeDecodeError] derive from
    [ValueError]. *)
Definition isinstance (e cls : exn) : bool :=
  exn_eqb e cls ||
  match cls, e with
  | ValueError, JSONDecodeError | ValueError, UnicodeDecodeError => true
  | _, _ => false
  end.

Inductive result (A : Type) :=
| Ok (a : A)
| Raise (e : exn).
Arguments Ok {A} a.
Arguments Raise {A} e.

#[global] Instance result_ret : MRet result := λ A a, Ok a.
#[global] Instance result_bind : MBind result :=
  λ A B f m, match m with Ok a => f a | Raise e => Raise e end.
#[global] Instance result_fmap : FMap result :=
  λ A B f m, match m with Ok a => Ok (f a) | Raise e => Raise e end.

Definition is_Ok {A} (r : result A) : bool :=
  match r with Ok _ => true | Raise _ => false end.

(** [[f(x) for x in l]] where [f] may raise. *)
Fixpoint mapR {A B} (f : A → result B) (l : list A) : result (list B) :=
  match l with
  | [] => Ok []
  | x :: l' => y ← f x; ys ← mapR f l'; Ok (y :: ys)
  end.

(** [[x for x in l if p(x)]] where [p] may raise. *)
Fixpoint filterR {A} (p : A → result bool) (l : list A) : result (list A) :=
  match l with
  | [] => Ok []
  | x :: l' => b ← p x; ys ← filterR p l'; Ok (if b : bool then x :: ys else ys)
  end.

(** ** Python strings *)

Module Str.

Definition code (c : ascii) : nat := nat_of_ascii c.

Definition between (lo hi n : nat) : bool := (lo <=? n)%nat && (n <=? hi)%nat.

(** [str.isspace] on one character, as [str.strip] uses it. *)
Definition is_space (c : ascii) : bool :=
  let n := code c in
  between 9 13 n || between 28 31 n || (n =? 32)%nat || (n =? 133)%nat
  || (n =? 160)%nat.

(** The white space [int(str)] skips. *)
Definition is_int_space (c : ascii) : bool :=
  let n := code c in
  between 9 13 n || (n =? 32)%nat || (n =? 133)%nat || (n =? 160)%nat.

(** [str.lower] on one character below code point 256: A-Z and the
    accented capitals ([lower_char_code] checks it against the table
    [UStr.latin1_lower]). On these strings [str.lower] maps character by
    character; on others it does not, see [UStr.lower]. *)
Definition lower_char (c : ascii) : ascii :=
  let n := code c in
  if between 65 90 n || (between 192 222 n && negb (n =? 215)%nat)
  then ascii_of_nat (n + 32) else c.

Fixpoint lower (s : string) : string :=
  match s with
  | EmptyString => EmptyString
  | String c r => String (lower_char c) (lower r)
  end.

Fixpoint startswith (p s : string) : bool :=
  match p, s with
  | EmptyString, _ => true
  | String a p', String b s' => Ascii.eqb a b && startswith p' s'
  | String _ _, EmptyString => false
  end.

(** [needle in hay]. *)
Fixpoint contains (needle hay : string) : bool :=
  startswith needle hay ||
  match hay with
  | EmptyString => false
  | String _ r => contains needle r
  end.

Definition is_empty (s : string) : bool :=
  match s with EmptyString => true | String _ _ => false end.

Fixpoint lstrip_by (sp : ascii → bool) (s : string) : string :=
  match s with
  | EmptyString => EmptyString
  | String c r => if sp c then lstrip_by sp r else s
  end.

Fixpoint rstrip_by (sp : ascii → bool) (s : string) : string :=
  match s with
  | EmptyString => EmptyString
  | String c r =>
      let r' := rstrip_by sp r in
      if sp c && is_empty r' then EmptyString else String c r'
  end.

(** [s.strip()]. *)
Definition strip (s : string) : string := rstrip_by is_space (lstrip_by is_space s).

(** [s.split(sep)] for a one-character separator. *)
Fixpoint split (sep : ascii) (s : string) : list string :=
  match s with
  | EmptyString => [EmptyString]
  | String c r =>
      if Ascii.eqb c sep then EmptyString :: split sep r
      else match split sep r with
           | h :: t => String c h :: t
           | [] => [String c EmptyString]
           end
  end.

(** [sep.join(l)]. *)
Fixpoint join (sep : string) (l : list string) : string :=
  match l with
  | [] => EmptyString
  | [x] => x
  | x :: r => x +:+ sep +:+ join sep r
  end.

(** The characters of a string, as iteration over a [str] yields them. *)
Fixpoint chars (s : string) : list string :=
  match s with
  | EmptyString => []
  | String c r => String c EmptyString :: chars r
  end.

Definition digit (c : ascii) : option (Decimal.uint → Decimal.uint) :=
  match code c with
  | 48%nat => Some Decimal.D0 | 49%nat => Some Decimal.D1
  | 50%nat => Some Decimal.D2 | 51%nat => Some Decimal.D3
  | 52%nat => Some Decimal.D4 | 53%nat => Some Decimal.D5
  | 54%nat => Some Decimal.D6 | 55%nat => Some Decimal.D7
  | 56%nat => Some Decimal.D8 | 57%nat => Some Decimal.D9
  | _ => None
  end.

(** The digits of an integer literal: decimal digits, with single
    underscores allowed between two digits. *)
Fixpoint digits (after_digit : bool) (s : string) : option Decimal.uint :=
  match s with
  | EmptyString => if after_digit then Some Decimal.Nil else None
  | String c r =>
      match digit c with
      | Some d => d <$> digits true r
      | None =>
          if Ascii.eqb c "_" && after_digit then digits false r else None
      end
  end.

(** [int(s)] for a string [s]; [None] when Python raises [ValueError]. *)
Definition to_int (s : string) : option Z :=
  let t := rstrip_by is_int_space (lstrip_by is_int_space s) in
  match t with
  | String "+" r => Z.of_uint <$> digits false r
  | String "-" r => (λ u, - Z.of_uint u) <$> digits false r
  | _ => Z.of_uint <$> digits false t
  end.

(** [str(n)] for an integer [n]. *)
Definition of_int (n : Z) : string := NilZero.string_of_int (Z.to_int n).

End Str.

(** ** Python values

    What [json.load] can return: [None], booleans, integers, floats,
    strings, lists and dictionaries with string keys (in insertion order).
    A finite float is kept as its exact value [m * 2^e]. *)

Inductive pyfloat :=
| FNan
| FInf (negative : bool)
| FFin (m e : Z).

Inductive pyval :=
| PNone
| PBool (b : bool)
| PInt (z : Z)
| PFloat (f : pyfloat)
| PStr (s : string)
| PList (l : list pyval)
| PDict (d : list (string * pyval)).

Module Py.

Definition float_eq (f g : pyfloat) : bool :=
  match f, g with
  | FFin m1 e1, FFin m2 e2 =>
      let e0 := Z.min e1 e2 in
      (m1 * 2 ^ (e1 - e0) =? m2 * 2 ^ (e2 - e0))
  | FInf a, FInf b => Bool.eqb a b
  | _, _ => false
  end.

(** The numeric reading of a value; [bool] is a subclass of [int]. *)
Definition as_number (v : pyval) : option pyfloat :=
  match v with
  | PBool b => Some (FFin (if b then 1 else 0) 0)
  | PInt z => Some (FFin z 0)
  | PFloat f => Some f
  | _ => None
  end.

Fixpoint assoc (k : string) (d : list (string * pyval)) : option pyval :=
  match d with
  | [] => None
  | (k', v) :: r => if String.eqb k' k then Some v else assoc k r
  end.

(** [a == b]. *)
Fixpoint eq (a b : pyval) : bool :=
  match a, b with
  | PNone, PNone => true
  | PStr s, PStr t => String.eqb s t
  | PList l, PList l' =>
      (fix go (l l' : list pyval) : bool :=
         match l, l' with
         | [], [] => true
         | x :: r, y :: r' => eq x y && go r r'
         | _, _ => false
         end) l l'
  | PDict d, PDict d' =>
      (length d =? length d')%nat &&
      (fix go (d : list (string * pyval)) : bool :=
         match d with
         | [] => true
         | (k, v) :: r =>
             match assoc k d' with
             | Some v' => eq v v'
             | None => false
             end && go r
         end) d
  | _, _ =>
      match as_number a, as_number b with
      | Some x, Some y => float_eq x y
      | _, _ => false
      end
  end.

(** [bool(v)]. *)
Definition truthy (v : pyval) : bool :=
  match v with
  | PNone => false
  | PBool b => b
  | PInt z => negb (z =? 0)
  | PFloat (FFin m _) => negb (m =? 0)
  | PFloat _ => true
  | PStr s => negb (Str.is_empty s)
  | PList l => match l with [] => false | _ => true end
  | PDict d => match d with [] => false | _ => true end
  end.

(** [hash(v)] raises [TypeError] on lists and dictionaries. *)
Definition hashable (v : pyval) : bool :=
  match v with
  | PList _ | PDict _ => false
  | _ => true
  end.

(** [int(v)]. *)
Definition int (v : pyval) : result Z :=
  match v with
  | PBool b => Ok (if b then 1 else 0)
  | PInt z => Ok z
  | PFloat FNan => Raise ValueError
  | PFloat (FInf _) => Raise OverflowError
  | PFloat (FFin m e) =>
      Ok (if 0 <=? e then m * 2 ^ e else Z.quot m (2 ^ (- e)))
  | PStr s =>
      match Str.to_int s with
      | Some n => Ok n
      | None => Raise ValueError
      end
  | PNone | PList _ | PDict _ => Raise TypeError
  end.

(** [v.lower()]: only strings have the method. *)
Definition lower (v : pyval) : result string :=
  match v with
  | PStr s => Ok (Str.lower s)
  | _ => Raise AttributeError
  end.

(** The elements [for x in v] goes through. *)
Definition iter (v : pyval) : result (list pyval) :=
  match v with
  | PList l => Ok l
  | PStr s => Ok (PStr <$> Str.chars s)
  | PDict d => Ok ((λ kv, PStr (fst kv)) <$> d)
  | PNone | PBool _ | PInt _ | PFloat _ => Raise TypeError
  end.

Definition as_str (v : pyval) : result string :=
  match v with
  | PStr s => Ok s
  | _ => Raise TypeError
  end.

(** [sep.join(v)]: [v] must be an iterable of strings. *)
Definition join (sep : string) (v : pyval) : result string :=
  l ← iter v; ss ← mapR as_str l; Ok (Str.join sep ss).

(** [max(l)] for a non-empty list of integers. *)
Definition max (l : list Z) : result Z :=
  match l with
  | [] => Raise ValueError
  | x :: r => Ok (foldl Z.max x r)
  end.

End Py.

(** ** The [Task] dataclass *)

Module Task.

Record t := mk {
  id : pyval;
  title : pyval;
  completed : pyval;
  priority : pyval;
  tags : pyval;
  created_at : pyval;
}.

Definition field_names : list string :=
  ["id"; "title"; "completed"; "priority"; "tags"; "created_at"]%string.

Definition is_field (k : string) : bool :=
  existsb (String.eqb k) field_names.

(** [__post_init__]: a missing tag list becomes the empty list and a
    missing time stamp becomes [now], the clock's reading in ISO format. *)
Definition post_init (now : string) (x : t) : t :=
  mk (id x) (title x) (completed x) (priority x)
     (match tags x with PNone => PList [] | v => v end)
     (match created_at x with PNone => PStr now | v => v end).

(** The call [Task] with the keyword arguments [kwargs] (the source's
    double-star call): the generated [__init__] rejects an unknown keyword
    and a call without [id] or [title] with [TypeError], and fills in the
    defaults of the other fields. *)
Definition init (now : string) (kwargs : list (string * pyval)) : result t :=
  if forallb (λ kv, is_field (fst kv)) kwargs then
    match Py.assoc "id" kwargs, Py.assoc "title" kwargs with
    | Some i, Some ti =>
        Ok (post_init now
              (mk i ti
                  (default (PBool false) (Py.assoc "completed" kwargs))
                  (default (PStr "normal") (Py.assoc "priority" kwargs))
                  (default PNone (Py.assoc "tags" kwargs))
                  (default PNone (Py.assoc "created_at" kwargs))))
    | _, _ => Raise TypeError
    end
  else Raise TypeError.

(** The double-star call on an arbitrary value: it needs a mapping. *)
Definition of_value (now : string) (v : pyval) : result t :=
  match v with
  | PDict d => init now d
  | _ => Raise TypeError
  end.

(** [dataclasses.asdict]. *)
Definition asdict (x : t) : pyval :=
  PDict [("id", id x); ("title", title x); ("completed", completed x);
         ("priority", priority x); ("tags", tags x);
         ("created_at", created_at x)]%string.

Inductive icon := IconDone | IconPending | IconLow | IconNormal | IconHigh.

Definition status_icon (x : t) : icon :=
  if Py.truthy (completed x) then IconDone else IconPending.

(** [icons.get(self.priority, normal)]: the lookup hashes the key. *)
Definition priority_icon (x : t) : result icon :=
  if Py.hashable (priority x) then
    Ok (if Py.eq (priority x) (PStr "low") then IconLow
        else if Py.eq (priority x) (PStr "normal") then IconNormal
        else if Py.eq (priority x) (PStr "high") then IconHigh
        else IconNormal)
  else Raise TypeError.

Definition set_completed (v : pyval) (x : t) : t :=
  mk (id x) (title x) v (priority x) (tags x) (created_at x).

End Task.

(** ** The storage file

    [tasks.json] is characterised by what [open] followed by [json.load]
    does with it: it raises, or it returns the document. *)

Inductive file :=
| FileRaises (e : exn)
| FileJson (doc : pyval).

(** What the operating system answers to one [save_tasks]. *)
Inductive write_outcome :=
| WriteOk
| OpenFails (e : exn)
| DumpFails (e : exn).

(** Calls the app makes to the outside: file operations, and a message
    written to a log. *)
Inductive effect :=
| OpenForRead
| OpenForWrite
| JsonDump (doc : pyval)
| LogMessage (msg : string).

(** ** The widgets the app drives *)

(** Textual's [Coordinate] is a named tuple of two integers. *)
Record Coordinate := mkCoordinate { row : Z; column : Z }.

(** Truth value of a [Coordinate]: a tuple of length two. *)
Definition Coordinate_truthy (c : Coordinate) : bool := true.

Inductive cell :=
| CellIcon (i : Task.icon)
| CellValue (v : pyval)
| CellText (s : string).

Record TableRow := mkRow { row_key : pyval; row_cells : list cell }.

Record DataTable := mkTable {
  columns : list string;
  rows : list TableRow;
  cursor_coordinate : Coordinate;
}.

(** ** The application state *)

(** A reference to a [Task] object: its index in the heap. An assignment
    to one of the reactive attributes ([tasks], [current_task],
    [search_filter]) is an assignment to the field of the same name. *)
Abbreviation ref := nat (only parsing).

Record App := mkApp {
  heap : list Task.t;
  tasks : list ref;
  current_task : option ref;
  search_filter : string;
  task_counter : Z;
  tasks_file : option file;
  task_table : DataTable;
  detail_content : option Task.t;
  effects : list effect;
}.

Definition with_heap (h : list Task.t) (s : App) : App :=
  mkApp h (tasks s) (current_task s) (search_filter s) (task_counter s)
        (tasks_file s) (task_table s) (detail_content s) (effects s).
Definition with_tasks (l : list ref) (s : App) : App :=
  mkApp (heap s) l (current_task s) (search_filter s) (task_counter s)
        (tasks_file s) (task_table s) (detail_content s) (effects s).
Definition with_current_task (c : option ref) (s : App) : App :=
  mkApp (heap s) (tasks s) c (search_filter s) (task_counter s)
        (tasks_file s) (task_table s) (detail_content s) (effects s).
Definition with_search_filter (q : string) (s : App) : App :=
  mkApp (heap s) (tasks s) (current_task s) q (task_counter s)
        (tasks_file s) (task_table s) (detail_content s) (effects s).
Definition with_task_counter (n : Z) (s : App) : App :=
  mkApp (heap s) (tasks s) (current_task s) (search_filter s) n
        (tasks_file s) (task_table s) (detail_content s) (effects s).
Definition with_tasks_file (f : option file) (s : App) : App :=
  mkApp (heap s) (tasks s) (current_task s) (search_filter s) (task_counter s)
        f (task_table s) (detail_content s) (effects s).
Definition with_task_table (t : DataTable) (s : App) : App :=
  mkApp (heap s) (tasks s) (current_task s) (search_filter s) (task_counter s)
        (tasks_file s) t (detail_content s) (effects s).
Definition with_detail_content (d : option Task.t) (s : App) : App :=
  mkApp (heap s) (tasks s) (current_task s) (search_filter s) (task_counter s)
        (tasks_file s) (task_table s) d (effects s).
Definition emit (e : effect) (s : App) : App :=
  mkApp (heap s) (tasks s) (current_task s) (search_filter s) (task_counter s)
        (tasks_file s) (task_table s) (detail_content s) (effects s ++ [e]).

(** [TaskManagerApp.__init__] and the defaults of the reactive attributes,
    for a given state of the storage file. *)
Definition init (disk : option file) : App :=
  mkApp [] [] None EmptyString 0 disk
        (mkTable [] [] (mkCoordinate 0 0)) None [].

(** ** Methods: state and exceptions *)

Definition M (A : Type) : Type := App → result A * App.

#[global] Instance M_ret : MRet M := λ A a s, (Ok a, s).
#[global] Instance M_bind : MBind M :=
  λ A B f m s,
    match m s with
    | (Ok a, s') => f a s'
    | (Raise e, s') => (Raise e, s')
    end.

Definition raise {A} (e : exn) : M A := λ s, (Raise e, s).
Definition lift {A} (r : result A) : M A := λ s, (r, s).
Definition get : M App := λ s, (Ok s, s).
Definition modify (f : App → App) : M unit := λ s, (Ok (), f s).

(** [try: body  except classes: handler]. *)
Definition try_except {A} (body : M A) (classes : list exn) (handler : M A)
  : M A :=
  λ s,
    match body s with
    | (Raise e, s') =>
        if existsb (isinstance e) classes then handler s' else (Raise e, s')
    | r => r
    end.

(** [try: body  except Exception: handler]. *)
Definition try_except_Exception {A} (body : M A) (handler : M A) : M A :=
  λ s,
    match body s with
    | (Raise e, s') => handler s'
    | r => r
    end.

Fixpoint for_each {A} (l : list A) (body : A → M unit) : M unit :=
  match l with
  | [] => mret ()
  | x :: l' => body x ;; for_each l' body
  end.

Definition exec {A} (m : M A) (s : App) : App := snd (m s).
Definition eval {A} (m : M A) (s : App) : result A := fst (m s).

(** The object a reference points to. Every reference the app holds was
    returned by [alloc], so the lookup succeeds in the states the app
    reaches; a dangling reference is reported as [KeyError]. *)
Definition deref (r : ref) : M Task.t :=
  λ s, match heap s !! r with
       | Some x => (Ok x, s)
       | None => (Raise KeyError, s)
       end.

Definition alloc (x : Task.t) : M ref :=
  λ s, (Ok (length (heap s)), with_heap (heap s ++ [x]) s).

Fixpoint alloc_all (l : list Task.t) : M (list ref) :=
  match l with
  | [] => mret []
  | x :: l' => r ← alloc x; rs ← alloc_all l'; mret (r :: rs)
  end.

#[global] Instance M_fmap : FMap M := λ A B f m, a ← m; mret (f a).

Fixpoint map_each {A B} (f : A → M B) (l : list A) : M (list B) :=
  match l with
  | [] => mret []
  | x :: l' => y ← f x; ys ← map_each f l'; mret (y :: ys)
  end.

Fixpoint filter_each {A} (p : A → M bool) (l : list A) : M (list A) :=
  match l with
  | [] => mret []
  | x :: l' => b ← p x; ys ← filter_each p l'; mret (if b : bool then x :: ys else ys)
  end.

(** [f(i, x)] for the elements [x] of [l], numbered from [i]. *)
Fixpoint mapR_from {A B} (f : nat → A → result B) (i : nat) (l : list A)
  : result (list B) :=
  match l with
  | [] => Ok []
  | x :: l' => y ← f i x; ys ← mapR_from f (S i) l'; Ok (y :: ys)
  end.

(** *** The table widget, as far as the app calls it *)

Definition table_add_columns (cols : list string) : M unit :=
  modify (λ s, let t := task_table s in
               with_task_table
                 (mkTable (columns t ++ cols) (rows t) (cursor_coordinate t)) s).

(** [table.clear()] removes the rows and puts the cursor back at the origin. *)
Definition table_clear : M unit :=
  modify (λ s, with_task_table
                 (mkTable (columns (task_table s)) [] (mkCoordinate 0 0)) s).

(** [table.add_row] with the cells and [key=key]: the key is hashed; a key that is already
    in the table is refused; [None] asks for a fresh key. *)
Definition table_add_row (cells : list cell) (key : pyval) : M unit :=
  s ← get;
  let t := task_table s in
  if negb (Py.hashable key) then raise TypeError
  else if existsb (λ r : TableRow,
                     match key with
                     | PNone => false
                     | _ => Py.eq (row_key r) key
                     end) (rows t)
  then raise DuplicateKey
  else modify (with_task_table
                 (mkTable (columns t) (rows t ++ [mkRow key cells])
                          (cursor_coordinate t))).

Definition table_get_row_at (i : Z) : M (list cell) :=
  s ← get;
  if (0 <=? i) && (i <? Z.of_nat (length (rows (task_table s)))) then
    match rows (task_table s) !! Z.to_nat i with
    | Some r => mret (row_cells r)
    | None => raise RowDoesNotExist
    end
  else raise RowDoesNotExist.

Definition table_move_cursor_row (r : Z) : M unit :=
  modify (λ s, let t := task_table s in
               with_task_table
                 (mkTable (columns t) (rows t)
                          (mkCoordinate r (column (cursor_coordinate t)))) s).

(** *** [TaskManagerApp] *)

Definition setup_table : M unit :=
  table_add_columns ["Status"; "Priority"; "Title"; "Tags"]%string.

(** [open(self.tasks_file, 'r')] and [json.load(f)]. *)
Definition json_load (f : file) : M pyval :=
  modify (emit OpenForRead) ;;
  match f with
  | FileRaises e => raise e
  | FileJson doc => mret doc
  end.

(** [load_tasks]. [clock i] is the reading of the clock while the [i]-th
    record is constructed. *)
Definition load_tasks (clock : nat → string) : M unit :=
  s ← get;
  match tasks_file s with
  | Some f =>
      try_except
        (data ← json_load f;
         records ← lift (Py.iter data);
         objs ← lift (mapR_from (λ i task, Task.of_value (clock i) task) 0 records);
         refs ← alloc_all objs;
         modify (with_tasks refs) ;;
         match refs with
         | _ :: _ =>
             s' ← get;
             ids ← map_each (λ r, task ← deref r; lift (Py.int (Task.id task)))
                        (tasks s');
             m ← lift (Py.max ids);
             modify (with_task_counter (m + 1))
         | [] => mret ()
         end)
        [JSONDecodeError; KeyError; ValueError]
        (modify (with_tasks []))
  | None => mret ()
  end.

(** [open(self.tasks_file, 'w')]: the file is truncated as soon as it is
    opened; an empty file is not a JSON document. *)
Definition open_for_write (w : write_outcome) : M unit :=
  modify (emit OpenForWrite) ;;
  match w with
  | OpenFails e => raise e
  | _ => modify (with_tasks_file (Some (FileRaises JSONDecodeError)))
  end.

(** [json.dump(doc, f, indent=2)]; a dump that fails leaves a partial file. *)
Definition json_dump (w : write_outcome) (doc : pyval) : M unit :=
  modify (emit (JsonDump doc)) ;;
  match w with
  | DumpFails e => raise e
  | _ => modify (with_tasks_file (Some (FileJson doc)))
  end.

Definition save_tasks (w : write_outcome) : M unit :=
  try_except_Exception
    (open_for_write w ;;
     s ← get;
     dicts ← map_each (λ r, Task.asdict <$> deref r) (tasks s);
     json_dump w (PList dicts))
    (mret ()).

Fixpoint any_tag_matches (search_lower : string) (tags : list pyval)
  : result bool :=
  match tags with
  | [] => Ok false
  | tag :: r =>
      l ← Py.lower tag;
      if Str.contains search_lower l then Ok true
      else any_tag_matches search_lower r
  end.

(** The condition of the comprehension in [get_filtered_tasks]. *)
Definition task_matches (search_lower : string) (task : Task.t) : result bool :=
  title_lower ← Py.lower (Task.title task);
  if Str.contains search_lower title_lower then Ok true
  else tags ← Py.iter (Task.tags task); any_tag_matches search_lower tags.

Definition get_filtered_tasks : M (list ref) :=
  s ← get;
  if Str.is_empty (search_filter s) then mret (tasks s)
  else
    let search_lower := Str.lower (search_filter s) in
    filter_each (λ r, task ← deref r; lift (task_matches search_lower task))
            (tasks s).

(** The values the markup of the detail panel formats; the text itself is
    left to the toolkit. *)
Definition format_details (task : Task.t) : result unit :=
  _ ← Task.priority_icon task;
  _ ← match Task.priority task with
      | PStr _ => Ok ()
      | _ => Raise AttributeError
      end;
  _ ← (if Py.truthy (Task.tags task) then Py.join ", " (Task.tags task)
       else Ok "None"%string);
  match Task.created_at task with
  | PStr _ | PList _ => Ok ()
  | _ => Raise TypeError
  end.

Definition update_detail_panel : M unit :=
  s ← get;
  match current_task s with
  | Some r =>
      task ← deref r;
      lift (format_details task) ;;
      modify (with_detail_content (Some task))
  | None => modify (with_detail_content None)
  end.

Definition update_current_task : M unit :=
  s ← get;
  let cursor := cursor_coordinate (task_table s) in
  (if Coordinate_truthy cursor then
     cells ← table_get_row_at (row cursor);
     match cells with
     | [] => raise IndexError
     | row_key :: _ =>
         filtered_tasks ← get_filtered_tasks;
         if (0 <=? row cursor) && (row cursor <? Z.of_nat (length filtered_tasks))
         then modify (with_current_task (Some (nth (Z.to_nat (row cursor)) filtered_tasks 0%nat)))
         else modify (with_current_task None)
     end
   else modify (with_current_task None)) ;;
  update_detail_panel.

Definition refresh_table : M unit :=
  table_clear ;;
  filtered_tasks ← get_filtered_tasks;
  for_each filtered_tasks (λ r,
    task ← deref r;
    tags_str ← lift (if Py.truthy (Task.tags task)
                     then Py.join ", " (Task.tags task)
                     else Ok EmptyString);
    picon ← lift (Task.priority_icon task);
    table_add_row [CellIcon (Task.status_icon task); CellIcon picon;
                   CellValue (Task.title task); CellText tags_str]
                  (Task.id task)) ;;
  s ← get;
  match filtered_tasks with
  | _ :: _ =>
      if negb (Coordinate_truthy (cursor_coordinate (task_table s))) then
        table_move_cursor_row 0 ;; update_current_task
      else mret ()
  | [] => mret ()
  end.

(** [on_mount]. The theme ([dark_mode], [apply_theme]) only switches CSS
    classes and is left out. *)
Definition on_mount (clock : nat → string) : M unit :=
  load_tasks clock ;; setup_table ;; refresh_table.

(** The toolkit moves the cursor of the table to [cursor_row] and posts
    [RowHighlighted]. *)
Definition on_data_table_row_highlighted (cursor_row : Z) : M unit :=
  table_move_cursor_row cursor_row ;; update_current_task.

Definition on_input_changed (input_id value : string) : M unit :=
  if String.eqb input_id "search-input" then
    modify (with_search_filter value) ;; refresh_table
  else mret ().

Definition action_clear_search : M unit :=
  modify (with_search_filter EmptyString) ;; refresh_table.

(** What [AddTaskModal] is dismissed with. *)
Record task_data := mkData {
  td_title : string;
  td_priority : string;
  td_tags : list string;
}.

(** [action_add_task]. [result] is what the modal was dismissed with and
    [now] the clock's reading when the task is constructed. *)
Definition action_add_task (result : option task_data) (now : string)
    (w : write_outcome) : M unit :=
  match result with
  | Some d =>
      s ← get;
      new_task ← lift (Task.init now
                         [("id", PStr (Str.of_int (task_counter s)));
                          ("title", PStr (td_title d));
                          ("priority", PStr (td_priority d));
                          ("tags", PList (PStr <$> td_tags d))]%string);
      r ← alloc new_task;
      modify (λ s, with_task_counter (task_counter s + 1) s) ;;
      modify (λ s, with_tasks (tasks s ++ [r]) s) ;;
      save_tasks w ;;
      refresh_table
  | None => mret ()
  end.

(** [self.current_task.completed = not self.current_task.completed] writes
    to the object the selection refers to. *)
Definition action_complete_task (w : write_outcome) : M unit :=
  s ← get;
  match current_task s with
  | Some r =>
      task ← deref r;
      modify (λ s, with_heap
                     (<[r := Task.set_completed
                               (PBool (negb (Py.truthy (Task.completed task))))
                               task]> (heap s)) s) ;;
      save_tasks w ;;
      refresh_table ;;
      update_detail_panel
  | None => mret ()
  end.

Definition action_delete_task (w : write_outcome) : M unit :=
  s ← get;
  match current_task s with
  | Some c =>
      kept ← filter_each (λ r, task ← deref r; cur ← deref c;
                           mret (negb (Py.eq (Task.id task) (Task.id cur))))
                     (tasks s);
      modify (with_tasks kept) ;;
      save_tasks w ;;
      refresh_table
  | None => mret ()
  end.

(** *** [AddTaskModal] *)

Inductive modal_outcome :=
| StaysOpen
| Dismiss (result : option task_data).

(** [on_button_pressed], given the pressed button's id and the values of
    the three inputs. *)
Definition on_button_pressed (button_id title_value priority_value tags_value
    : string) : modal_outcome :=
  if String.eqb button_id "add-button" then
    let title := Str.strip title_value in
    let priority :=
      let p := Str.strip priority_value in
      if Str.is_empty p then "normal"%string else p in
    let tags_input := Str.strip tags_value in
    if negb (Str.is_empty title) then
      let tags := Str.strip <$>
                  List.filter (λ tag, negb (Str.is_empty (Str.strip tag)))
                              (Str.split "," tags_input) in
      Dismiss (Some (mkData title
                       (if existsb (String.eqb priority)
                                   ["low"; "normal"; "high"]%string
                        then priority else "normal"%string)
                       tags))
    else StaysOpen
  else if String.eqb button_id "cancel-button" then Dismiss None
  else StaysOpen.

(** *** Runs of the app *)

Inductive event :=
| AddTask (result : option task_data) (now : string) (w : write_outcome)
| CompleteTask (w : write_outcome)
| DeleteTask (w : write_outcome)
| InputChanged (input_id value : string)
| ClearSearch
| RowHighlighted (cursor_row : Z).

Definition handle (ev : event) : M unit :=
  match ev with
  | AddTask result now w => action_add_task result now w
  | CompleteTask w => action_complete_task w
  | DeleteTask w => action_delete_task w
  | InputChanged input_id value => on_input_changed input_id value
  | ClearSearch => action_clear_search
  | RowHighlighted cursor_row => on_data_table_row_highlighted cursor_row
  end.

(** The handlers run one after the other; an exception that leaves a
    handler ends the process. *)
Fixpoint run (evs : list event) : M unit :=
  match evs with
  | [] => mret ()
  | ev :: evs' => handle ev ;; run evs'
  end.

(** * Vocabulary of the properties *)

(** ** Parts of the state *)

(** A method that leaves the part [proj] of the state as it found it,
    whether it returns or raises. *)
Definition keeps {X : Type} (proj : App → X) {A} (m : M A) : Prop :=
  ∀ s, proj (snd (m s)) = proj s.

(** The part of the state held in the attributes of the app object and in
    the [Task] objects, as opposed to the file and the widgets. *)
Definition memory (s : App)
  : list Task.t * list ref * option ref * string * Z :=
  (heap s, tasks s, current_task s, search_filter s, task_counter s).

(** Everything but the storage file and the record of outside calls. *)
Definition but_disk (s : App) :=
  (memory s, task_table s, detail_content s).

(** The collection as values: the object behind each element of
    [self.tasks], in order. *)
Definition collection (s : App) : list (option Task.t) :=
  (λ r, heap s !! r) <$> tasks s.

(** The value behind a reference, read without the monad. *)
Definition heap_get (h : list Task.t) (r : ref) : result Task.t :=
  match h !! r with
  | Some x => Ok x
  | None => Raise KeyError
  end.

(** ** Tasks as the specification describes them *)

Definition is_str (v : pyval) : bool :=
  match v with PStr _ => true | _ => false end.

(** A task as the data model of the specification types it: [id], [title],
    [priority] and [created_at] are strings, [completed] is a boolean,
    [priority] is one of low, normal, high and [tags] is a list of
    strings. *)
Definition documented_task (x : Task.t) : bool :=
  match Task.id x, Task.title x, Task.completed x, Task.priority x,
        Task.tags x, Task.created_at x with
  | PStr _, PStr _, PBool _, PStr p, PList tg, PStr _ =>
      existsb (String.eqb p) ["low"; "normal"; "high"]%string
      && forallb is_str tg
  | _, _, _, _, _, _ => false
  end.

(** A record of the storage file as the specification documents it: a
    dictionary with exactly the six fields, typed as above. *)
Definition documented_record (v : pyval) : bool :=
  match v with
  | PDict [(k1, i); (k2, ti); (k3, c); (k4, p); (k5, tg); (k6, ca)] =>
      String.eqb k1 "id" && String.eqb k2 "title"
      && String.eqb k3 "completed" && String.eqb k4 "priority"
      && String.eqb k5 "tags" && String.eqb k6 "created_at"
      && documented_task (Task.mk i ti c p tg ca)
  | _ => false
  end.

(** The id of the task reads as an integer: [int] accepts it. *)
Definition numeric_id (x : Task.t) : bool := is_Ok (Py.int (Task.id x)).

(** A well-formed task: typed as documented, with an id that is an integer
    rendered as a string, as the store allocates them. *)
Definition well_formed_task (x : Task.t) : bool :=
  documented_task x && numeric_id x.

(** A task the filter can be applied to: the title is a string and the
    tags are a list of strings. *)
Definition searchable (x : Task.t) : bool :=
  match Task.title x, Task.tags x with
  | PStr _, PList tg => forallb is_str tg
  | _, _ => false
  end.

(** ** Well-formed states *)

(** Every reference held in [self.tasks] points into the heap. *)
Definition refs_valid (s : App) : Prop :=
  ∀ r, r ∈ tasks s → is_Some (heap s !! r).

(** Every element of [self.tasks] refers to an object whose id [int]
    accepts. *)
Definition store_ok (s : App) : Prop :=
  ∀ r, r ∈ tasks s → ∃ x, heap s !! r = Some x ∧ numeric_id x = true.

(** One run of the app: mount, then the handlers of the events. *)
Definition session (clock : nat → string) (evs : list event) : M unit :=
  on_mount clock ;; run evs.

(** ** The filter *)

(** The filtered view as a function of the heap, the collection and the
    search text. *)
Definition filtered_view (h : list Task.t) (ts : list ref) (q : string)
  : result (list ref) :=
  if Str.is_empty q then Ok ts
  else filterR (λ r, task ← heap_get h r; task_matches (Str.lower q) task) ts.

(** The filter in the words of the specification, on strings over code
    points below 256. [q] is a case-insensitive substring of [t]: a
    contiguous part of [t] is [q] up to the case of its letters, that
    is, up to the mapping of a capital to its small letter. *)
Definition ci_substring (q t : string) : Prop :=
  ∃ pre mid post, t = pre +:+ mid +:+ post ∧ Str.lower mid = Str.lower q.

(** The task matches the search text: the title contains it, or at least
    one tag does. *)
Definition spec_matches (q : string) (x : Task.t) : Prop :=
  (∃ t, Task.title x = PStr t ∧ ci_substring q t)
  ∨ (∃ l tag, Task.tags x = PList l ∧ PStr tag ∈ l ∧ ci_substring q tag).

(** [l'] is exactly the subsequence of [l], in the order of [l], of the
    elements that satisfy [P]. *)
Inductive selected_by {A} (P : A → Prop) : list A → list A → Prop :=
| selected_nil : selected_by P [] []
| selected_keep x l l' :
    P x → selected_by P l l' → selected_by P (x :: l) (x :: l')
| selected_drop x l l' :
    ¬ P x → selected_by P l l' → selected_by P (x :: l) l'.

(** ** Delete *)

(** The test [task.id != self.current_task.id] of the comprehension in
    [action_delete_task], for the selected object [cur]. *)
Definition other_id (h : list Task.t) (cur : Task.t) (r : ref) : bool :=
  match h !! r with
  | Some task => negb (Py.eq (Task.id task) (Task.id cur))
  | None => false
  end.

(** ** Create *)

(** The object [action_add_task] constructs when the counter is [n]. *)
Definition created_task (n : Z) (d : task_data) (now : string) : Task.t :=
  Task.mk (PStr (Str.of_int n)) (PStr (td_title d)) (PBool false)
          (PStr (td_priority d)) (PList (PStr <$> td_tags d)) (PStr now).

(** The ids of all the [Task] objects constructed so far, in the order of
    construction, and the counter. *)
Definition ids_and_counter (s : App) : list pyval * Z :=
  (Task.id <$> heap s, task_counter s).

(** The ids [action_add_task] gives to [k] tasks in a row, from the
    counter [n] on. *)
Definition fresh_ids (n : Z) (k : nat) : list pyval :=
  (λ i : nat, PStr (Str.of_int (n + Z.of_nat i))) <$> seq 0 k.

(** [k] tasks were created between [s] and [s']. *)
Definition created_between (s s' : App) (k : nat) : Prop :=
  Task.id <$> heap s' = (Task.id <$> heap s) ++ fresh_ids (task_counter s) k
  ∧ task_counter s' = task_counter s + Z.of_nat k.

(** Every character of [s] satisfies [P]. *)
Fixpoint all_chars (P : ascii → bool) (s : string) : bool :=
  match s with
  | EmptyString => true
  | String c r => P c && all_chars P r
  end.

(** No character of [s] is white space for [int]. *)
Definition no_int_space (s : string) : bool :=
  all_chars (λ c, negb (Str.is_int_space c)) s.

(** ** Load and save *)

(** The state right after the comprehension of [load_tasks] has built the
    objects [objs]. *)
Definition loaded (objs : list Task.t) (s : App) : App :=
  with_tasks (seq (length (heap s)) (length objs))
             (with_heap (heap s ++ objs) (emit OpenForRead s)).

(** The exceptions the [except] clause of [load_tasks] catches. *)
Definition load_catches (e : exn) : bool :=
  existsb (isinstance e) [JSONDecodeError; KeyError; ValueError].

(** A message was written to a log between the states [s] and [s']. *)
Definition is_log (e : effect) : bool :=
  match e with
  | LogMessage _ => true
  | _ => false
  end.

Definition logged (s s' : App) : bool :=
  existsb is_log (drop (length (effects s)) (effects s')).

(** ** Sample sessions and files *)

Definition sample_clock (i : nat) : string := "2024-05-01T09:00:00"%string.

Definition task_A : Task.t :=
  created_task 0 (mkData "Buy milk" "normal" []) "2024-05-01T09:00:01".
Definition task_B : Task.t :=
  created_task 1 (mkData "Write report" "high" ["work"%string])
               "2024-05-01T09:00:02".
Definition task_C : Task.t :=
  created_task 2 (mkData "Call home" "low" []) "2024-05-01T09:00:03".

(** The events that lead to [st_ABC]: three tasks are added to an empty
    store and the cursor is put on the second row. *)
Definition events_ABC : list event :=
  [AddTask (Some (mkData "Buy milk" "normal" []))
           "2024-05-01T09:00:01" WriteOk;
   AddTask (Some (mkData "Write report" "high" ["work"%string]))
           "2024-05-01T09:00:02" WriteOk;
   AddTask (Some (mkData "Call home" "low" []))
           "2024-05-01T09:00:03" WriteOk;
   RowHighlighted 1].

(** The state at the end of that session, started without a file. *)
Definition st_ABC : App :=
  Eval vm_compute in exec (session sample_clock events_ABC) (init None).

(** The same after the text WORK is typed in the search box. *)
Definition st_search : App :=
  Eval vm_compute in exec (on_input_changed "search-input" "WORK") st_ABC.

(** A later session, on the file [st_ABC] left: the first task is deleted
    and two are created, the first with a write that fails. *)
Definition sample_events : list event :=
  [RowHighlighted 0; DeleteTask WriteOk;
   AddTask (Some (mkData "Water plants" "low" [])) "2024-05-02T08:00:00"
           (OpenFails OSError);
   AddTask (Some (mkData "Pay rent" "high" ["home"%string]))
           "2024-05-02T08:00:05" WriteOk].

Definition sample_record (i p : string) : pyval :=
  Task.asdict (Task.mk (PStr i) (PStr "Buy milk") (PBool false) (PStr p)
                       (PList []) (PStr "2024-05-01T09:00:00")).

(** A file whose only record has no [title]. *)
Definition file_missing_title : option file :=
  Some (FileJson (PList [PDict [("id", PStr "0")]%string])).

(** A file with a record whose id is not a number. *)
Definition file_non_numeric_id : option file :=
  Some (FileJson (PList [sample_record "0" "normal";
                         sample_record "a1" "normal"])).

(** A file with a record whose priority is none of low, normal, high. *)
Definition file_odd_priority : option file :=
  Some (FileJson (PList [sample_record "0" "urgent"])).

(** * The table, the ids of a session, the modal and the theme *)

(** ** Loading, record by record *)

(** A record the constructor of [Task] accepts: a dictionary whose keys are
    all field names and include [id] and [title]. *)
Definition accepted_record (v : pyval) : bool :=
  match v with
  | PDict d =>
      forallb (λ kv, Task.is_field (fst kv)) d
      && match Py.assoc "id" d, Py.assoc "title" d with
         | Some _, Some _ => true
         | _, _ => false
         end
  | _ => false
  end.

(** ** The result of the modal *)

(** A tag as the modal hands it over: not empty, with no white space at
    either end and no comma. *)
Definition clean_tag (tag : string) : Prop :=
  tag ≠ EmptyString ∧ Str.strip tag = tag
  ∧ all_chars (λ c, negb (Ascii.eqb c ",")) tag = true.

(** ** The rows of the table

    The loop of [refresh_table] as a function of the heap and the table:
    [refresh_table_fill] below shows that [refresh_table] computes it. *)

(** The row [refresh_table] builds for a task: its key and its four
    cells. *)
Definition row_of (task : Task.t) : result TableRow :=
  tags_str ← (if Py.truthy (Task.tags task)
              then Py.join ", " (Task.tags task)
              else Ok EmptyString);
  picon ← Task.priority_icon task;
  Ok (mkRow (Task.id task)
            [CellIcon (Task.status_icon task); CellIcon picon;
             CellValue (Task.title task); CellText tags_str]).

(** The key [key] is refused next to the key [old]. *)
Definition clashes (old key : pyval) : bool :=
  match key with
  | PNone => false
  | _ => Py.eq old key
  end.

(** The table after the rows of the tasks [l] are added one by one, and
    how the loop ended. *)
Fixpoint fill (h : list Task.t) (l : list ref) (t : DataTable)
  : result unit * DataTable :=
  match l with
  | [] => (Ok (), t)
  | r :: l' =>
      match task ← heap_get h r; row_of task with
      | Ok rw =>
          if negb (Py.hashable (row_key rw)) then (Raise TypeError, t)
          else if existsb (λ old, clashes (row_key old) (row_key rw)) (rows t)
          then (Raise DuplicateKey, t)
          else fill h l' (mkTable (columns t) (rows t ++ [rw])
                                  (cursor_coordinate t))
      | Raise e => (Raise e, t)
      end
  end.

(** The keys of the rows, in order. *)
Definition row_keys (t : DataTable) : list pyval := row_key <$> rows t.

(** [R] holds from every element of the list to every later one. *)
Fixpoint pairwise {A} (R : A → A → Prop) (l : list A) : Prop :=
  match l with
  | [] => True
  | x :: l' => Forall (R x) l' ∧ pairwise R l'
  end.

(** No key of the list is refused next to an earlier one. *)
Definition keys_distinct (keys : list pyval) : Prop :=
  pairwise (λ a b, clashes a b = false) keys.

(** A task [refresh_table] can show under a string key. *)
Definition displayable (x : Task.t) : bool :=
  is_Ok (row_of x) && is_str (Task.id x).

(** The table shows the filtered view: one row per task of the view, in
    order, built from the object as it is now. *)
Definition table_in_sync (s : App) : Prop :=
  ∃ view, eval get_filtered_tasks s = Ok view
          ∧ Forall2 (λ r rw, ∃ x, heap s !! r = Some x ∧ row_of x = Ok rw)
                    view (rows (task_table s)).

(** What [table_in_sync] depends on. *)
Definition sync_part (s : App) :=
  (heap s, tasks s, search_filter s, rows (task_table s)).

(** A method after which, when it returns normally, the table shows the
    view. *)
Definition syncs {A} (m : M A) : Prop :=
  ∀ s, is_Ok (eval m s) = true → table_in_sync (exec m s).

(** ** The ids of the collection *)

(** The ids of the collection, in order; [None] for a dangling
    reference. *)
Definition collection_ids (s : App) : list (option pyval) :=
  (λ r, Task.id <$> heap s !! r) <$> tasks s.

(** The invariant of the id allocation: every id of the collection reads
    as an integer below the counter, and no id equals a later one. *)
Definition ids_fresh (s : App) : Prop :=
  Forall (λ o, ∃ v n, o = Some v ∧ Py.int v = Ok n ∧ n < task_counter s)
         (collection_ids s)
  ∧ pairwise (λ a b, ∀ v w, a = Some v → b = Some w → Py.eq v w = false)
             (collection_ids s).

(** The sample store started again on the file of [st_ABC], after the
    events of [sample_events]. *)
Definition st_session : App :=
  Eval vm_compute in
    exec (session sample_clock sample_events) (init (tasks_file st_ABC)).

(** ** The theme

    [dark_mode] and the CSS classes of the app. The classes of a widget
    are a set of names. No other method reads or writes them, so the
    theme has a state of its own, apart from [App]. *)
Module Theme.

Record t := mk {
  dark_mode : bool;
  classes : gset string;
}.

(** [self.remove_class(name)], [self.add_class(name)]. *)
Definition remove_class (name : string) (s : t) : t :=
  mk (dark_mode s) (classes s ∖ {[name]}).

Definition add_class (name : string) (s : t) : t :=
  mk (dark_mode s) (classes s ∪ {[name]}).

Definition apply_theme (s : t) : t :=
  if dark_mode s then add_class "dark" (remove_class "light" s)
  else add_class "light" (remove_class "dark" s).

Definition action_toggle_theme (s : t) : t :=
  apply_theme (mk (negb (dark_mode s)) (classes s)).

End Theme.

(** ** Well-formed stores and the outcome of a delete *)




(** ** The filter on strings over all of Unicode

    The model above keeps a [str] as a [string], one [ascii] per code
    point, so it covers the strings over code points below 256. There
    [str.lower] maps one character to one character. On other strings
    it does not: a capital sigma is lowered to one of two letters,
    depending on what stands around it. This module has the filter of
    [get_filtered_tasks] on strings over all code points, with
    [str.lower] as CPython computes it. *)
Module UStr.

(** A [str]: its code points. *)
Definition t := list N.

(** What [str.lower] reads in the Unicode character database: the full
    lowercase mapping of a code point and the properties Cased and
    Case_Ignorable. *)
Record ucd := mk_ucd {
  to_lower_full : N → list N;
  is_cased : N → bool;
  is_case_ignorable : N → bool;
}.

Section Lower.

Context (db : ucd).

(** The first code point of [l] that is not case-ignorable. *)
Fixpoint skip_ignorable (l : list N) : option N :=
  match l with
  | [] => None
  | c :: r => if is_case_ignorable db c then skip_ignorable r else Some c
  end.

(** [handle_capital_sigma]: the lowercase of a capital sigma (U+03A3)
    that has the code points [before] before it, the nearest first, and
    [after] after it. It is the final sigma (U+03C2) when a cased letter
    comes before it and none comes after it, case-ignorable code points
    skipped, and the sigma (U+03C3) otherwise. *)
Definition handle_capital_sigma (before after : list N) : N :=
  let final_sigma :=
    match skip_ignorable before with
    | Some c => is_cased db c
    | None => false
    end
    && match skip_ignorable after with
       | Some c => negb (is_cased db c)
       | None => true
       end in
  if final_sigma then 962%N else 963%N.

Fixpoint lower_from (before : list N) (s : t) : t :=
  match s with
  | [] => []
  | c :: r =>
      (if (c =? 931)%N then [handle_capital_sigma before r]
       else to_lower_full db c)
      ++ lower_from (c :: before) r
  end.

(** [s.lower()]. *)
Definition lower (s : t) : t := lower_from [] s.

End Lower.

Fixpoint startswith (p s : t) : bool :=
  match p, s with
  | [], _ => true
  | a :: p', b :: s' => (a =? b)%N && startswith p' s'
  | _ :: _, [] => false
  end.

(** [needle in hay]. *)
Fixpoint contains (needle hay : t) : bool :=
  startswith needle hay ||
  match hay with
  | [] => false
  | _ :: r => contains needle r
  end.

(** What the filter reads of a task whose title is a string and whose
    tags are a list of strings. *)
Record task := mk_task {
  title : t;
  tags : list t;
}.

(** The condition of the comprehension in [get_filtered_tasks]. *)
Definition task_matches (db : ucd) (search_lower : t) (x : task) : bool :=
  contains search_lower (lower db (title x))
  || existsb (λ tag, contains search_lower (lower db tag)) (tags x).

(** [get_filtered_tasks], as a function of the search text and the
    tasks. *)
Definition get_filtered_tasks (db : ucd) (search_filter : t)
    (tasks : list task) : list task :=
  match search_filter with
  | [] => tasks
  | _ :: _ =>
      let search_lower := lower db search_filter in
      List.filter (task_matches db search_lower) tasks
  end.

(** *** The strings of the model above *)

(** The code points of a [string]. *)
Definition of_string (s : string) : t :=
  N_of_ascii <$> list_ascii_of_string s.

(** A task of the model above whose title is a string and whose tags are
    a list of strings. *)
Definition of_task (x : Task.t) : option task :=
  match Task.title x, Task.tags x with
  | PStr ti, PList tg =>
      tg' ← mapM (λ v, match v with PStr s => Some (of_string s) | _ => None end) tg;
      Some (mk_task (of_string ti) tg')
  | _, _ => None
  end.

(** The lowercase mapping of the code points below 256: the letters A to
    Z and the capitals from U+00C0 to U+00DE, the multiplication sign
    apart, are 32 below their lowercase; every other is its own. *)
Definition latin1_lower (n : N) : N :=
  if ((65 <=? n) && (n <=? 90) || (192 <=? n) && (n <=? 222) && negb (n =? 215))%N
  then (n + 32)%N else n.

(** The database maps the code points below 256 as Unicode does. *)
Definition latin1 (db : ucd) : Prop :=
  ∀ n, (n < 256)%N → to_lower_full db n = [latin1_lower n].

(** The database has the Greek capital alpha (U+0391) as Unicode does:
    cased, not case-ignorable, with the small alpha (U+03B1) for
    lowercase. *)
Definition greek_alpha (db : ucd) : Prop :=
  to_lower_full db 913 = [945%N] ∧ is_cased db 913 = true
  ∧ is_case_ignorable db 913 = false.

(** The view of the model above, read through the filter of this
    module: the tasks of [ts] that [task_matches] keeps. *)
Definition latin1_view (db : ucd) (h : list Task.t) (ts : list ref)
    (q : string) : list ref :=
  List.filter (λ r, match h !! r ≫= of_task with
                    | Some u => task_matches db (lower db (of_string q)) u
                    | None => false
                    end) ts.

End UStr.

(** The Unicode character database on the code points below 256 and on
    the Greek letters alpha and sigma. The entries of the other code
    points are placeholders: nothing below reads them. *)
Definition ucd_latin1_greek : UStr.ucd :=
  UStr.mk_ucd
    (λ n, if (n =? 913)%N then [945%N]
          else if (n =? 931)%N then [963%N]
          else [UStr.latin1_lower n])
    (λ n, ((65 <=? n) && (n <=? 90) || (97 <=? n) && (n <=? 122)
           || (n =? 170) || (n =? 181) || (n =? 186)
           || (192 <=? n) && (n <=? 214) || (216 <=? n) && (n <=? 246)
           || (248 <=? n) && (n <=? 255)
           || (n =? 913) || (n =? 931) || (n =? 945) || (n =? 962)
           || (n =? 963))%N)
    (λ n, ((n =? 39) || (n =? 46) || (n =? 58) || (n =? 94) || (n =? 96)
           || (n =? 168) || (n =? 173) || (n =? 175) || (n =? 180)
           || (n =? 183) || (n =? 184))%N).
(** * Reasoning about methods *)

Section Frame.

Context {X : Type} (proj : App → X).

Lemma keeps_ret {A} (a : A) : keeps proj (mret a).
Proof. intros s. reflexivity. Qed.

Lemma keeps_raise {A} (e : exn) : keeps proj (@raise A e).
Proof. intros s. reflexivity. Qed.

Lemma keeps_lift {A} (r : result A) : keeps proj (lift r).
Proof. intros s. reflexivity. Qed.

Lemma keeps_get : keeps proj get.
Proof. intros s. reflexivity. Qed.

Lemma keeps_modify (f : App → App) :
  (∀ s, proj (f s) = proj s) → keeps proj (modify f).
Proof. intros H s. apply H. Qed.

Lemma keeps_bind {A B} (m : M A) (f : A → M B) :
  keeps proj m → (∀ a, keeps proj (f a)) → keeps proj (m ≫= f).
Proof.
  intros Hm Hf s. unfold mbind, M_bind.
  specialize (Hm s). destruct (m s) as [[a|e] s']; simpl in *.
  - rewrite Hf. exact Hm.
  - exact Hm.
Qed.

Lemma keeps_fmap {A B} (g : A → B) (m : M A) : keeps proj m → keeps proj (g <$> m).
Proof. intros Hm. apply keeps_bind; [exact Hm | intros; apply keeps_ret]. Qed.

Lemma keeps_try_except {A} (body handler : M A) classes :
  keeps proj body → keeps proj handler → keeps proj (try_except body classes handler).
Proof.
  intros Hb Hh s. unfold try_except.
  specialize (Hb s). destruct (body s) as [[a|e] s']; simpl in *; [exact Hb|].
  destruct (existsb (isinstance e) classes); simpl; [|exact Hb].
  rewrite Hh. exact Hb.
Qed.

Lemma keeps_try_except_Exception {A} (body handler : M A) :
  keeps proj body → keeps proj handler → keeps proj (try_except_Exception body handler).
Proof.
  intros Hb Hh s. unfold try_except_Exception.
  specialize (Hb s). destruct (body s) as [[a|e] s']; simpl in *; [exact Hb|].
  rewrite Hh. exact Hb.
Qed.

Lemma keeps_for_each {A} (l : list A) (body : A → M unit) :
  (∀ x, keeps proj (body x)) → keeps proj (for_each l body).
Proof.
  intros Hb. induction l as [|x l IH]; simpl.
  - apply keeps_ret.
  - apply keeps_bind; [apply Hb | intros _; exact IH].
Qed.

Lemma keeps_map_each {A B} (f : A → M B) (l : list A) :
  (∀ x, keeps proj (f x)) → keeps proj (map_each f l).
Proof.
  intros Hf. induction l as [|x l IH]; simpl.
  - apply keeps_ret.
  - apply keeps_bind; [apply Hf | intros y].
    apply keeps_bind; [exact IH | intros; apply keeps_ret].
Qed.

Lemma keeps_filter_each {A} (p : A → M bool) (l : list A) :
  (∀ x, keeps proj (p x)) → keeps proj (filter_each p l).
Proof.
  intros Hp. induction l as [|x l IH]; simpl.
  - apply keeps_ret.
  - apply keeps_bind; [apply Hp | intros b].
    apply keeps_bind; [exact IH | intros; apply keeps_ret].
Qed.

Lemma keeps_deref (r : ref) : keeps proj (deref r).
Proof. intros s. unfold deref. destruct (heap s !! r); reflexivity. Qed.

End Frame.

(** Splits a frame goal along the structure of the method. *)
Ltac frame_step :=
  first
    [ apply keeps_ret | apply keeps_raise | apply keeps_lift | apply keeps_get
    | apply keeps_deref
    | apply keeps_modify; intros; reflexivity
    | apply keeps_bind; [|intros]
    | apply keeps_fmap
    | apply keeps_try_except
    | apply keeps_try_except_Exception
    | apply keeps_for_each; intros
    | apply keeps_map_each; intros
    | apply keeps_filter_each; intros
    | match goal with
      | |- keeps _ (match ?x with _ => _ end) => destruct x
      end ].

Ltac frame := repeat frame_step.


Lemma save_tasks_keeps_but_disk w : keeps but_disk (save_tasks w).
Proof. unfold save_tasks, open_for_write, json_dump. frame. Qed.

Lemma update_detail_panel_keeps_memory : keeps memory update_detail_panel.
Proof. unfold update_detail_panel. frame. Qed.

Lemma refresh_table_keeps_memory : keeps memory refresh_table.
Proof.
  unfold refresh_table, table_clear, get_filtered_tasks, table_add_row.
  frame.
Qed.

(** ** Running a method step by step *)

Lemma bind_Ok {A B} (m : M A) (f : A → M B) s a s' :
  m s = (Ok a, s') → (m ≫= f) s = f a s'.
Proof. intros H. unfold mbind, M_bind. rewrite H. reflexivity. Qed.

Lemma bind_Raise {A B} (m : M A) (f : A → M B) s e s' :
  m s = (Raise e, s') → (m ≫= f) s = (Raise e, s').
Proof. intros H. unfold mbind, M_bind. rewrite H. reflexivity. Qed.

Lemma after_bind {X A B} (proj : App → X) (m : M A) (f : A → M B) s :
  (∀ a, keeps proj (f a)) → proj (exec (m ≫= f) s) = proj (exec m s).
Proof.
  intros Hf. unfold exec, mbind, M_bind.
  destruct (m s) as [[a|e] s1]; simpl; [apply Hf | reflexivity].
Qed.

Lemma deref_Ok (r : ref) (x : Task.t) s :
  heap s !! r = Some x → deref r s = (Ok x, s).
Proof. intros H. unfold deref. rewrite H. reflexivity. Qed.

(** A method that only reads: it returns [q x] and leaves the state. *)
Lemma filter_each_reader {A} (p : A → M bool) (q : A → result bool) l s :
  (∀ x, x ∈ l → p x s = (q x, s)) → filter_each p l s = (filterR q l, s).
Proof.
  induction l as [|x l IH]; intros Hp; simpl; [reflexivity|].
  unfold mbind at 1, M_bind. rewrite Hp by left.
  destruct (q x) as [b|e]; simpl; [|reflexivity].
  unfold mbind at 1, M_bind. rewrite IH by (intros; apply Hp; right; done).
  destruct (filterR q l); reflexivity.
Qed.

Lemma map_each_reader {A B} (f : A → M B) (g : A → result B) l s :
  (∀ x, x ∈ l → f x s = (g x, s)) → map_each f l s = (mapR g l, s).
Proof.
  induction l as [|x l IH]; intros Hf; simpl; [reflexivity|].
  unfold mbind at 1, M_bind. rewrite Hf by left.
  destruct (g x) as [b|e]; simpl; [|reflexivity].
  unfold mbind at 1, M_bind. rewrite IH by (intros; apply Hf; right; done).
  destruct (mapR g l); reflexivity.
Qed.

Lemma filterR_total {A} (p : A → result bool) (g : A → bool) l :
  (∀ x, x ∈ l → p x = Ok (g x)) → filterR p l = Ok (List.filter g l).
Proof.
  induction l as [|x l IH]; intros Hp; simpl; [reflexivity|].
  rewrite Hp by left. simpl. rewrite IH by (intros; apply Hp; right; done).
  simpl. destruct (g x); reflexivity.
Qed.



Lemma get_filtered_tasks_view s :
  get_filtered_tasks s = (filtered_view (heap s) (tasks s) (search_filter s), s).
Proof.
  unfold get_filtered_tasks, filtered_view.
  rewrite (bind_Ok get _ s s s) by reflexivity.
  destruct (Str.is_empty (search_filter s)); [reflexivity|].
  apply filter_each_reader. intros r _.
  unfold deref, heap_get, mbind at 1, M_bind.
  destruct (heap s !! r); reflexivity.
Qed.

(** ** What each mutation does to the memory *)

Lemma save_refresh_keeps_memory w : keeps memory (save_tasks w ;; refresh_table).
Proof.
  apply keeps_bind; [|intros _; apply refresh_table_keeps_memory].
  intros s. pose proof (save_tasks_keeps_but_disk w s) as H.
  unfold but_disk in H. congruence.
Qed.


Lemma delete_comprehension s c cur l :
  heap s !! c = Some cur → (∀ r, r ∈ l → is_Some (heap s !! r)) →
  filter_each (λ r, task ← deref r; cur ← deref c;
                mret (negb (Py.eq (Task.id task) (Task.id cur)))) l s
  = (Ok (List.filter (other_id (heap s) cur) l), s).
Proof.
  intros Hcur Hv.
  rewrite (filter_each_reader _ (λ r, Ok (other_id (heap s) cur r))).
  - rewrite (filterR_total _ (other_id (heap s) cur)); done.
  - intros r Hr. destruct (Hv r Hr) as [x Hx].
    rewrite (bind_Ok _ _ _ _ _ (deref_Ok r x s Hx)).
    rewrite (bind_Ok _ _ _ _ _ (deref_Ok c cur s Hcur)).
    unfold other_id. rewrite Hx. reflexivity.
Qed.

Lemma action_delete_task_memory w s c cur :
  current_task s = Some c → heap s !! c = Some cur → refs_valid s →
  memory (exec (action_delete_task w) s) =
  (heap s, List.filter (other_id (heap s) cur) (tasks s),
   current_task s, search_filter s, task_counter s).
Proof.
  intros Hc Hcur Hv. unfold exec, action_delete_task.
  rewrite (bind_Ok get _ s s s) by reflexivity. rewrite Hc.
  rewrite (bind_Ok _ _ _ _ _ (delete_comprehension s c cur _ Hcur Hv)).
  erewrite bind_Ok by reflexivity.
  rewrite (save_refresh_keeps_memory w). unfold memory. simpl. congruence.
Qed.

Lemma action_delete_task_no_selection w s :
  current_task s = None → action_delete_task w s = (Ok (), s).
Proof.
  intros Hc. unfold action_delete_task.
  rewrite (bind_Ok get _ s s s) by reflexivity. rewrite Hc. reflexivity.
Qed.

Lemma action_complete_task_memory w s r task :
  current_task s = Some r → heap s !! r = Some task →
  memory (exec (action_complete_task w) s) =
  (<[r := Task.set_completed (PBool (negb (Py.truthy (Task.completed task))))
                             task]> (heap s),
   tasks s, current_task s, search_filter s, task_counter s).
Proof.
  intros Hc Hr. unfold exec, action_complete_task.
  rewrite (bind_Ok get _ s s s) by reflexivity. rewrite Hc.
  rewrite (bind_Ok _ _ _ _ _ (deref_Ok r task s Hr)).
  erewrite bind_Ok by reflexivity.
  assert (Hk : keeps memory (save_tasks w ;; refresh_table ;; update_detail_panel)).
  { apply keeps_bind; [|intros _; apply keeps_bind;
                         [apply refresh_table_keeps_memory
                         |intros _; apply update_detail_panel_keeps_memory]].
    intros s0. pose proof (save_tasks_keeps_but_disk w s0) as H.
    unfold but_disk in H. congruence. }
  rewrite Hk. unfold memory. simpl. congruence.
Qed.

Lemma action_complete_task_no_selection w s :
  current_task s = None → action_complete_task w s = (Ok (), s).
Proof.
  intros Hc. unfold action_complete_task.
  rewrite (bind_Ok get _ s s s) by reflexivity. rewrite Hc. reflexivity.
Qed.

Lemma action_add_task_memory w s d now :
  memory (exec (action_add_task (Some d) now w) s) =
  (heap s ++ [created_task (task_counter s) d now],
   tasks s ++ [length (heap s)],
   current_task s, search_filter s, task_counter s + 1).
Proof.
  unfold exec, action_add_task.
  rewrite (bind_Ok get _ s s s) by reflexivity.
  erewrite bind_Ok by reflexivity.
  erewrite bind_Ok by reflexivity.
  erewrite bind_Ok by reflexivity.
  erewrite bind_Ok by reflexivity.
  rewrite (save_refresh_keeps_memory w). reflexivity.
Qed.

Lemma action_add_task_cancelled w s now :
  action_add_task None now w s = (Ok (), s).
Proof. reflexivity. Qed.

Lemma set_completed_same (task : Task.t) :
  Task.set_completed (Task.completed task) task = task.
Proof. destruct task; reflexivity. Qed.

(** * The claims *)

(** ** C7: toggle *)

(** C7. Two toggles in a row, on a selected task whose [completed] is a
    boolean: the first flips the flag of that object, the second restores
    it; after both the heap and the collection are what they were. *)
Theorem toggle_twice_restores (s : App) (w1 w2 : write_outcome) (r : ref)
    (task : Task.t) (b : bool) :
  current_task s = Some r → heap s !! r = Some task →
  Task.completed task = PBool b →
  let s1 := exec (action_complete_task w1) s in
  let s2 := exec (action_complete_task w2) s1 in
  heap s1 !! r = Some (Task.set_completed (PBool (negb b)) task)
  ∧ heap s2 !! r = Some task
  ∧ heap s2 = heap s
  ∧ tasks s2 = tasks s.
Proof.
  intros Hc Hr Hb s1 s2.
  pose proof (action_complete_task_memory w1 s r task Hc Hr) as H1.
  fold s1 in H1. unfold memory in H1. injection H1 as Hh1 Ht1 Hc1 _ _.
  rewrite Hb in Hh1. simpl in Hh1.
  assert (Hlt : (r < length (heap s))%nat) by (by eapply lookup_lt_Some).
  assert (Hr1 : heap s1 !! r = Some (Task.set_completed (PBool (negb b)) task)).
  { rewrite Hh1. by apply list_lookup_insert_eq. }
  pose proof (action_complete_task_memory w2 s1 r _ (eq_trans Hc1 Hc) Hr1) as H2.
  fold s2 in H2. unfold memory in H2. injection H2 as Hh2 Ht2 _ _ _.
  simpl in Hh2. rewrite negb_involutive in Hh2.
  assert (Hs2 : heap s2 = heap s).
  { rewrite Hh2, Hh1. rewrite list_insert_insert_eq.
    apply list_insert_id. rewrite Hr. f_equal.
    destruct task; simpl in *. by subst. }
  split; [exact Hr1|]. split; [by rewrite Hs2|]. split; [exact Hs2|].
  by rewrite Ht2, Ht1.
Qed.

Lemma toggle_twice_restores_witness :
  heap (exec (action_complete_task WriteOk)
          (exec (action_complete_task (OpenFails OSError)) st_ABC))
  = heap st_ABC.
Proof.
  refine (proj1 (proj2 (proj2
    (toggle_twice_restores st_ABC (OpenFails OSError) WriteOk 1%nat task_B
                           false _ _ _)))); reflexivity.
Defined.

(** ** The filtered view and the selection *)


Lemma eval_get_filtered_tasks s :
  eval get_filtered_tasks s
  = filtered_view (heap s) (tasks s) (search_filter s).
Proof. unfold eval. by rewrite get_filtered_tasks_view. Qed.

Lemma st_ABC_refs_valid : refs_valid st_ABC.
Proof.
  intros r Hr. apply lookup_lt_is_Some. vm_compute in Hr. vm_compute.
  repeat (apply elem_of_cons in Hr as [->|Hr]; [lia|]).
  by apply elem_of_nil in Hr.
Defined.

Lemma table_get_row_at_Ok s (k : nat) r :
  rows (task_table s) !! k = Some r →
  table_get_row_at (Z.of_nat k) s = (Ok (row_cells r), s).
Proof.
  intros Hr. unfold table_get_row_at.
  rewrite (bind_Ok get _ s s s) by reflexivity.
  pose proof (lookup_lt_Some _ _ _ Hr) as Hlt.
  replace ((0 <=? Z.of_nat k) && (Z.of_nat k <? Z.of_nat (length (rows (task_table s)))))
    with true by (symmetry; apply andb_true_iff; split; [apply Z.leb_le|apply Z.ltb_lt]; lia).
  rewrite Nat2Z.id, Hr. reflexivity.
Qed.

(** The selection is resolved by position: [update_current_task] makes
    the selection the element of the filtered view at the row of the
    cursor, or none when the view has no such row. *)
Lemma update_current_task_is_positional s (k : nat) r c cells view :
  row (cursor_coordinate (task_table s)) = Z.of_nat k →
  rows (task_table s) !! k = Some r → row_cells r = c :: cells →
  eval get_filtered_tasks s = Ok view →
  current_task (exec update_current_task s) = view !! k.
Proof.
  intros Hrow Hr Hcells Hview. unfold update_current_task.
  unfold exec at 1. rewrite (bind_Ok get _ s s s) by reflexivity.
  change (Coordinate_truthy (cursor_coordinate (task_table s))) with true.
  cbn iota. rewrite Hrow.
  match goal with |- current_task (snd ((?m ≫= ?f) s)) = _ =>
    change (current_task (exec (m ≫= f) s) = view !! k) end.
  rewrite after_bind
    by (intros _; unfold update_detail_panel; frame).
  unfold exec.
  rewrite (bind_Ok _ _ _ _ _ (table_get_row_at_Ok s k r Hr)). rewrite Hcells.
  rewrite eval_get_filtered_tasks in Hview.
  rewrite (bind_Ok get_filtered_tasks _ s view s)
    by (by rewrite get_filtered_tasks_view, Hview).
  destruct (decide (k < length view)%nat) as [Hlt|Hge].
  - replace ((0 <=? Z.of_nat k) && (Z.of_nat k <? Z.of_nat (length view)))
      with true
      by (symmetry; apply andb_true_iff; split;
          [apply Z.leb_le|apply Z.ltb_lt]; lia).
    simpl. rewrite Nat2Z.id.
    destruct (lookup_lt_is_Some_2 view k Hlt) as [x Hx].
    rewrite Hx. f_equal. by apply nth_lookup_Some with (d := 0%nat) in Hx.
  - replace ((0 <=? Z.of_nat k) && (Z.of_nat k <? Z.of_nat (length view)))
      with false
      by (symmetry; apply andb_false_iff; right; apply Z.ltb_ge; lia).
    simpl. symmetry. apply lookup_ge_None. lia.
Qed.

(** ** C9: a write that fails *)

Lemma memory_bind_cong {A B} (m : M A) (f g : A → M B) s :
  (∀ a s1, memory (exec (f a) s1) = memory (exec (g a) s1)) →
  memory (exec (m ≫= f) s) = memory (exec (m ≫= g) s).
Proof.
  intros Hfg. unfold exec, mbind, M_bind.
  destruct (m s) as [[a|e] s1]; simpl; [apply Hfg | reflexivity].
Qed.

Lemma save_tasks_keeps_memory w : keeps memory (save_tasks w).
Proof.
  intros s. pose proof (save_tasks_keeps_but_disk w s) as H.
  unfold but_disk in H. congruence.
Qed.

Lemma save_tasks_returns w s : eval (save_tasks w) s = Ok ().
Proof.
  unfold eval, save_tasks, try_except_Exception.
  match goal with |- fst (match ?b with _ => _ end) = _ =>
    destruct b as [[[]|e] s1] end; reflexivity.
Qed.


Lemma save_map_each l s :
  map_each (λ r, Task.asdict <$> deref r) l s
  = (mapR (λ r, Task.asdict <$> heap_get (heap s) r) l, s).
Proof.
  apply map_each_reader. intros r _. unfold deref, heap_get.
  unfold fmap, M_fmap, mbind, M_bind. destruct (heap s !! r); reflexivity.
Qed.

(** One [save_tasks] opens the file once and, unless the open or the
    comprehension fails, dumps once; nothing else goes out. *)
Lemma save_tasks_effects w s :
  ∃ new, effects (exec (save_tasks w) s) = effects s ++ new
         ∧ (new = [OpenForWrite] ∨ ∃ doc, new = [OpenForWrite; JsonDump doc]).
Proof.
  unfold exec, save_tasks, try_except_Exception, open_for_write, json_dump.
  destruct w as [|e|e].
  - unfold mbind at 1, M_bind at 1. simpl.
    unfold mbind at 1, M_bind at 1, get.
    unfold mbind at 1, M_bind at 1. rewrite save_map_each.
    destruct (mapR _ _) as [dicts|e]; simpl.
    + exists [OpenForWrite; JsonDump (PList dicts)]. rewrite <- app_assoc. eauto.
    + exists [OpenForWrite]. eauto.
  - simpl. exists [OpenForWrite]. eauto.
  - unfold mbind at 1, M_bind at 1. simpl.
    unfold mbind at 1, M_bind at 1, get.
    unfold mbind at 1, M_bind at 1. rewrite save_map_each.
    destruct (mapR _ _) as [dicts|e']; simpl.
    + exists [OpenForWrite; JsonDump (PList dicts)]. rewrite <- app_assoc. eauto.
    + exists [OpenForWrite]. eauto.
Qed.

Lemma action_add_task_any_outcome result now w w' s :
  memory (exec (action_add_task result now w) s)
  = memory (exec (action_add_task result now w') s).
Proof.
  destruct result as [d|]; [|reflexivity].
  by rewrite !action_add_task_memory.
Qed.

Lemma action_complete_task_any_outcome w w' s :
  memory (exec (action_complete_task w) s)
  = memory (exec (action_complete_task w') s).
Proof.
  destruct (current_task s) as [r|] eqn:Hc.
  - destruct (heap s !! r) as [task|] eqn:Hr.
    + by rewrite !(action_complete_task_memory _ s r task Hc Hr).
    + unfold exec, action_complete_task.
      rewrite !(bind_Ok get _ s s s) by reflexivity. rewrite Hc.
      assert (Hd : deref r s = (Raise KeyError, s))
        by (unfold deref; by rewrite Hr).
      by rewrite !(bind_Raise _ _ _ _ _ Hd).
  - unfold exec. by rewrite !action_complete_task_no_selection.
Qed.

Lemma action_delete_task_any_outcome w w' s :
  memory (exec (action_delete_task w) s)
  = memory (exec (action_delete_task w') s).
Proof.
  destruct (current_task s) as [c|] eqn:Hc.
  - unfold exec, action_delete_task.
    rewrite !(bind_Ok get _ s s s) by reflexivity. rewrite Hc.
    apply memory_bind_cong. intros kept s1.
    rewrite !(after_bind memory); [reflexivity | |];
      intros _; apply save_refresh_keeps_memory.
  - unfold exec. by rewrite !action_delete_task_no_selection.
Qed.

(** C9, as amended. A write failure is swallowed: [save_tasks] returns
    normally whatever the write does and changes nothing but the file; it
    opens the file once (no retry) and nothing is logged; and after each
    of the three mutations the memory (objects, collection, selection,
    search text, counter) is the same whether the write failed or not. *)
Theorem write_failure_is_swallowed (s : App) (w w' : write_outcome)
    (result : option task_data) (now : string) :
  eval (save_tasks w) s = Ok ()
  ∧ but_disk (exec (save_tasks w) s) = but_disk s
  ∧ (∃ new, effects (exec (save_tasks w) s) = effects s ++ new
            ∧ (new = [OpenForWrite]
               ∨ ∃ doc, new = [OpenForWrite; JsonDump doc]))
  ∧ logged s (exec (save_tasks w) s) = false
  ∧ memory (exec (action_add_task result now w) s)
    = memory (exec (action_add_task result now w') s)
  ∧ memory (exec (action_complete_task w) s)
    = memory (exec (action_complete_task w') s)
  ∧ memory (exec (action_delete_task w) s)
    = memory (exec (action_delete_task w') s).
Proof.
  split; [apply save_tasks_returns|].
  split; [apply save_tasks_keeps_but_disk|].
  split; [apply save_tasks_effects|].
  split.
  { destruct (save_tasks_effects w s) as (new & Hnew & Hcase).
    unfold logged. rewrite Hnew, drop_app_length.
    destruct Hcase as [->|[doc ->]]; reflexivity. }
  split; [apply action_add_task_any_outcome|].
  split; [apply action_complete_task_any_outcome
         |apply action_delete_task_any_outcome].
Qed.

(** C9 as stated fails on "logged": in the sample session a save whose
    open fails returns normally, and the only call it makes to the outside
    is the open itself; no message is logged. *)
Lemma swallowed_failure_is_not_logged :
  let s' := exec (save_tasks (OpenFails OSError)) st_ABC in
  eval (save_tasks (OpenFails OSError)) st_ABC = Ok ()
  ∧ drop (length (effects st_ABC)) (effects s') = [OpenForWrite]
  ∧ logged st_ABC s' = false
  ∧ logged st_ABC s' ≠ true.
Proof. vm_compute. repeat split; discriminate. Qed.

(** ** Loading *)

Lemma load_tasks_absent clock s :
  tasks_file s = None → load_tasks clock s = (Ok (), s).
Proof.
  intros H. unfold load_tasks.
  rewrite (bind_Ok get _ s s s) by reflexivity. rewrite H. reflexivity.
Qed.

Lemma alloc_all_spec objs s :
  alloc_all objs s
  = (Ok (seq (length (heap s)) (length objs)), with_heap (heap s ++ objs) s).
Proof.
  revert s. induction objs as [|x objs IH]; intros s; simpl.
  - rewrite app_nil_r. destruct s; reflexivity.
  - unfold mbind at 1, M_bind at 1, alloc.
    unfold mbind at 1, M_bind at 1. rewrite IH. simpl.
    rewrite length_app, <- app_assoc. simpl.
    replace (length (heap s) + 1)%nat with (S (length (heap s))) by lia.
    reflexivity.
Qed.

Lemma mapR_heap_seq (f : Task.t → result Z) (pre objs post : list Task.t) :
  mapR (λ r, task ← heap_get (pre ++ objs ++ post) r; f task)
       (seq (length pre) (length objs))
  = mapR f objs.
Proof.
  revert pre. induction objs as [|x objs IH]; intros pre; [reflexivity|].
  cbn [length seq mapR].
  assert (Hx : heap_get (pre ++ (x :: objs) ++ post) (length pre) = Ok x).
  { unfold heap_get. simpl. by rewrite list_lookup_middle. }
  rewrite Hx. cbn [mbind result_bind].
  specialize (IH (pre ++ [x])). rewrite length_app in IH. simpl in IH.
  replace (length pre + 1)%nat with (S (length pre)) in IH by lia.
  rewrite <- app_assoc in IH. simpl in IH. simpl. rewrite IH. reflexivity.
Qed.

Lemma load_tasks_document clock s data records objs :
  tasks_file s = Some (FileJson data) →
  Py.iter data = Ok records →
  mapR_from (λ i task, Task.of_value (clock i) task) 0 records = Ok objs →
  load_tasks clock s =
  match objs with
  | [] => (Ok (), loaded objs s)
  | _ :: _ =>
      match mapR (λ task, Py.int (Task.id task)) objs with
      | Ok ids =>
          match Py.max ids with
          | Ok m => (Ok (), with_task_counter (m + 1) (loaded objs s))
          | Raise e =>
              if load_catches e
              then (Ok (), with_tasks [] (loaded objs s))
              else (Raise e, loaded objs s)
          end
      | Raise e =>
          if load_catches e
          then (Ok (), with_tasks [] (loaded objs s))
          else (Raise e, loaded objs s)
      end
  end.
Proof.
  intros Hf Hiter Hobjs. unfold load_tasks.
  rewrite (bind_Ok get _ s s s) by reflexivity. rewrite Hf.
  unfold try_except, json_load.
  unfold mbind at 1, M_bind at 1. 
  unfold mbind at 1, M_bind at 1. simpl.
  unfold mbind at 1, M_bind at 1. unfold lift at 1. rewrite Hiter.
  unfold mbind at 1, M_bind at 1. unfold lift at 1. rewrite Hobjs.
  unfold mbind at 1, M_bind at 1. rewrite alloc_all_spec.
  unfold mbind at 1, M_bind at 1. simpl.
  fold (loaded objs s).
  destruct objs as [|x objs']; [reflexivity|].
  cbn [length seq].
  unfold mbind at 1, M_bind at 1, get.
  unfold mbind at 1, M_bind at 1.
  rewrite (map_each_reader _
             (λ r, task ← heap_get (heap (loaded (x :: objs') s)) r;
                   Py.int (Task.id task))); cycle 1.
  { intros r _. unfold deref, heap_get, mbind at 1, M_bind at 1.
    destruct (heap (loaded (x :: objs') s) !! r); reflexivity. }
  change (tasks (loaded (x :: objs') s))
    with (seq (length (heap s)) (length (x :: objs'))).
  change (heap (loaded (x :: objs') s)) with (heap s ++ (x :: objs')).
  pose proof (mapR_heap_seq (λ task, Py.int (Task.id task)) (heap s)
                (x :: objs') []) as E.
  rewrite app_nil_r in E. rewrite E. clear E.
  destruct (mapR _ (x :: objs')) as [ids|e] eqn:Hids; [|reflexivity].
  unfold mbind at 1, M_bind at 1, lift.
  destruct (Py.max ids); reflexivity.
Qed.

Lemma max_spec l m :
  Py.max l = Ok m → m ∈ l ∧ ∀ x, x ∈ l → x ≤ m.
Proof.
  destruct l as [|x l]; [discriminate|]. simpl. intros H. injection H as <-.
  revert x. induction l as [|y l IH]; intros x; simpl.
  - split; [left|]. intros z Hz. apply list_elem_of_singleton in Hz. lia.
  - destruct (IH (Z.max x y)) as [Hin Hle]. split.
    + apply elem_of_cons in Hin as [Heq|Hin]; [|by do 2 right].
      rewrite Heq. destruct (Z.max_spec x y) as [[_ ->]|[_ ->]];
        [right; left | left].
    + intros z Hz. apply elem_of_cons in Hz as [->|Hz].
      * specialize (Hle (Z.max x y) ltac:(left)). lia.
      * apply elem_of_cons in Hz as [->|Hz].
        -- specialize (Hle (Z.max x y) ltac:(left)). lia.
        -- apply Hle. by right.
Qed.


Lemma load_tasks_file_raises clock s e :
  tasks_file s = Some (FileRaises e) →
  load_tasks clock s =
  if load_catches e then (Ok (), with_tasks [] (emit OpenForRead s))
  else (Raise e, emit OpenForRead s).
Proof.
  intros Hf. unfold load_tasks.
  rewrite (bind_Ok get _ s s s) by reflexivity. rewrite Hf.
  unfold try_except, json_load.
  unfold mbind at 1, M_bind at 1.
  unfold mbind at 1, M_bind at 1. simpl. reflexivity.
Qed.

Lemma load_tasks_construct_fails clock s data e :
  tasks_file s = Some (FileJson data) →
  (records ← Py.iter data;
   mapR_from (λ i task, Task.of_value (clock i) task) 0 records) = Raise e →
  load_tasks clock s =
  if load_catches e then (Ok (), with_tasks [] (emit OpenForRead s))
  else (Raise e, emit OpenForRead s).
Proof.
  intros Hf He. unfold load_tasks.
  rewrite (bind_Ok get _ s s s) by reflexivity. rewrite Hf.
  unfold try_except, json_load.
  unfold mbind at 1, M_bind at 1.
  unfold mbind at 1, M_bind at 1. simpl.
  unfold mbind at 1, M_bind at 1. unfold lift at 1.
  destruct (Py.iter data) as [records|e']; simpl in He.
  - unfold mbind at 1, M_bind at 1. unfold lift at 1. rewrite He. reflexivity.
  - injection He as ->. reflexivity.
Qed.

(** The constructor refuses a record without a title. *)
Lemma Task_init_missing_title now d :
  Py.assoc "title" d = None → Task.init now d = Raise TypeError.
Proof.
  intros H. unfold Task.init. rewrite H.
  destruct (forallb _ d); [destruct (Py.assoc "id" d)|]; reflexivity.
Qed.

Lemma load_tasks_missing_title clock s d rest :
  tasks_file s = Some (FileJson (PList (PDict d :: rest))) →
  Py.assoc "title" d = None →
  eval (load_tasks clock) s = Raise TypeError.
Proof.
  intros Hf Ht. unfold eval.
  rewrite (load_tasks_construct_fails clock s _ TypeError Hf); [reflexivity|].
  simpl. rewrite (Task_init_missing_title _ _ Ht). reflexivity.
Qed.

Lemma documented_record_init now v :
  documented_record v = true →
  ∃ x, Task.of_value now v = Ok x ∧ documented_task x = true
       ∧ v = Task.asdict x.
Proof.
  destruct v as [| | | | | |d]; try discriminate.
  destruct d as [|[k1 i] d]; try discriminate.
  destruct d as [|[k2 ti] d]; try discriminate.
  destruct d as [|[k3 c] d]; try discriminate.
  destruct d as [|[k4 p] d]; try discriminate.
  destruct d as [|[k5 tg] d]; try discriminate.
  destruct d as [|[k6 ca] d]; try discriminate.
  destruct d; [|discriminate]. simpl.
  rewrite !andb_true_iff. intros [[[[[[H1 H2] H3] H4] H5] H6] Hd].
  apply String.eqb_eq in H1, H2, H3, H4, H5, H6. subst.
  exists (Task.mk i ti c p tg ca). split; [|split; [exact Hd|reflexivity]].
  unfold documented_task in Hd. simpl in Hd.
  destruct i; try discriminate. destruct ti; try discriminate.
  destruct c; try discriminate. destruct p; try discriminate.
  destruct tg; try discriminate. destruct ca; try discriminate.
  reflexivity.
Qed.

Lemma mapR_from_documented clock records i :
  Forall (λ v, documented_record v = true) records →
  ∃ objs, mapR_from (λ i task, Task.of_value (clock i) task) i records = Ok objs
          ∧ records = Task.asdict <$> objs
          ∧ Forall (λ x, documented_task x = true) objs.
Proof.
  intros H. revert i. induction H as [|v records Hv _ IH]; intros i.
  - exists []. by repeat split.
  - destruct (documented_record_init (clock i) v Hv) as (x & Hx & Hd & ->).
    destruct (IH (S i)) as (objs & Hobjs & -> & Hall).
    exists (x :: objs). cbn [mapR_from]. rewrite Hx. cbn [mbind result_bind].
    rewrite Hobjs. repeat split. by constructor.
Qed.

Lemma documented_id x :
  documented_task x = true → ∃ i, Task.id x = PStr i.
Proof.
  unfold documented_task. destruct (Task.id x); try discriminate. eauto.
Qed.

Lemma int_ids_numeric objs :
  Forall (λ x, numeric_id x = true) objs →
  ∃ ids, mapR (λ task, Py.int (Task.id task)) objs = Ok ids
         ∧ length ids = length objs.
Proof.
  induction 1 as [|x objs Hx _ (ids & Hids & Hlen)]; [by exists []|].
  unfold numeric_id in Hx. simpl.
  destruct (Py.int (Task.id x)) as [n|]; [|discriminate].
  exists (n :: ids). simpl. rewrite Hids. simpl. split; [done|]. by rewrite Hlen.
Qed.

Lemma int_ids_not_numeric objs :
  Forall (λ x, documented_task x = true) objs →
  Exists (λ x, numeric_id x = false) objs →
  mapR (λ task, Py.int (Task.id task)) objs = Raise ValueError.
Proof.
  induction 1 as [|x objs Hx _ IH]; intros Hex; [by inversion Hex|].
  destruct (documented_id x Hx) as [i Hi]. simpl.
  destruct (Py.int (Task.id x)) as [n|e] eqn:Hn; simpl.
  - rewrite IH; [reflexivity|].
    inversion Hex as [? ? Hbad|]; subst; [|assumption].
    unfold numeric_id in Hbad. by rewrite Hn in Hbad.
  - rewrite Hi in Hn. simpl in Hn. destruct (Str.to_int i); congruence.
Qed.

(** ** C10: an id that is not a number *)

(** C10. A file whose records are all typed as documented, one of them
    with an id string that [int] does not accept: [load_tasks] returns
    normally, the collection is empty and the counter is left as it was. *)
Theorem load_discards_all_on_non_numeric_id (s : App) (clock : nat → string)
    (records : list pyval) :
  tasks_file s = Some (FileJson (PList records)) →
  Forall (λ v, documented_record v = true) records →
  Exists (λ v, ∃ d i, v = PDict d ∧ Py.assoc "id" d = Some (PStr i)
                      ∧ Str.to_int i = None) records →
  eval (load_tasks clock) s = Ok ()
  ∧ tasks (exec (load_tasks clock) s) = []
  ∧ task_counter (exec (load_tasks clock) s) = task_counter s.
Proof.
  intros Hf Hdoc Hbad.
  destruct (mapR_from_documented clock records 0%nat Hdoc)
    as (objs & Hobjs & -> & Hall).
  assert (Hex : Exists (λ x, numeric_id x = false) objs).
  { apply Exists_exists in Hbad as (v & Hv & d & i & Hd & Hi & Hn).
    apply list_elem_of_fmap in Hv as (x & -> & Hx).
    apply Exists_exists. exists x. split; [exact Hx|].
    unfold Task.asdict in Hd.
    injection Hd as <-. simpl in Hi. injection Hi as Hi.
    unfold numeric_id. rewrite Hi. simpl. by rewrite Hn. }
  pose proof (load_tasks_document clock s _ _ objs Hf eq_refl Hobjs) as Hl.
  rewrite (int_ids_not_numeric objs Hall Hex) in Hl.
  destruct objs as [|x objs']; [by inversion Hex|].
  unfold eval, exec. rewrite Hl. simpl. done.
Qed.

Lemma load_discards_all_on_non_numeric_id_witness :
  tasks (exec (load_tasks sample_clock) (init file_non_numeric_id)) = [].
Proof.
  refine (proj1 (proj2 (load_discards_all_on_non_numeric_id
            (init file_non_numeric_id) sample_clock
            [sample_record "0" "normal"; sample_record "a1" "normal"]
            eq_refl _ _))).
  - repeat constructor.
  - apply Exists_cons_tl, Exists_cons_hd.
    eexists _, "a1"%string. repeat split.
Defined.

(** ** C6: save, then load *)

Lemma collection_values s vals :
  collection s = Some <$> vals →
  mapR (λ r, Task.asdict <$> heap_get (heap s) r) (tasks s)
  = Ok (Task.asdict <$> vals).
Proof.
  unfold collection. revert vals.
  induction (tasks s) as [|r l IH]; intros [|x vals] H; try discriminate.
  - reflexivity.
  - simpl in H. injection H as Hr Hl. cbn [mapR].
    replace (heap_get (heap s) r) with (Ok x)
      by (unfold heap_get; by rewrite Hr).
    rewrite (IH vals Hl). reflexivity.
Qed.

Lemma save_tasks_file s vals :
  collection s = Some <$> vals →
  tasks_file (exec (save_tasks WriteOk) s)
  = Some (FileJson (PList (Task.asdict <$> vals))).
Proof.
  intros Hc.
  unfold exec, save_tasks, try_except_Exception, open_for_write, json_dump.
  unfold mbind at 1, M_bind at 1. simpl.
  unfold mbind at 1, M_bind at 1, get.
  unfold mbind at 1, M_bind at 1. rewrite save_map_each.
  change (heap (with_tasks_file (Some (FileRaises JSONDecodeError))
                  (emit OpenForWrite s))) with (heap s).
  change (tasks (with_tasks_file (Some (FileRaises JSONDecodeError))
                   (emit OpenForWrite s))) with (tasks s).
  rewrite (collection_values s vals Hc). reflexivity.
Qed.

Lemma collection_loaded objs s :
  collection (loaded objs s) = Some <$> objs.
Proof.
  unfold collection, loaded. simpl.
  apply list_eq. intros i. rewrite !list_lookup_fmap.
  destruct (decide (i < length objs)%nat) as [Hi|Hi].
  - rewrite lookup_seq_lt by done. simpl.
    rewrite lookup_app_r by lia.
    replace (length (heap s) + i - length (heap s))%nat with i by lia.
    destruct (objs !! i) eqn:E; [done|].
    apply lookup_ge_None in E. lia.
  - rewrite lookup_seq_ge by lia. rewrite lookup_ge_None_2 by lia. done.
Qed.

Lemma well_formed_documented x :
  well_formed_task x = true → documented_task x = true ∧ numeric_id x = true.
Proof. unfold well_formed_task. by rewrite andb_true_iff. Qed.

Lemma documented_asdict x :
  documented_task x = true → documented_record (Task.asdict x) = true.
Proof. intros H. simpl. by destruct x. Qed.

Lemma asdict_inj x y : Task.asdict x = Task.asdict y → x = y.
Proof. destruct x, y. simpl. by intros [= -> -> -> -> -> ->]. Qed.

(** C6. Round trip. [vals] are the tasks of the collection of [s], all
    well formed; [s0] is any state of the app whose storage file is the one
    [save_tasks] wrote from [s] (a restarted app, for one). Loading in
    [s0] returns normally and the collection is [vals] again: the same
    field values, in the same order. *)
Theorem save_load_round_trip (s s0 : App) (clock : nat → string)
    (vals : list Task.t) :
  collection s = Some <$> vals →
  Forall (λ x, well_formed_task x = true) vals →
  tasks_file s0 = tasks_file (exec (save_tasks WriteOk) s) →
  eval (load_tasks clock) s0 = Ok ()
  ∧ collection (exec (load_tasks clock) s0) = Some <$> vals.
Proof.
  intros Hc Hwf Hf. rewrite (save_tasks_file s vals Hc) in Hf.
  assert (Hdoc : Forall (λ v, documented_record v = true) (Task.asdict <$> vals)).
  { apply Forall_fmap. eapply Forall_impl; [exact Hwf|].
    intros x Hx. apply documented_asdict. by apply well_formed_documented. }
  destruct (mapR_from_documented clock _ 0%nat Hdoc) as (objs & Hobjs & He & _).
  assert (objs = vals) as ->.
  { clear -He. revert objs He. induction vals as [|x vals IH];
      intros [|y objs] He; try discriminate; [done|].
    rewrite !fmap_cons in He.
    assert (Hxy : Task.asdict x = Task.asdict y) by congruence.
    assert (Hr : Task.asdict <$> vals = Task.asdict <$> objs) by congruence.
    f_equal; [symmetry; by apply asdict_inj | by apply IH]. }
  pose proof (load_tasks_document clock s0 _ _ vals Hf eq_refl Hobjs) as Hl.
  destruct (int_ids_numeric vals) as (ids & Hids & Hlen).
  { eapply Forall_impl; [exact Hwf|]. intros x Hx.
    by apply well_formed_documented. }
  rewrite Hids in Hl. unfold eval, exec. rewrite Hl.
  destruct vals as [|x vals']; [split; [done|apply collection_loaded]|].
  destruct ids as [|n ids']; [discriminate|]. simpl Py.max. cbn iota.
  split; [done|]. apply (collection_loaded (x :: vals') s0).
Qed.

Lemma save_load_round_trip_witness :
  collection (exec (load_tasks sample_clock)
                (init (tasks_file (exec (save_tasks WriteOk) st_ABC))))
  = [Some task_A; Some task_B; Some task_C].
Proof.
  refine (proj2 (save_load_round_trip st_ABC
            (init (tasks_file (exec (save_tasks WriteOk) st_ABC)))
            sample_clock [task_A; task_B; task_C] eq_refl _ eq_refl)).
  repeat constructor.
Defined.

(** ** C5: priorities outside low, normal, high *)

Lemma existsb_eqb_In (p : string) (l : list string) :
  existsb (String.eqb p) l = true ↔ In p l.
Proof.
  rewrite existsb_exists. split.
  - intros (x & Hx & He). apply String.eqb_eq in He. by subst.
  - intros H. exists p. split; [done|apply String.eqb_refl].
Qed.

Lemma on_button_pressed_priority title_value priority_value tags_value d :
  on_button_pressed "add-button" title_value priority_value tags_value
  = Dismiss (Some d) →
  In (td_priority d) ["low"; "normal"; "high"]%string
  ∧ (¬ In (Str.strip priority_value) ["low"; "normal"; "high"]%string →
     td_priority d = "normal"%string).
Proof.
  unfold on_button_pressed. simpl String.eqb. cbn iota.
  destruct (negb (Str.is_empty (Str.strip title_value))); [|discriminate].
  intros [= <-]. simpl td_priority.
  destruct (Str.is_empty (Str.strip priority_value)) eqn:He.
  - simpl. split; [tauto|done].
  - change ((Str.strip priority_value =? "low")%string
            || ((Str.strip priority_value =? "normal")%string
                || ((Str.strip priority_value =? "high")%string || false)))
      with (existsb (String.eqb (Str.strip priority_value))
                    ["low"; "normal"; "high"]%string).
    destruct (existsb (String.eqb (Str.strip priority_value)) _) eqn:Hex.
    + apply existsb_eqb_In in Hex. split; [exact Hex|]. by intros [].
    + split; [simpl; tauto | done].
Qed.

Lemma Task_init_priority now d x :
  Task.init now d = Ok x →
  Task.priority x = default (PStr "normal") (Py.assoc "priority" d).
Proof.
  unfold Task.init. destruct (forallb _ d); [|discriminate].
  destruct (Py.assoc "id" d); [|discriminate].
  destruct (Py.assoc "title" d); [|discriminate].
  by intros [= <-].
Qed.

Lemma mapR_from_Forall2 {A B} (f : nat → A → result B) i l objs :
  mapR_from f i l = Ok objs →
  Forall2 (λ v x, ∃ j, f j v = Ok x) l objs.
Proof.
  revert i objs. induction l as [|v l IH]; intros i objs H; simpl in H.
  - injection H as <-. constructor.
  - destruct (f i v) as [x|] eqn:Hx; [|discriminate]. simpl in H.
    destruct (mapR_from f (S i) l) as [xs|] eqn:Hxs; [|discriminate].
    injection H as <-. constructor; [eauto|]. eapply IH. exact Hxs.
Qed.

(** C5, as amended. On a create request whose priority text, stripped, is
    none of low, normal, high, the task that is stored has priority
    normal. A record read from the storage file is stored with the
    priority the record gives (normal when it gives none): whenever
    [load_tasks] returns normally, either the whole file was discarded or
    every loaded task has exactly its record's priority. *)
Theorem priority_coerced_on_create_not_on_load :
  (∀ (s : App) title_value priority_value tags_value d now w,
     on_button_pressed "add-button" title_value priority_value tags_value
     = Dismiss (Some d) →
     ¬ In (Str.strip priority_value) ["low"; "normal"; "high"]%string →
     let s' := exec (action_add_task (Some d) now w) s in
     ∃ new, heap s' = heap s ++ [new]
            ∧ tasks s' = tasks s ++ [length (heap s)]
            ∧ Task.priority new = PStr "normal")
  ∧ (∀ (s : App) clock records,
       tasks_file s = Some (FileJson (PList records)) →
       eval (load_tasks clock) s = Ok () →
       let s' := exec (load_tasks clock) s in
       tasks s' = []
       ∨ Forall2 (λ v ox, ∃ d x, v = PDict d ∧ ox = Some x
                    ∧ Task.priority x
                      = default (PStr "normal") (Py.assoc "priority" d))
                 records (collection s')).
Proof.
  split.
  - intros s tv pv gv d now w Hd Hp s'.
    pose proof (action_add_task_memory w s d now) as Hm.
    fold s' in Hm. unfold memory in Hm. injection Hm as Hh Ht _ _ _.
    exists (created_task (task_counter s) d now).
    split; [exact Hh|]. split; [exact Ht|]. simpl.
    destruct (on_button_pressed_priority _ _ _ _ Hd) as [_ ->]; done.
  - intros s clock records Hf Hok s'. subst s'. unfold eval, exec in *.
    destruct (mapR_from (λ i task, Task.of_value (clock i) task) 0 records)
      as [objs|e] eqn:Hobjs.
    + pose proof (load_tasks_document clock s _ _ objs Hf eq_refl Hobjs) as Hl.
      assert (Hgood : collection (loaded objs s) = Some <$> objs →
                Forall2 (λ v ox, ∃ d x, v = PDict d ∧ ox = Some x
                    ∧ Task.priority x
                      = default (PStr "normal") (Py.assoc "priority" d))
                 records (collection (loaded objs s))).
      { intros ->. apply mapR_from_Forall2 in Hobjs.
        apply Forall2_fmap_r. eapply Forall2_impl; [exact Hobjs|].
        intros v x [j Hj]. destruct v; try discriminate.
        exists d, x. repeat split. eapply Task_init_priority. exact Hj. }
      destruct objs as [|x objs']; rewrite Hl in *.
      { by left. }
      destruct (mapR _ (x :: objs')) as [ids|e].
      * destruct (Py.max ids) as [m|e].
        -- right. apply Hgood, collection_loaded.
        -- destruct (load_catches e); [by left | discriminate].
      * destruct (load_catches e); [by left | discriminate].
    + assert (Hl : load_tasks clock s =
                     if load_catches e
                     then (Ok (), with_tasks [] (emit OpenForRead s))
                     else (Raise e, emit OpenForRead s)).
      { apply (load_tasks_construct_fails clock s (PList records) e Hf).
        exact Hobjs. }
      rewrite Hl in *.
      destruct (load_catches e); [by left | discriminate].
Qed.

Lemma priority_coerced_on_create_not_on_load_witness :
  ∃ new, heap (exec (action_add_task
                       (Some (mkData "Buy milk" "normal" [])) "now" WriteOk)
                 st_ABC)
         = heap st_ABC ++ [new]
         ∧ Task.priority new = PStr "normal".
Proof.
  destruct (proj1 priority_coerced_on_create_not_on_load st_ABC
              "Buy milk" " urgent " "" (mkData "Buy milk" "normal" [])
              "now" WriteOk eq_refl) as (new & Hh & _ & Hp).
  - vm_compute. intros [H|[H|[H|[]]]]; discriminate.
  - exists new. split; assumption.
Defined.

(** C5 as stated fails on the load path: a record with priority urgent is
    loaded with priority urgent, not normal. *)
Lemma priority_kept_on_load_counterexample :
  let s := exec (load_tasks sample_clock) (init file_odd_priority) in
  eval (load_tasks sample_clock) (init file_odd_priority) = Ok ()
  ∧ ∃ x, collection s = [Some x]
         ∧ Task.priority x = PStr "urgent"
         ∧ Task.priority x ≠ PStr "normal".
Proof.
  split; [reflexivity|].
  eexists. split; [reflexivity|]. split; [reflexivity|discriminate].
Qed.

(** ** C2: what load raises *)

(** C2 fails on the code: a record without a title makes the constructor
    raise [TypeError], which the [except] clause of [load_tasks] (naming
    [JSONDecodeError], [KeyError] and [ValueError]) does not catch. *)
Theorem load_raises_on_missing_field :
  eval (load_tasks sample_clock) (init file_missing_title) = Raise TypeError
  ∧ load_catches TypeError = false.
Proof. split; reflexivity. Qed.

(** The two other cases of C2 hold: a missing file leaves the (empty)
    collection alone, and a file that does not parse empties it. *)
Lemma load_missing_file clock :
  load_tasks clock (init None) = (Ok (), init None).
Proof. reflexivity. Qed.

Lemma load_invalid_json clock s e :
  tasks_file s = Some (FileRaises e) →
  isinstance e ValueError = true →
  eval (load_tasks clock) s = Ok () ∧ tasks (exec (load_tasks clock) s) = [].
Proof.
  intros Hf He. unfold eval, exec. rewrite (load_tasks_file_raises _ _ _ Hf).
  unfold load_catches. simpl. rewrite He, !orb_true_r. done.
Qed.

(** ** C4: the ids of created tasks *)

(** [int(str(n))] is [n]. *)
Lemma strip_no_int_space s :
  no_int_space s = true →
  Str.rstrip_by Str.is_int_space (Str.lstrip_by Str.is_int_space s) = s.
Proof.
  intros H.
  assert (Hl : Str.lstrip_by Str.is_int_space s = s).
  { destruct s as [|c r]; [done|]. simpl in *.
    apply andb_true_iff in H as [Hc _].
    apply negb_true_iff in Hc. unfold no_int_space in *. by rewrite Hc. }
  rewrite Hl. clear Hl. unfold no_int_space in H.
  induction s as [|c r IH]; simpl in *; [done|].
  apply andb_true_iff in H as [Hc Hr]. apply negb_true_iff in Hc.
  rewrite Hc, IH by done. reflexivity.
Qed.

Lemma uint_no_int_space d : no_int_space (NilEmpty.string_of_uint d) = true.
Proof. unfold no_int_space. induction d; simpl; done. Qed.

Lemma digits_of_uint d b :
  (d = Decimal.Nil → b = true) →
  Str.digits b (NilEmpty.string_of_uint d) = Some d.
Proof.
  revert b. induction d; intros b Hb; simpl;
    try (rewrite IHd by done; reflexivity).
  by rewrite Hb.
Qed.

Lemma to_int_of_uint d :
  Str.to_int (NilZero.string_of_uint d) = Some (Z.of_uint d).
Proof.
  destruct d; try reflexivity; unfold Str.to_int, NilZero.string_of_uint;
    rewrite strip_no_int_space by apply uint_no_int_space;
    cbn [NilEmpty.string_of_uint]; simpl Str.digits;
    rewrite digits_of_uint by done; reflexivity.
Qed.

Lemma to_int_of_int (n : Z) : Str.to_int (Str.of_int n) = Some n.
Proof.
  unfold Str.of_int. rewrite <- (DecimalZ.of_to n) at 2.
  destruct (Z.to_int n) as [d|d]; simpl Z.of_int.
  - apply to_int_of_uint.
  - unfold NilZero.string_of_int, Str.to_int.
    rewrite strip_no_int_space; cycle 1.
    { unfold no_int_space. simpl.
      destruct d; try reflexivity; apply uint_no_int_space. }
    cbn match.
    assert (H : Str.digits false (NilZero.string_of_uint d)
                = Some (match d with Decimal.Nil => Decimal.D0 Decimal.Nil | _ => d end)).
    { destruct d; try reflexivity; unfold NilZero.string_of_uint;
        cbn [NilEmpty.string_of_uint]; simpl Str.digits;
        rewrite digits_of_uint by done; reflexivity. }
    rewrite H. destruct d; reflexivity.
Qed.

Lemma int_of_created_id (n : Z) : Py.int (PStr (Str.of_int n)) = Ok n.
Proof. simpl. by rewrite to_int_of_int. Qed.

Lemma of_int_inj (n m : Z) : Str.of_int n = Str.of_int m → n = m.
Proof.
  intros H. apply (f_equal Str.to_int) in H.
  rewrite !to_int_of_int in H. congruence.
Qed.

Lemma action_delete_task_keeps_ids w : keeps ids_and_counter (action_delete_task w).
Proof.
  unfold action_delete_task, save_tasks, open_for_write, json_dump,
    refresh_table, table_clear, get_filtered_tasks, table_add_row.
  frame.
Qed.

Lemma refresh_table_keeps_ids : keeps ids_and_counter refresh_table.
Proof.
  unfold refresh_table, table_clear, get_filtered_tasks, table_add_row. frame.
Qed.

Lemma update_current_task_keeps_ids : keeps ids_and_counter update_current_task.
Proof.
  unfold update_current_task, table_get_row_at, get_filtered_tasks,
    update_detail_panel.
  frame.
Qed.

Lemma ids_of_memory s s' : memory s = memory s' → ids_and_counter s = ids_and_counter s'.
Proof. unfold memory, ids_and_counter. congruence. Qed.

Lemma action_complete_task_keeps_ids w : keeps ids_and_counter (action_complete_task w).
Proof.
  intros s. change (snd (action_complete_task w s)) with (exec (action_complete_task w) s).
  destruct (current_task s) as [r|] eqn:Hc.
  - destruct (heap s !! r) as [task|] eqn:Hr.
    + pose proof (action_complete_task_memory w s r task Hc Hr) as Hm.
      unfold memory in Hm. injection Hm as Hh _ _ _ Hn.
      unfold ids_and_counter. rewrite Hh, Hn. f_equal.
      rewrite list_fmap_insert. apply list_insert_id.
      rewrite list_lookup_fmap, Hr. reflexivity.
    + unfold exec, action_complete_task.
      rewrite !(bind_Ok get _ s s s) by reflexivity. rewrite Hc.
      assert (Hd : deref r s = (Raise KeyError, s))
        by (unfold deref; by rewrite Hr).
      by rewrite !(bind_Raise _ _ _ _ _ Hd).
  - unfold exec. by rewrite !action_complete_task_no_selection.
Qed.

Lemma created_between_refl s : created_between s s 0.
Proof.
  unfold created_between, fresh_ids. simpl. rewrite app_nil_r. split; [done|lia].
Qed.

Lemma created_between_same s s' :
  ids_and_counter s' = ids_and_counter s → created_between s s' 0.
Proof.
  unfold ids_and_counter. intros [= Hh Hn]. unfold created_between, fresh_ids.
  simpl. rewrite app_nil_r. split; [done|lia].
Qed.

Lemma fresh_ids_app n k1 k2 :
  fresh_ids n (k1 + k2) = fresh_ids n k1 ++ fresh_ids (n + Z.of_nat k1) k2.
Proof.
  unfold fresh_ids. rewrite seq_app, fmap_app. f_equal.
  change (0 + k1)%nat with k1.
  replace (seq k1 k2) with (seq (k1 + 0) k2) by (f_equal; lia).
  rewrite <- (fmap_add_seq k1 0 k2), <- list_fmap_compose.
  apply list_fmap_ext. intros _ i _. simpl. do 2 f_equal. lia.
Qed.

Lemma created_between_trans s1 s2 s3 k1 k2 :
  created_between s1 s2 k1 → created_between s2 s3 k2 →
  created_between s1 s3 (k1 + k2).
Proof.
  intros [Hh1 Hn1] [Hh2 Hn2]. split.
  - rewrite Hh2, Hh1, Hn1, fresh_ids_app, app_assoc. reflexivity.
  - rewrite Hn2, Hn1. lia.
Qed.

Lemma handle_creates ev s :
  ∃ k, created_between s (exec (handle ev) s) k.
Proof.
  destruct ev as [result now w|w|w|input_id value| |cursor_row]; simpl.
  - destruct result as [d|].
    + exists 1%nat. pose proof (action_add_task_memory w s d now) as Hm.
      set (s' := exec (action_add_task (Some d) now w) s) in *.
      unfold memory in Hm. injection Hm as Hh _ _ _ Hn.
      split; [|rewrite Hn; lia]. rewrite Hh, fmap_app. simpl.
      unfold fresh_ids. simpl. by rewrite Z.add_0_r.
    + exists 0%nat. apply created_between_refl.
  - exists 0%nat. apply created_between_same, action_complete_task_keeps_ids.
  - exists 0%nat. apply created_between_same, action_delete_task_keeps_ids.
  - exists 0%nat. apply created_between_same.
    unfold on_input_changed. destruct (String.eqb _ _); [|reflexivity].
    apply keeps_bind; [by apply keeps_modify | intros _; apply refresh_table_keeps_ids].
  - exists 0%nat. apply created_between_same.
    apply keeps_bind; [by apply keeps_modify | intros _; apply refresh_table_keeps_ids].
  - exists 0%nat. apply created_between_same.
    apply keeps_bind; [by apply keeps_modify | intros _; apply update_current_task_keeps_ids].
Qed.

Lemma run_creates evs s :
  ∃ k, created_between s (exec (run evs) s) k.
Proof.
  revert s. induction evs as [|ev evs IH]; intros s; simpl.
  - exists 0%nat. apply created_between_refl.
  - destruct (handle_creates ev s) as [k1 H1].
    unfold exec, mbind, M_bind in *.
    destruct (handle ev s) as [[[]|e] s1]; simpl in *.
    + destruct (IH s1) as [k2 H2]. exists (k1 + k2)%nat.
      eapply created_between_trans; eassumption.
    + eauto.
Qed.

Lemma session_creates clock evs s :
  ∃ k, created_between (exec (load_tasks clock) s) (exec (session clock evs) s) k.
Proof.
  unfold session.
  assert (Hm : memory (exec (on_mount clock) s) = memory (exec (load_tasks clock) s)).
  { unfold on_mount. apply (after_bind memory). intros _.
    apply keeps_bind; [|intros _; apply refresh_table_keeps_memory].
    unfold setup_table, table_add_columns. by apply keeps_modify. }
  apply ids_of_memory in Hm.
  unfold exec at 2. unfold mbind, M_bind.
  destruct (on_mount clock s) as [[[]|e] s1] eqn:Hs1; simpl.
  - destruct (run_creates evs s1) as [k Hk]. exists k.
    unfold exec in Hm at 1. rewrite Hs1 in Hm. simpl in Hm.
    unfold created_between, ids_and_counter in *.
    injection Hm as Hh Hn. rewrite <- Hh, <- Hn. exact Hk.
  - exists 0%nat. apply created_between_same.
    unfold exec in Hm at 1. rewrite Hs1 in Hm. exact Hm.
Qed.

Lemma fresh_ids_lookup n k i v :
  fresh_ids n k !! i = Some v → v = PStr (Str.of_int (n + Z.of_nat i)).
Proof.
  unfold fresh_ids. rewrite list_lookup_fmap. intros H.
  destruct (seq 0 k !! i) as [j|] eqn:Hj; [|discriminate].
  apply lookup_seq in Hj as [-> _]. simpl in H. by injection H as <-.
Qed.

Lemma mapR_Forall2 {A B} (f : A → result B) l ys :
  mapR f l = Ok ys → Forall2 (λ x y, f x = Ok y) l ys.
Proof.
  revert ys. induction l as [|x l IH]; intros ys H; simpl in H.
  - injection H as <-. constructor.
  - destruct (f x) as [y|] eqn:Hx; [|discriminate]. simpl in H.
    destruct (mapR f l) as [ys'|] eqn:Hl; [|discriminate].
    injection H as <-. constructor; [done | by apply IH].
Qed.

Lemma load_tasks_counter clock s :
  tasks s = [] →
  eval (load_tasks clock) s = Ok () →
  let s1 := exec (load_tasks clock) s in
  (tasks s1 = [] ∧ task_counter s1 = task_counter s)
  ∨ (∃ ids, tasks s1 ≠ []
            ∧ Forall2 (λ ox n, ∃ x, ox = Some x ∧ Py.int (Task.id x) = Ok n)
                      (collection s1) ids
            ∧ (task_counter s1 - 1) ∈ ids
            ∧ ∀ n, n ∈ ids → n < task_counter s1).
Proof.
  intros Hts Hok s1. subst s1. unfold eval, exec in *.
  destruct (tasks_file s) as [[e|data]|] eqn:Hf.
  - rewrite (load_tasks_file_raises _ _ _ Hf) in *.
    destruct (load_catches e); [by left | discriminate].
  - destruct (records ← Py.iter data;
              mapR_from (λ i task, Task.of_value (clock i) task) 0 records)
      as [objs|e] eqn:Hobjs.
    + destruct (Py.iter data) as [records|] eqn:Hit; [|discriminate].
      simpl in Hobjs.
      pose proof (load_tasks_document clock s _ _ objs Hf Hit Hobjs) as Hl.
      destruct objs as [|x objs']; rewrite Hl in *; [by left|].
      destruct (mapR _ (x :: objs')) as [ids|e] eqn:Hids.
      * destruct (Py.max ids) as [m|e] eqn:Hmax.
        -- right. exists ids. simpl. split; [done|].
           destruct (max_spec ids m Hmax) as [Hin Hle].
           split; [|split].
           ++ change (collection (with_task_counter (m + 1) (loaded (x :: objs') s)))
                with (collection (loaded (x :: objs') s)).
              rewrite collection_loaded. apply Forall2_fmap_l.
              apply mapR_Forall2 in Hids.
              eapply Forall2_impl; [exact Hids|]. simpl. eauto.
           ++ by replace (m + 1 - 1) with m by lia.
           ++ intros n Hn. specialize (Hle n Hn). lia.
        -- destruct (load_catches e); [by left | discriminate].
      * destruct (load_catches e); [by left | discriminate].
    + rewrite (load_tasks_construct_fails clock s data e Hf Hobjs) in *.
      destruct (load_catches e); [by left | discriminate].
  - rewrite (load_tasks_absent _ _ Hf). by left.
Qed.

(** C4. In one run of the app (mount, then any events), with [s1] the
    state right after [load_tasks]: any two tasks constructed after the
    load, the first before the second, have ids that read as integers, the
    first strictly below the second, and the two ids differ. And when
    [load_tasks] returned normally, either the collection is empty and the
    counter is zero, or the counter is one more than the greatest of the
    integers the ids of the loaded tasks read as. *)
Theorem ids_unique_and_increasing (disk : option file) (clock : nat → string)
    (evs : list event) :
  let s1 := exec (load_tasks clock) (init disk) in
  let s := exec (session clock evs) (init disk) in
  (∀ i j ti tj,
     (length (heap s1) ≤ i)%nat → (i < j)%nat →
     heap s !! i = Some ti → heap s !! j = Some tj →
     ∃ ni nj, Py.int (Task.id ti) = Ok ni ∧ Py.int (Task.id tj) = Ok nj
              ∧ ni < nj ∧ Task.id ti ≠ Task.id tj)
  ∧ (eval (load_tasks clock) (init disk) = Ok () →
     (tasks s1 = [] ∧ task_counter s1 = 0)
     ∨ (∃ ids, tasks s1 ≠ []
               ∧ Forall2 (λ ox n, ∃ x, ox = Some x ∧ Py.int (Task.id x) = Ok n)
                         (collection s1) ids
               ∧ (task_counter s1 - 1) ∈ ids
               ∧ ∀ n, n ∈ ids → n < task_counter s1)).
Proof.
  intros s1 s. split.
  - intros i j ti tj Hi Hij Hti Htj.
    destruct (session_creates clock evs (init disk)) as [k [Hh _]].
    fold s1 s in Hh.
    assert (Hid : ∀ p t, (length (heap s1) ≤ p)%nat → heap s !! p = Some t →
              Task.id t = PStr (Str.of_int (task_counter s1
                                            + Z.of_nat (p - length (heap s1))))).
    { intros p t Hp Ht.
      assert (Hl : (Task.id <$> heap s) !! p = Some (Task.id t))
        by (by rewrite list_lookup_fmap, Ht).
      rewrite Hh, lookup_app_r in Hl by (by rewrite length_fmap).
      rewrite length_fmap in Hl. by apply fresh_ids_lookup in Hl. }
    rewrite (Hid i ti Hi Hti), (Hid j tj ltac:(lia) Htj).
    eexists _, _. rewrite !int_of_created_id.
    split; [done|]. split; [done|]. split; [lia|].
    intros [= H]. apply of_int_inj in H. lia.
  - intros Hok. apply (load_tasks_counter clock (init disk) eq_refl Hok).
Qed.

Lemma ids_unique_and_increasing_witness :
  ∃ ni nj, Py.int (PStr "3") = Ok ni ∧ Py.int (PStr "4") = Ok nj
           ∧ ni < nj ∧ PStr "3" ≠ PStr "4".
Proof.
  pose (s1 := exec (load_tasks sample_clock) (init (tasks_file st_ABC))).
  pose (s := exec (session sample_clock sample_events)
                  (init (tasks_file st_ABC))).
  assert (H1 : (length (heap s1) ≤ 3)%nat) by (vm_compute; lia).
  assert (H2 : (3 < 4)%nat) by lia.
  assert (H3 : heap s !! 3%nat
               = Some (created_task 3 (mkData "Water plants" "low" [])
                                    "2024-05-02T08:00:00"))
    by (vm_compute; reflexivity).
  assert (H4 : heap s !! 4%nat
               = Some (created_task 4 (mkData "Pay rent" "high" ["home"%string])
                                    "2024-05-02T08:00:05"))
    by (vm_compute; reflexivity).
  exact (proj1 (ids_unique_and_increasing (tasks_file st_ABC) sample_clock
                  sample_events) 3%nat 4%nat _ _ H1 H2 H3 H4).
Defined.

(** ** The states the app reaches *)

Lemma store_ok_refs_valid s : store_ok s → refs_valid s.
Proof. intros H r Hr. destruct (H r Hr) as (x & Hx & _). eauto. Qed.

Lemma store_ok_memory s s' :
  memory s' = memory s → store_ok s → store_ok s'.
Proof.
  unfold memory, store_ok. intros [= Hh Ht _ _ _] H r Hr.
  rewrite Hh. apply H. by rewrite <- Ht.
Qed.

Lemma filter_each_subset {A} (p : A → M bool) l s kept s' :
  filter_each p l s = (Ok kept, s') → ∀ x, x ∈ kept → x ∈ l.
Proof.
  revert s kept s'. induction l as [|y l IH]; intros s kept s' H x Hx;
    simpl in H.
  - injection H as <- _. done.
  - unfold mbind at 1, M_bind at 1 in H.
    destruct (p y s) as [[b|e] s1]; [|discriminate].
    unfold mbind at 1, M_bind at 1 in H.
    destruct (filter_each p l s1) as [[ys|e] s2] eqn:Hl; [|discriminate].
    injection H as <- _. specialize (IH _ _ _ Hl).
    destruct b; [apply elem_of_cons in Hx as [->|Hx]|];
      [left | right; eauto | right; eauto].
Qed.

Lemma delete_comprehension_state (c : nat) l :
  keeps (λ s, s)
        (filter_each (λ r, task ← deref r; cur ← deref c;
                           mret (negb (Py.eq (Task.id task) (Task.id cur)))) l).
Proof. frame. Qed.

Lemma action_delete_task_store_ok w s :
  store_ok s → store_ok (exec (action_delete_task w) s).
Proof.
  intros Hok. destruct (current_task s) as [c|] eqn:Hc.
  - unfold exec, action_delete_task.
    rewrite (bind_Ok get _ s s s) by reflexivity. rewrite Hc.
    unfold mbind at 1, M_bind at 1.
    destruct (filter_each _ (tasks s) s) as [[kept|e] s1] eqn:Hf.
    + pose proof (filter_each_subset _ _ _ _ _ Hf) as Hsub.
      assert (Hs1 : s1 = s).
      { pose proof (delete_comprehension_state c (tasks s) s) as Hk.
        by rewrite Hf in Hk. }
      subst s1.
      change (store_ok (exec (modify (with_tasks kept) ≫=
                                λ _, save_tasks w ;; refresh_table) s)).
      eapply store_ok_memory.
      * apply (after_bind memory). intros _. apply save_refresh_keeps_memory.
      * intros r Hr. simpl in *. apply Hok, Hsub, Hr.
    + simpl.
      assert (Hs1 : s1 = s).
      { pose proof (delete_comprehension_state c (tasks s) s) as Hk.
        by rewrite Hf in Hk. }
      by subst.
  - unfold exec. by rewrite action_delete_task_no_selection.
Qed.

Lemma numeric_id_set_completed v x :
  numeric_id (Task.set_completed v x) = numeric_id x.
Proof. reflexivity. Qed.

Lemma action_complete_task_store_ok w s :
  store_ok s → store_ok (exec (action_complete_task w) s).
Proof.
  intros Hok. destruct (current_task s) as [c|] eqn:Hc.
  - destruct (heap s !! c) as [task|] eqn:Hr.
    + pose proof (action_complete_task_memory w s c task Hc Hr) as Hm.
      set (s' := exec (action_complete_task w) s) in *.
      unfold memory in Hm. injection Hm as Hh Ht _ _ _.
      intros r Hin. rewrite Ht in Hin. destruct (Hok r Hin) as (x & Hx & Hn).
      rewrite Hh. destruct (decide (r = c)) as [->|Hne].
      * eexists. split.
        -- apply list_lookup_insert_eq. by eapply lookup_lt_Some.
        -- rewrite numeric_id_set_completed. congruence.
      * exists x. by rewrite list_lookup_insert_ne.
    + unfold exec, action_complete_task.
      rewrite !(bind_Ok get _ s s s) by reflexivity. rewrite Hc.
      assert (Hd : deref c s = (Raise KeyError, s))
        by (unfold deref; by rewrite Hr).
      by rewrite !(bind_Raise _ _ _ _ _ Hd).
  - unfold exec. by rewrite action_complete_task_no_selection.
Qed.

Lemma numeric_created_task n d now : numeric_id (created_task n d now) = true.
Proof. unfold numeric_id. simpl Task.id. by rewrite int_of_created_id. Qed.

Lemma action_add_task_store_ok result now w s :
  store_ok s → store_ok (exec (action_add_task result now w) s).
Proof.
  intros Hok. destruct result as [d|]; [|done].
  pose proof (action_add_task_memory w s d now) as Hm.
  set (s' := exec (action_add_task (Some d) now w) s) in *.
  unfold memory in Hm. injection Hm as Hh Ht _ _ _.
  intros r Hin. rewrite Ht in Hin. rewrite Hh.
  apply elem_of_app in Hin as [Hin|Hin].
  - destruct (Hok r Hin) as (x & Hx & Hn). exists x. split; [|done].
    by apply lookup_app_l_Some.
  - apply list_elem_of_singleton in Hin as ->. eexists. split.
    + apply list_lookup_middle. reflexivity.
    + apply numeric_created_task.
Qed.

Lemma handle_store_ok ev s : store_ok s → store_ok (exec (handle ev) s).
Proof.
  intros Hok. destruct ev as [result now w|w|w|input_id value| |cursor_row]; simpl.
  - by apply action_add_task_store_ok.
  - by apply action_complete_task_store_ok.
  - by apply action_delete_task_store_ok.
  - assert (Hk : keeps (λ s, (heap s, tasks s)) (on_input_changed input_id value)).
    { unfold on_input_changed, refresh_table, table_clear, get_filtered_tasks,
        table_add_row. frame. }
    specialize (Hk s). injection Hk as Hh Ht. intros r Hr.
    unfold exec. rewrite Hh. apply Hok. by rewrite <- Ht.
  - assert (Hk : keeps (λ s, (heap s, tasks s)) action_clear_search).
    { unfold action_clear_search, refresh_table, table_clear,
        get_filtered_tasks, table_add_row. frame. }
    specialize (Hk s). injection Hk as Hh Ht. intros r Hr.
    unfold exec. rewrite Hh. apply Hok. by rewrite <- Ht.
  - assert (Hk : keeps (λ s, (heap s, tasks s))
                   (on_data_table_row_highlighted cursor_row)).
    { unfold on_data_table_row_highlighted, table_move_cursor_row,
        update_current_task, table_get_row_at, get_filtered_tasks,
        update_detail_panel. frame. }
    specialize (Hk s). injection Hk as Hh Ht. intros r Hr.
    unfold exec. rewrite Hh. apply Hok. by rewrite <- Ht.
Qed.

Lemma run_store_ok evs s : store_ok s → store_ok (exec (run evs) s).
Proof.
  revert s. induction evs as [|ev evs IH]; intros s Hok; [done|].
  simpl. pose proof (handle_store_ok ev s Hok) as H1.
  unfold exec, mbind, M_bind in *.
  destruct (handle ev s) as [[[]|e] s1]; simpl in *; [by apply IH | done].
Qed.

Lemma load_tasks_store_ok clock s :
  tasks s = [] → eval (load_tasks clock) s = Ok () →
  store_ok (exec (load_tasks clock) s).
Proof.
  intros Hts Hok.
  destruct (load_tasks_counter clock s Hts Hok) as [[Ht _]|(ids & _ & Hall & _)].
  - intros r Hr. rewrite Ht in Hr. by apply elem_of_nil in Hr.
  - intros r Hr. apply list_elem_of_lookup in Hr as [i Hi].
    assert (Hci : collection (exec (load_tasks clock) s) !! i
                  = Some (heap (exec (load_tasks clock) s) !! r))
      by (unfold collection; by rewrite list_lookup_fmap, Hi).
    destruct (Forall2_lookup_l _ _ _ _ _ Hall Hci) as (n & _ & x & Hx & Hn).
    exists x. split; [done|]. unfold numeric_id. by rewrite Hn.
Qed.

(** The states the app reaches: when the mount returned normally, every
    element of the collection refers to an object with a numeric id, after
    any events. *)
Lemma session_store_ok disk clock evs :
  eval (on_mount clock) (init disk) = Ok () →
  store_ok (exec (session clock evs) (init disk)).
Proof.
  intros Hok. unfold session, eval, exec in *.
  unfold mbind at 1, M_bind at 1.
  destruct (on_mount clock (init disk)) as [[[]|e] s1] eqn:Hm; [|discriminate].
  apply run_store_ok.
  unfold on_mount in Hm. unfold mbind at 1, M_bind at 1 in Hm.
  destruct (load_tasks clock (init disk)) as [[[]|e] s0] eqn:Hl; [|discriminate].
  assert (H0 : store_ok s0).
  { pose proof (load_tasks_store_ok clock (init disk) eq_refl) as H.
    unfold eval, exec in H. rewrite Hl in H. by apply H. }
  eapply store_ok_memory; [|exact H0].
  assert (Hk : keeps memory (setup_table ;; refresh_table)).
  { apply keeps_bind; [|intros _; apply refresh_table_keeps_memory].
    unfold setup_table, table_add_columns. by apply keeps_modify. }
  specialize (Hk s0). by rewrite Hm in Hk.
Qed.

(** ** The filter on strings below code point 256 *)

Lemma lower_append a b : Str.lower (a +:+ b) = Str.lower a +:+ Str.lower b.
Proof. induction a as [|x a IH]; simpl; [done|]. by rewrite IH. Qed.

Lemma lower_split t a b :
  Str.lower t = a +:+ b →
  ∃ x y, t = x +:+ y ∧ Str.lower x = a ∧ Str.lower y = b.
Proof.
  revert t. induction a as [|c a IH]; intros t H; simpl in H.
  - exists EmptyString, t. done.
  - destruct t as [|d t]; [discriminate|]. simpl in H.
    injection H as Hc Ht. destruct (IH t Ht) as (x & y & -> & Hx & Hy).
    exists (String d x), y. simpl. by rewrite Hc, Hx.
Qed.

Lemma startswith_spec p s :
  Str.startswith p s = true ↔ ∃ post, s = p +:+ post.
Proof.
  revert s. induction p as [|a p IH]; intros s; simpl.
  - split; [eauto | done].
  - destruct s as [|b s].
    + split; [done | intros [post H]; discriminate].
    + rewrite andb_true_iff, IH, Ascii.eqb_eq. split.
      * intros [-> [post ->]]. eauto.
      * intros [post [= -> ->]]. eauto.
Qed.

Lemma contains_spec n h :
  Str.contains n h = true ↔ ∃ pre post, h = pre +:+ n +:+ post.
Proof.
  induction h as [|c h IH]; simpl; rewrite orb_true_iff, startswith_spec.
  - split.
    + intros [[post H]|]; [|done]. exists EmptyString, post. done.
    + intros (pre & post & H). left. destruct pre; [eauto | discriminate].
  - rewrite IH. split.
    + intros [[post H]|(pre & post & ->)].
      * exists EmptyString, post. done.
      * exists (String c pre), post. done.
    + intros (pre & post & H). destruct pre as [|d pre]; simpl in H.
      * left. eauto.
      * right. injection H as _ ->. eauto.
Qed.

(** The test of the source decides the relation of the specification. *)
Lemma contains_lower_spec q t :
  Str.contains (Str.lower q) (Str.lower t) = true ↔ ci_substring q t.
Proof.
  rewrite contains_spec. unfold ci_substring. split.
  - intros (pre' & post' & H).
    destruct (lower_split _ _ _ H) as (pre & rest & -> & Hpre & Hrest).
    destruct (lower_split _ _ _ Hrest) as (mid & post & -> & Hmid & Hpost).
    eauto.
  - intros (pre & mid & post & -> & Hmid).
    exists (Str.lower pre), (Str.lower post).
    by rewrite !lower_append, Hmid.
Qed.

Lemma any_tag_matches_spec q (l : list pyval) :
  forallb is_str l = true →
  ∃ b, any_tag_matches (Str.lower q) l = Ok b
       ∧ (b = true ↔ ∃ tag, PStr tag ∈ l ∧ ci_substring q tag).
Proof.
  induction l as [|v l IH]; simpl.
  - intros _. exists false. split; [done|]. split; [done|].
    intros (tag & H & _). by apply elem_of_nil in H.
  - rewrite andb_true_iff. intros [Hv Hl].
    destruct v as [| | | |tag| |]; try discriminate. simpl.
    destruct (Str.contains (Str.lower q) (Str.lower tag)) eqn:Hc.
    + exists true. split; [done|]. split; [|done]. intros _.
      exists tag. split; [left|]. by apply contains_lower_spec.
    + destruct (IH Hl) as (b & Hb & Hiff). exists b. split; [done|].
      rewrite Hiff. split.
      * intros (tag' & Hin & Hs). exists tag'. split; [by right|done].
      * intros (tag' & Hin & Hs). apply elem_of_cons in Hin as [[= ->]|Hin].
        -- apply contains_lower_spec in Hs. congruence.
        -- eauto.
Qed.

Lemma task_matches_spec q x :
  searchable x = true →
  ∃ b, task_matches (Str.lower q) x = Ok b ∧ (b = true ↔ spec_matches q x).
Proof.
  unfold searchable, task_matches, spec_matches.
  destruct (Task.title x) as [| | | |t| |] eqn:Ht; try discriminate.
  destruct (Task.tags x) as [| | | | |l|] eqn:Hl; try discriminate.
  intros Hstr. simpl.
  destruct (Str.contains (Str.lower q) (Str.lower t)) eqn:Hc.
  - exists true. split; [done|]. split; [|done]. intros _. left.
    exists t. split; [done|]. by apply contains_lower_spec.
  - destruct (any_tag_matches_spec q l Hstr) as (b & Hb & Hiff).
    exists b. split; [done|]. rewrite Hiff. split.
    + intros (tag & Hin & Hs). right. eauto.
    + intros [(t' & [= <-] & Hs)|(l' & tag & [= <-] & Hin & Hs)].
      * apply contains_lower_spec in Hs. congruence.
      * eauto.
Qed.

Lemma filterR_selected {A} (p : A → result bool) (P : A → Prop) l :
  (∀ x, x ∈ l → ∃ b, p x = Ok b ∧ (b = true ↔ P x)) →
  ∃ l', filterR p l = Ok l' ∧ selected_by P l l'.
Proof.
  induction l as [|x l IH]; intros H; simpl.
  - exists []. split; [done|constructor].
  - destruct (H x ltac:(left)) as (b & Hb & Hiff).
    destruct IH as (l' & Hl' & Hsel); [intros y Hy; apply H; by right|].
    rewrite Hb, Hl'. simpl. destruct b.
    + exists (x :: l'). split; [done|]. constructor; [by apply Hiff|done].
    + exists l'. split; [done|]. apply selected_drop; [|done].
      intros HP. apply Hiff in HP. discriminate.
Qed.

(** The filter on strings over code points below 256, where [str.lower]
    acts character by character ([lower_of_string] below), on a
    collection whose tasks have a string for title and a list of strings
    for tags. With the empty search text
    [get_filtered_tasks] returns [self.tasks] itself. With a non-empty
    text it returns exactly the subsequence of [self.tasks], in order, of
    the tasks whose title contains the text as a case-insensitive
    substring or one of whose tags does; the state is left as it was. *)
Theorem filter_correct (s : App) (vals : list Task.t) :
  collection s = Some <$> vals →
  Forall (λ x, searchable x = true) vals →
  (search_filter s = EmptyString → get_filtered_tasks s = (Ok (tasks s), s))
  ∧ (search_filter s ≠ EmptyString →
     ∃ view, get_filtered_tasks s = (Ok view, s)
             ∧ selected_by (λ r, ∃ x, heap s !! r = Some x
                                    ∧ spec_matches (search_filter s) x)
                           (tasks s) view).
Proof.
  intros Hc Hs. rewrite get_filtered_tasks_view. unfold filtered_view. split.
  - intros ->. reflexivity.
  - intros Hq. destruct (search_filter s) as [|c q] eqn:Eq; [done|].
    simpl Str.is_empty. cbn iota.
    destruct (filterR_selected
                (λ r, task ← heap_get (heap s) r;
                      task_matches (Str.lower (String c q)) task)
                (λ r, ∃ x, heap s !! r = Some x ∧ spec_matches (String c q) x)
                (tasks s)) as (view & Hv & Hsel).
    + intros r Hr.
      assert (Hx : ∃ x, heap s !! r = Some x ∧ searchable x = true).
      { apply list_elem_of_lookup in Hr as [i Hi].
        assert (Hci : collection s !! i = Some (heap s !! r))
          by (unfold collection; by rewrite list_lookup_fmap, Hi).
        rewrite Hc, list_lookup_fmap in Hci.
        destruct (vals !! i) as [x|] eqn:Hxi; [|discriminate].
        injection Hci as Hci. exists x. split; [done|].
        rewrite Forall_forall in Hs. apply Hs.
        apply list_elem_of_lookup. eauto. }
      destruct Hx as (x & Hx & Hsx).
      destruct (task_matches_spec (String c q) x Hsx) as (b & Hb & Hiff).
      exists b. unfold heap_get. rewrite Hx. simpl. split; [done|].
      rewrite Hiff. split; [eauto|]. intros (x' & Hx' & Hm). congruence.
    + exists view. by rewrite Hv.
Qed.

Lemma filter_correct_witness :
  ∃ view, get_filtered_tasks st_search = (Ok view, st_search)
          ∧ selected_by (λ r, ∃ x, heap st_search !! r = Some x
                                 ∧ spec_matches (search_filter st_search) x)
                        (tasks st_search) view.
Proof.
  assert (H1 : collection st_search = Some <$> [task_A; task_B; task_C])
    by (vm_compute; reflexivity).
  assert (H2 : Forall (λ x, searchable x = true) [task_A; task_B; task_C])
    by (repeat constructor).
  assert (H3 : search_filter st_search ≠ EmptyString)
    by (vm_compute; discriminate).
  exact (proj2 (filter_correct st_search [task_A; task_B; task_C] H1 H2) H3).
Defined.

Example filter_sample :
  eval get_filtered_tasks st_search = Ok [1%nat]
  ∧ eval get_filtered_tasks st_ABC = Ok [0; 1; 2]%nat.
Proof. split; vm_compute; reflexivity. Qed.

(** * More of the app *)

(** ** Loading: what is caught and what is not *)

(** X1. Whenever [load_tasks] raises, the exception is none of those its
    [except] clause names. *)
Theorem load_tasks_raises_only_uncaught (clock : nat → string) (s : App)
    (e : exn) :
  eval (load_tasks clock) s = Raise e → load_catches e = false.
Proof.
  unfold eval. intros H.
  destruct (tasks_file s) as [[e0|data]|] eqn:Hf.
  - rewrite (load_tasks_file_raises _ _ _ Hf) in H.
    destruct (load_catches e0) eqn:Hc; [discriminate|]. simpl in H. congruence.
  - destruct (records ← Py.iter data;
              mapR_from (λ i task, Task.of_value (clock i) task) 0 records)
      as [objs|e1] eqn:Hobjs.
    + destruct (Py.iter data) as [records|] eqn:Hit; [|discriminate].
      simpl in Hobjs.
      rewrite (load_tasks_document clock s _ _ objs Hf Hit Hobjs) in H.
      destruct objs as [|x objs']; [discriminate|].
      destruct (mapR _ (x :: objs')) as [ids|e1].
      * destruct (Py.max ids) as [m|e1]; [discriminate|].
        destruct (load_catches e1) eqn:Hc; [discriminate|].
        simpl in H. congruence.
      * destruct (load_catches e1) eqn:Hc; [discriminate|].
        simpl in H. congruence.
    + rewrite (load_tasks_construct_fails clock s data e1 Hf Hobjs) in H.
      destruct (load_catches e1) eqn:Hc; [discriminate|]. simpl in H. congruence.
  - rewrite (load_tasks_absent _ _ Hf) in H. discriminate.
Qed.

Lemma load_tasks_raises_only_uncaught_witness : load_catches TypeError = false.
Proof.
  apply (load_tasks_raises_only_uncaught sample_clock (init file_missing_title)).
  vm_compute. reflexivity.
Defined.

(** X2. A file that cannot be read as JSON (the read raises [ValueError] or one
    of its subclasses) empties the collection and leaves the objects, the
    counter, the selection and the search text; a missing file leaves
    everything. *)
Theorem load_tasks_degrades (clock : nat → string) (s : App) :
  (tasks_file s = None → load_tasks clock s = (Ok (), s))
  ∧ (∀ e, tasks_file s = Some (FileRaises e) → isinstance e ValueError = true →
       eval (load_tasks clock) s = Ok ()
       ∧ memory (exec (load_tasks clock) s)
         = (heap s, [], current_task s, search_filter s, task_counter s)).
Proof.
  split; [apply load_tasks_absent|].
  intros e Hf He. unfold eval, exec. rewrite (load_tasks_file_raises _ _ _ Hf).
  unfold load_catches. simpl. rewrite He, !orb_true_r. done.
Qed.

Lemma load_tasks_degrades_witness :
  tasks (exec (load_tasks sample_clock)
           (with_tasks_file (Some (FileRaises JSONDecodeError)) st_ABC)) = [].
Proof.
  pose proof (proj2 (load_tasks_degrades sample_clock
               (with_tasks_file (Some (FileRaises JSONDecodeError)) st_ABC))
               JSONDecodeError eq_refl eq_refl) as [_ H].
  unfold memory in H. congruence.
Defined.

Lemma of_value_accepted now v :
  if accepted_record v then is_Ok (Task.of_value now v) = true
  else Task.of_value now v = Raise TypeError.
Proof.
  destruct v as [| | | | | |d]; try reflexivity. simpl. unfold Task.init.
  destruct (forallb _ d); simpl; [|reflexivity].
  destruct (Py.assoc "id" d); [|reflexivity].
  destruct (Py.assoc "title" d); reflexivity.
Qed.

Lemma mapR_from_refused clock i records :
  Exists (λ v, accepted_record v = false) records →
  mapR_from (λ i task, Task.of_value (clock i) task) i records = Raise TypeError.
Proof.
  intros H. revert i. induction records as [|v records IH]; intros i.
  - by inversion H.
  - simpl. pose proof (of_value_accepted (clock i) v) as Hv.
    destruct (accepted_record v) eqn:Ha.
    + destruct (Task.of_value (clock i) v) as [x|]; [|discriminate]. simpl.
      rewrite IH; [reflexivity|]. inversion H; subst; [congruence|done].
    + by rewrite Hv.
Qed.

(** X3. One record the constructor refuses, among any number of good ones,
    makes [load_tasks] raise [TypeError]; nothing is loaded: the memory is
    left as it was. *)
Theorem load_tasks_refuses_record (clock : nat → string) (s : App)
    (records : list pyval) :
  tasks_file s = Some (FileJson (PList records)) →
  Exists (λ v, accepted_record v = false) records →
  eval (load_tasks clock) s = Raise TypeError
  ∧ memory (exec (load_tasks clock) s) = memory s.
Proof.
  intros Hf H. unfold eval, exec.
  rewrite (load_tasks_construct_fails clock s _ TypeError Hf); [done|].
  simpl. by apply mapR_from_refused.
Qed.

Lemma load_tasks_refuses_record_witness :
  eval (load_tasks sample_clock)
       (init (Some (FileJson (PList [sample_record "0" "normal";
                                     PDict [("id", PStr "1");
                                            ("name", PStr "x")]%string]))))
  = Raise TypeError.
Proof.
  refine (proj1 (load_tasks_refuses_record sample_clock (init _) _ eq_refl _)).
  apply Exists_cons_tl, Exists_cons_hd. reflexivity.
Defined.

(** ** The selection *)

Lemma action_add_task_keeps_selection result now w :
  keeps (λ s, (current_task s, search_filter s))
        (action_add_task result now w).
Proof.
  destruct result as [d|]; [|apply keeps_ret].
  unfold action_add_task, alloc, save_tasks, open_for_write, json_dump,
    refresh_table, table_clear, get_filtered_tasks, table_add_row.
  frame.
Qed.

Lemma action_complete_task_keeps_selection w :
  keeps (λ s, (current_task s, search_filter s)) (action_complete_task w).
Proof.
  unfold action_complete_task, save_tasks, open_for_write, json_dump,
    refresh_table, table_clear, get_filtered_tasks, table_add_row,
    update_detail_panel.
  frame.
Qed.

Lemma action_delete_task_keeps_selection w :
  keeps (λ s, (current_task s, search_filter s)) (action_delete_task w).
Proof.
  unfold action_delete_task, save_tasks, open_for_write, json_dump,
    refresh_table, table_clear, get_filtered_tasks, table_add_row.
  frame.
Qed.

Lemma refresh_table_keeps_selection :
  keeps (λ s, (current_task s, detail_content s)) refresh_table.
Proof.
  unfold refresh_table, table_clear, get_filtered_tasks, table_add_row. frame.
Qed.

(** X4. Only a row-highlight event changes the selection: adding, toggling,
    deleting, typing in the search box and clearing it leave
    [current_task] as it was, whether the handler returns or raises. *)
Theorem selection_changes_only_on_highlight (ev : event) (s : App) :
  (∀ cursor_row, ev ≠ RowHighlighted cursor_row) →
  current_task (exec (handle ev) s) = current_task s.
Proof.
  intros Hev.
  destruct ev as [result now w|w|w|input_id value| |cursor_row]; simpl.
  - pose proof (action_add_task_keeps_selection result now w s) as H.
    by injection H.
  - pose proof (action_complete_task_keeps_selection w s) as H. by injection H.
  - pose proof (action_delete_task_keeps_selection w s) as H. by injection H.
  - assert (Hk : keeps current_task (on_input_changed input_id value)).
    { unfold on_input_changed, refresh_table, table_clear, get_filtered_tasks,
        table_add_row. frame. }
    apply Hk.
  - assert (Hk : keeps current_task action_clear_search).
    { unfold action_clear_search, refresh_table, table_clear,
        get_filtered_tasks, table_add_row. frame. }
    apply Hk.
  - by destruct (Hev cursor_row).
Qed.

Lemma selection_changes_only_on_highlight_witness :
  current_task (exec (handle (DeleteTask WriteOk)) st_ABC) = current_task st_ABC.
Proof.
  apply selection_changes_only_on_highlight. intros k. discriminate.
Defined.

(** X5. Mounting selects nothing: whatever the storage file holds, after
    [on_mount] there is no current task and the detail panel shows its
    placeholder. *)
Theorem on_mount_selects_nothing (disk : option file) (clock : nat → string) :
  current_task (exec (on_mount clock) (init disk)) = None
  ∧ detail_content (exec (on_mount clock) (init disk)) = None.
Proof.
  assert (Hk : keeps (λ s, (current_task s, detail_content s)) (on_mount clock)).
  { unfold on_mount, load_tasks, json_load, alloc_all, setup_table,
      table_add_columns.
    apply keeps_bind; [|intros _; apply keeps_bind;
                          [by apply keeps_modify
                          |intros _; apply refresh_table_keeps_selection]].
    apply keeps_bind; [apply keeps_get|]. intros s0.
    destruct (tasks_file s0); [|apply keeps_ret].
    apply keeps_try_except; [|by apply keeps_modify].
    apply keeps_bind; [frame|]. intros data.
    apply keeps_bind; [frame|]. intros records.
    apply keeps_bind; [frame|]. intros objs.
    apply keeps_bind.
    { clear. induction objs as [|x objs IH]; simpl; [apply keeps_ret|].
      apply keeps_bind; [by intros s|]. intros r.
      apply keeps_bind; [exact IH|]. intros; apply keeps_ret. }
    intros refs. frame. }
  specialize (Hk (init disk)). by injection Hk.
Qed.

(** ** Toggle *)

(** X6. A toggle writes to one object only: the selected object gets
    [completed] set to the boolean negation of its truth value and keeps
    its other fields; every other object, the collection, the selection
    and the counter are left. When the selected object is not in the
    collection (it was deleted), the collection's values do not change. *)
Theorem toggle_changes_one_object (s : App) (w : write_outcome) (r : ref)
    (task : Task.t) :
  current_task s = Some r → heap s !! r = Some task →
  let s' := exec (action_complete_task w) s in
  heap s' !! r
  = Some (Task.mk (Task.id task) (Task.title task)
                  (PBool (negb (Py.truthy (Task.completed task))))
                  (Task.priority task) (Task.tags task) (Task.created_at task))
  ∧ (∀ r', r' ≠ r → heap s' !! r' = heap s !! r')
  ∧ tasks s' = tasks s
  ∧ task_counter s' = task_counter s
  ∧ (r ∉ tasks s → collection s' = collection s).
Proof.
  intros Hc Hr s'.
  pose proof (action_complete_task_memory w s r task Hc Hr) as Hm.
  fold s' in Hm. unfold memory in Hm. injection Hm as Hh Ht _ _ Hn.
  assert (Hother : ∀ r', r' ≠ r → heap s' !! r' = heap s !! r').
  { intros r' Hne. rewrite Hh. by apply list_lookup_insert_ne. }
  split; [|split; [exact Hother|split; [exact Ht|split; [exact Hn|]]]].
  - rewrite Hh. apply list_lookup_insert_eq. by eapply lookup_lt_Some.
  - intros Hnot. unfold collection. rewrite Ht.
    apply list_fmap_ext. intros i r' Hr'. apply Hother.
    intros Heq. subst r'. apply Hnot. apply list_elem_of_lookup. eauto.
Qed.

Lemma toggle_changes_one_object_witness :
  tasks (exec (action_complete_task WriteOk) st_ABC) = tasks st_ABC.
Proof.
  refine (proj1 (proj2 (proj2
    (toggle_changes_one_object st_ABC WriteOk 1%nat task_B _ _))));
    reflexivity.
Defined.

(** ** Delete *)

Lemma filter_idem {A} (g : A → bool) l :
  List.filter g (List.filter g l) = List.filter g l.
Proof.
  induction l as [|x l IH]; simpl; [done|].
  destruct (g x) eqn:Hx; simpl; rewrite ?Hx, IH; done.
Qed.

(** X7. After a delete the selection still refers to the object that was
    deleted, which is no longer in the collection, and a second delete
    changes nothing in memory. (The id is a string, or any value equal to
    itself.) *)
Theorem delete_leaves_stale_selection (s : App) (w1 w2 : write_outcome)
    (c : ref) (cur : Task.t) :
  refs_valid s → current_task s = Some c → heap s !! c = Some cur →
  Py.eq (Task.id cur) (Task.id cur) = true →
  let s1 := exec (action_delete_task w1) s in
  current_task s1 = Some c
  ∧ (c ∉ tasks s1)
  ∧ memory (exec (action_delete_task w2) s1) = memory s1.
Proof.
  intros Hv Hc Hcur Hrefl s1.
  pose proof (action_delete_task_memory w1 s c cur Hc Hcur Hv) as Hm.
  fold s1 in Hm. unfold memory in Hm. injection Hm as Hh Ht Hc1 Hq Hn.
  assert (Hv1 : refs_valid s1).
  { intros r Hr. rewrite Hh. apply Hv. rewrite Ht in Hr.
    apply list_elem_of_In, filter_In in Hr as [Hr _]. by apply list_elem_of_In. }
  assert (Hcur1 : heap s1 !! c = Some cur) by (by rewrite Hh).
  split; [congruence|]. split.
  - rewrite Ht. intros Hin. apply list_elem_of_In, filter_In in Hin as [_ Hin].
    unfold other_id in Hin. rewrite Hcur, Hrefl in Hin. discriminate.
  - rewrite (action_delete_task_memory w2 s1 c cur (eq_trans Hc1 Hc) Hcur1 Hv1).
    unfold memory. rewrite Hh, Ht. by rewrite filter_idem.
Qed.

Lemma delete_leaves_stale_selection_witness :
  current_task (exec (action_delete_task WriteOk) st_ABC) = Some 1%nat
  ∧ (1%nat ∉ tasks (exec (action_delete_task WriteOk) st_ABC)).
Proof.
  pose proof (delete_leaves_stale_selection st_ABC WriteOk WriteOk 1%nat task_B
                st_ABC_refs_valid eq_refl eq_refl eq_refl) as (H1 & H2 & _).
  split; assumption.
Defined.

(** ** Create *)

(** X8. A creation appends: the new object is [created_task] for the counter,
    it goes to the end of the collection, the tasks before it keep their
    values and order, and the counter grows by one; when the write
    succeeds the file holds the whole new collection, the new record
    last. *)
Theorem add_appends (s : App) (d : task_data) (now : string)
    (w : write_outcome) (vals : list Task.t) :
  collection s = Some <$> vals →
  let s' := exec (action_add_task (Some d) now w) s in
  collection s' = Some <$> (vals ++ [created_task (task_counter s) d now])
  ∧ task_counter s' = task_counter s + 1
  ∧ (w = WriteOk →
     tasks_file s'
     = Some (FileJson (PList (Task.asdict <$>
                 (vals ++ [created_task (task_counter s) d now]))))).
Proof.
  intros Hc s'.
  pose proof (action_add_task_memory w s d now) as Hm.
  fold s' in Hm. unfold memory in Hm. injection Hm as Hh Ht _ _ Hn.
  assert (Hvalid : ∀ r, r ∈ tasks s → (r < length (heap s))%nat).
  { intros r Hr. apply list_elem_of_lookup in Hr as [i Hi].
    assert (Hci : collection s !! i = Some (heap s !! r))
      by (unfold collection; by rewrite list_lookup_fmap, Hi).
    rewrite Hc, list_lookup_fmap in Hci.
    destruct (vals !! i); [|discriminate]. injection Hci as Hci.
    by eapply lookup_lt_Some. }
  assert (Hcol : ∀ s2, heap s2 = heap s ++ [created_task (task_counter s) d now] →
            tasks s2 = tasks s ++ [length (heap s)] →
            collection s2
            = Some <$> (vals ++ [created_task (task_counter s) d now])).
  { intros s2 Hh2 Ht2. unfold collection. rewrite Ht2, Hh2, !fmap_app. f_equal.
    - rewrite <- Hc. unfold collection. apply list_fmap_ext.
      intros i r Hr. apply lookup_app_l, Hvalid.
      apply list_elem_of_lookup. eauto.
    - simpl. by rewrite list_lookup_middle. }
  split; [by apply Hcol|]. split; [exact Hn|]. intros ->.
  subst s'. unfold exec, action_add_task.
  rewrite (bind_Ok get _ s s s) by reflexivity.
  erewrite bind_Ok by reflexivity.
  erewrite bind_Ok by reflexivity.
  erewrite bind_Ok by reflexivity.
  erewrite bind_Ok by reflexivity.
  match goal with |- tasks_file (snd ((?m ≫= ?f) ?s2)) = _ =>
    change (tasks_file (exec (m ≫= f) s2) = Some (FileJson (PList (Task.asdict <$>
                 (vals ++ [created_task (task_counter s) d now])))));
    rewrite (after_bind tasks_file m f s2)
  end.
  - apply save_tasks_file. by apply Hcol.
  - intros _. unfold refresh_table, table_clear, get_filtered_tasks,
      table_add_row. frame.
Qed.

Lemma add_appends_witness :
  task_counter (exec (action_add_task (Some (mkData "Pay rent" "high" []))
                        "2024-05-02T08:00:05" (OpenFails OSError)) st_ABC)
  = 4.
Proof.
  refine (proj1 (proj2 (add_appends st_ABC _ _ _ [task_A; task_B; task_C] _))).
  vm_compute. reflexivity.
Defined.

(** ** The filter *)

Lemma filterR_sublist {A} (p : A → result bool) l l' :
  filterR p l = Ok l' → l' `sublist_of` l.
Proof.
  revert l'. induction l as [|x l IH]; intros l' H; simpl in H.
  - injection H as <-. constructor.
  - destruct (p x) as [b|]; [|discriminate]. simpl in H.
    destruct (filterR p l) as [ys|]; [|discriminate]. injection H as <-.
    destruct b; [apply sublist_skip | apply sublist_cons]; by apply IH.
Qed.

(** X9. Whatever the values of the tasks, a filtered view that is returned is
    a subsequence of the collection: no task is invented, repeated or
    moved. *)
Theorem filtered_view_is_subsequence (s : App) (view : list ref) :
  eval get_filtered_tasks s = Ok view → view `sublist_of` tasks s.
Proof.
  rewrite eval_get_filtered_tasks. unfold filtered_view.
  destruct (Str.is_empty (search_filter s)).
  - by intros [= <-].
  - apply filterR_sublist.
Qed.

Lemma filtered_view_is_subsequence_witness :
  [1%nat] `sublist_of` tasks st_search.
Proof.
  apply (filtered_view_is_subsequence st_search). vm_compute. reflexivity.
Defined.

Lemma append_assoc (a b c : string) : (a +:+ b) +:+ c = a +:+ (b +:+ c).
Proof.
  induction a as [|x a IH]; [done|].
  change (String x ((a +:+ b) +:+ c) = String x (a +:+ (b +:+ c))).
  by rewrite IH.
Qed.

Lemma ci_substring_trans q q' t :
  ci_substring q q' → ci_substring q' t → ci_substring q t.
Proof.
  intros (p1 & m1 & r1 & -> & H1) (p2 & m2 & r2 & -> & H2).
  rewrite !lower_append in H2.
  destruct (lower_split _ _ _ H2) as (a & rest & -> & Ha & Hrest).
  destruct (lower_split _ _ _ Hrest) as (b & c & -> & Hb & Hc).
  exists (p2 +:+ a), b, (c +:+ r2). split.
  - by rewrite !append_assoc.
  - congruence.
Qed.

Lemma spec_matches_narrow q q' x :
  ci_substring q q' → spec_matches q' x → spec_matches q x.
Proof.
  intros Hq [(t & Ht & Hs)|(l & tag & Hl & Hin & Hs)].
  - left. exists t. split; [done|]. by eapply ci_substring_trans.
  - right. exists l, tag. repeat split; try done. by eapply ci_substring_trans.
Qed.

Lemma selected_by_sublist {A} (P P' : A → Prop) l v v' :
  (∀ x, P' x → P x) →
  selected_by P l v → selected_by P' l v' → v' `sublist_of` v.
Proof.
  intros Himp Hv. revert v'.
  induction Hv as [|x l v Hx _ IH|x l v Hx _ IH]; intros v' Hv';
    inversion Hv'; subst.
  - constructor.
  - apply sublist_skip. by apply IH.
  - apply sublist_cons. by apply IH.
  - by destruct Hx; apply Himp.
  - by apply IH.
Qed.

Lemma spec_matches_empty x : searchable x = true → spec_matches EmptyString x.
Proof.
  unfold searchable. destruct (Task.title x) as [| | | |t| |] eqn:Ht;
    try discriminate. intros _. left. exists t. split; [done|].
  exists EmptyString, EmptyString, t. done.
Qed.

(** The view for the search text [q], on a collection of searchable
    tasks. *)
Lemma view_selected s vals q :
  collection s = Some <$> vals →
  Forall (λ x, searchable x = true) vals →
  ∃ view, eval get_filtered_tasks (with_search_filter q s) = Ok view
          ∧ selected_by (λ r, ∃ x, heap s !! r = Some x ∧ spec_matches q x)
                        (tasks s) view.
Proof.
  intros Hc Hs.
  assert (Hx : ∀ r, r ∈ tasks s → ∃ x, heap s !! r = Some x ∧ searchable x = true).
  { intros r Hr. apply list_elem_of_lookup in Hr as [i Hi].
    assert (Hci : collection s !! i = Some (heap s !! r))
      by (unfold collection; by rewrite list_lookup_fmap, Hi).
    rewrite Hc, list_lookup_fmap in Hci.
    destruct (vals !! i) as [x|] eqn:Hxi; [|discriminate].
    injection Hci as Hci. exists x. split; [done|].
    rewrite Forall_forall in Hs. apply Hs. apply list_elem_of_lookup. eauto. }
  rewrite eval_get_filtered_tasks. unfold filtered_view. simpl.
  destruct q as [|c q]; simpl.
  - exists (tasks s). split; [done|].
    assert (H : ∀ l, (∀ r, r ∈ l → r ∈ tasks s) →
              selected_by (λ r, ∃ x, heap s !! r = Some x
                                     ∧ spec_matches EmptyString x) l l).
    { induction l as [|r l IH]; intros Hl; constructor.
      - destruct (Hx r (Hl r ltac:(left))) as (x & Hr & Hsx).
        exists x. split; [done|]. by apply spec_matches_empty.
      - apply IH. intros r' Hr'. apply Hl. by right. }
    by apply H.
  - apply filterR_selected. intros r Hr.
    destruct (Hx r Hr) as (x & Hxr & Hsx).
    destruct (task_matches_spec (String c q) x Hsx) as (b & Hb & Hiff).
    exists b. unfold heap_get. rewrite Hxr. simpl. split; [done|].
    rewrite Hiff. split; [eauto|]. intros (x' & Hx' & Hm). congruence.
Qed.

(** X10. On strings over code points below 256, where [str.lower] acts
    character by character ([lower_of_string], [filtered_view_latin1]),
    extending the search text only narrows the view: on a collection of
    searchable tasks, when [q] is a case-insensitive substring of [q'],
    both views are returned and the view for [q'] is a subsequence of the
    view for [q]. Beyond those code points it can fail: the capital
    sigma alone does not find the title that the capitals alpha and
    sigma together find. *)
Theorem longer_search_narrows_view (s : App) (vals : list Task.t)
    (q q' : string) :
  collection s = Some <$> vals →
  Forall (λ x, searchable x = true) vals →
  ci_substring q q' →
  ∃ view view',
    eval get_filtered_tasks (with_search_filter q s) = Ok view
    ∧ eval get_filtered_tasks (with_search_filter q' s) = Ok view'
    ∧ view' `sublist_of` view.
Proof.
  intros Hc Hs Hq.
  destruct (view_selected s vals q Hc Hs) as (view & Hv & Hsel).
  destruct (view_selected s vals q' Hc Hs) as (view' & Hv' & Hsel').
  exists view, view'. split; [done|]. split; [done|].
  eapply selected_by_sublist; [|exact Hsel|exact Hsel'].
  intros r (x & Hx & Hm). exists x. split; [done|].
  by eapply spec_matches_narrow.
Qed.

Lemma longer_search_narrows_view_witness :
  ∃ view view',
    eval get_filtered_tasks (with_search_filter "o" st_ABC) = Ok view
    ∧ eval get_filtered_tasks (with_search_filter "WORK" st_ABC) = Ok view'
    ∧ view' `sublist_of` view.
Proof.
  apply (longer_search_narrows_view st_ABC [task_A; task_B; task_C]).
  - vm_compute. reflexivity.
  - repeat constructor.
  - exists "W"%string, "O"%string, "RK"%string. split; reflexivity.
Defined.

(** ** The modal *)

Section Strip.

Context (sp : ascii → bool).

Lemma rstrip_by_idem s :
  Str.rstrip_by sp (Str.rstrip_by sp s) = Str.rstrip_by sp s.
Proof.
  induction s as [|c r IH]; simpl; [done|].
  destruct (sp c && Str.is_empty (Str.rstrip_by sp r)) eqn:Hc; simpl; [done|].
  by rewrite IH, Hc.
Qed.

Lemma lstrip_by_head s :
  match Str.lstrip_by sp s with
  | EmptyString => True
  | String c _ => sp c = false
  end.
Proof.
  induction s as [|c r IH]; simpl; [done|].
  destruct (sp c) eqn:Hc; [exact IH | exact Hc].
Qed.

Lemma lstrip_by_fixed s :
  match s with EmptyString => True | String c _ => sp c = false end →
  Str.lstrip_by sp s = s.
Proof. destruct s as [|c r]; simpl; [done|]. by intros ->. Qed.

Lemma rstrip_by_head s :
  match s with EmptyString => True | String c _ => sp c = false end →
  match Str.rstrip_by sp s with
  | EmptyString => True
  | String c _ => sp c = false
  end.
Proof.
  destruct s as [|c r]; simpl; [done|]. intros Hc. rewrite Hc. simpl. exact Hc.
Qed.

Lemma strip_by_idem s :
  let strip x := Str.rstrip_by sp (Str.lstrip_by sp x) in
  strip (strip s) = strip s.
Proof.
  simpl. rewrite (lstrip_by_fixed (Str.rstrip_by sp (Str.lstrip_by sp s))).
  - apply rstrip_by_idem.
  - apply rstrip_by_head, lstrip_by_head.
Qed.

Lemma all_chars_lstrip P s :
  all_chars P s = true → all_chars P (Str.lstrip_by sp s) = true.
Proof.
  induction s as [|c r IH]; simpl; [done|].
  rewrite andb_true_iff. intros [Hc Hr].
  destruct (sp c); [by apply IH | simpl; by rewrite Hc, Hr].
Qed.

Lemma all_chars_rstrip P s :
  all_chars P s = true → all_chars P (Str.rstrip_by sp s) = true.
Proof.
  induction s as [|c r IH]; simpl; [done|].
  rewrite andb_true_iff. intros [Hc Hr].
  destruct (sp c && _); [done | simpl; by rewrite Hc, IH].
Qed.

End Strip.

Lemma strip_idem s : Str.strip (Str.strip s) = Str.strip s.
Proof. apply (strip_by_idem Str.is_space). Qed.

Lemma split_no_sep sep s :
  Forall (λ x, all_chars (λ c, negb (Ascii.eqb c sep)) x = true)
         (Str.split sep s).
Proof.
  induction s as [|c r IH]; simpl; [by repeat constructor|].
  destruct (Ascii.eqb c sep) eqn:Hc.
  - by constructor.
  - destruct (Str.split sep r) as [|h t]; inversion IH; subst.
    + repeat constructor. simpl. by rewrite Hc.
    + constructor; [|done]. simpl. by rewrite Hc.
Qed.

Lemma is_empty_spec s : Str.is_empty s = true ↔ s = EmptyString.
Proof. destruct s; simpl; split; done. Qed.

(** X11. What [AddTaskModal] does with the Add button. With a blank title it
    stays open. Otherwise it is dismissed with the stripped title, a
    priority among low, normal, high, and tags that are each non-empty,
    stripped and free of commas. *)
Theorem modal_result_is_clean (title_value priority_value tags_value : string) :
  (Str.strip title_value = EmptyString →
   on_button_pressed "add-button" title_value priority_value tags_value
   = StaysOpen)
  ∧ (Str.strip title_value ≠ EmptyString →
     ∃ d, on_button_pressed "add-button" title_value priority_value tags_value
          = Dismiss (Some d)
          ∧ td_title d = Str.strip title_value
          ∧ In (td_priority d) ["low"; "normal"; "high"]%string
          ∧ Forall clean_tag (td_tags d)).
Proof.
  unfold on_button_pressed. simpl String.eqb. cbn iota. split.
  - intros ->. reflexivity.
  - intros Ht. destruct (Str.is_empty (Str.strip title_value)) eqn:He.
    { by apply is_empty_spec in He. }
    simpl negb. cbn iota. eexists. split; [reflexivity|]. simpl.
    split; [reflexivity|]. split.
    + pose proof (on_button_pressed_priority title_value priority_value
                    tags_value) as Hp.
      unfold on_button_pressed in Hp. simpl String.eqb in Hp. cbn iota in Hp.
      rewrite He in Hp. simpl negb in Hp. cbn iota in Hp.
      exact (proj1 (Hp _ eq_refl)).
    + apply Forall_fmap, Forall_forall. intros tag Hin.
      apply list_elem_of_In, filter_In in Hin as [Hin Hne].
      apply negb_true_iff in Hne. simpl. split; [|split].
      * intros Heq. rewrite Heq in Hne. discriminate.
      * apply strip_idem.
      * unfold Str.strip. apply all_chars_rstrip, all_chars_lstrip.
        pose proof (split_no_sep "," (Str.strip tags_value)) as Hs.
        rewrite Forall_forall in Hs. apply Hs. by apply list_elem_of_In.
Qed.

Lemma modal_result_is_clean_witness :
  ∃ d, on_button_pressed "add-button" " Pay rent " "HIGH" " home , ,bills,"
       = Dismiss (Some d)
       ∧ td_title d = Str.strip " Pay rent "
       ∧ In (td_priority d) ["low"; "normal"; "high"]%string
       ∧ Forall clean_tag (td_tags d).
Proof.
  apply (proj2 (modal_result_is_clean " Pay rent " "HIGH" " home , ,bills,")).
  vm_compute. discriminate.
Defined.

(** X12. A task created from what the modal hands over is typed as the data
    model says, has a numeric id and can be searched. *)
Theorem created_from_modal_is_well_formed (button_id title_value priority_value
    tags_value : string) (d : task_data) (n : Z) (now : string) :
  on_button_pressed button_id title_value priority_value tags_value
  = Dismiss (Some d) →
  well_formed_task (created_task n d now) = true
  ∧ searchable (created_task n d now) = true.
Proof.
  intros Hd.
  assert (Hstr : ∀ l : list string, forallb is_str (PStr <$> l) = true)
    by (induction l; simpl; auto).
  assert (button_id = "add-button"%string) as ->.
  { unfold on_button_pressed in Hd.
    destruct (String.eqb_spec button_id "add-button"); [done|].
    destruct (String.eqb button_id "cancel-button"); discriminate. }
  destruct (on_button_pressed_priority _ _ _ _ Hd) as [Hp _].
  unfold well_formed_task, documented_task, searchable, numeric_id.
  simpl Task.id. rewrite int_of_created_id. simpl.
  rewrite Hstr, !andb_true_r. split; [|done].
  apply existsb_eqb_In in Hp. exact Hp.
Qed.

Lemma created_from_modal_is_well_formed_witness :
  well_formed_task
    (created_task 7 (mkData "Pay rent" "normal" ["home"; "bills"]%string) "now")
  = true.
Proof.
  refine (proj1 (created_from_modal_is_well_formed "add-button"
                   " Pay rent " "HIGH" " home , ,bills," _ 7 "now" _)).
  vm_compute. reflexivity.
Defined.

(** ** A write that fails, and the next start *)

Lemma save_tasks_dump_fails e s :
  tasks_file (exec (save_tasks (DumpFails e)) s)
  = Some (FileRaises JSONDecodeError).
Proof.
  unfold exec, save_tasks, try_except_Exception, open_for_write, json_dump.
  unfold mbind at 1, M_bind at 1. simpl.
  unfold mbind at 1, M_bind at 1, get.
  unfold mbind at 1, M_bind at 1. rewrite save_map_each.
  destruct (mapR _ _) as [dicts|e']; reflexivity.
Qed.

(** X13. What a failed write leaves on disk. When the open fails the file is
    what it was. When the dump fails the file, truncated by the open, no
    longer parses: an app started on it loads an empty collection without
    raising, so the tasks saved before are lost as well. *)
Theorem failed_write_on_disk (s s0 : App) (e : exn) (clock : nat → string) :
  tasks_file (exec (save_tasks (OpenFails e)) s) = tasks_file s
  ∧ (tasks_file s0 = tasks_file (exec (save_tasks (DumpFails e)) s) →
     eval (load_tasks clock) s0 = Ok ()
     ∧ tasks (exec (load_tasks clock) s0) = []).
Proof.
  split; [reflexivity|]. rewrite save_tasks_dump_fails. intros Hf.
  unfold eval, exec. rewrite (load_tasks_file_raises _ _ _ Hf). done.
Qed.

Lemma failed_write_on_disk_witness :
  tasks (exec (load_tasks sample_clock)
           (init (tasks_file (exec (save_tasks (DumpFails OSError)) st_ABC))))
  = [].
Proof.
  refine (proj2 (proj2 (failed_write_on_disk st_ABC (init _) OSError
                          sample_clock) eq_refl)).
Defined.

(** ** The table *)

Lemma refresh_loop s t l :
  for_each l (λ r,
    task ← deref r;
    tags_str ← lift (if Py.truthy (Task.tags task)
                     then Py.join ", " (Task.tags task)
                     else Ok EmptyString);
    picon ← lift (Task.priority_icon task);
    table_add_row [CellIcon (Task.status_icon task); CellIcon picon;
                   CellValue (Task.title task); CellText tags_str]
                  (Task.id task)) (with_task_table t s)
  = (fst (fill (heap s) l t), with_task_table (snd (fill (heap s) l t)) s).
Proof.
  revert t. induction l as [|r l IH]; intros t; [reflexivity|].
  cbn [for_each fill].
  unfold mbind at 1, M_bind at 1.
  unfold mbind at 1, M_bind at 1, deref, heap_get. simpl heap.
  destruct (heap s !! r) as [task|]; [|reflexivity].
  cbn [mbind result_bind].
  unfold row_of.
  unfold mbind at 1, M_bind at 1, lift.
  destruct (if Py.truthy (Task.tags task) then _ else _) as [tags_str|e];
    [|reflexivity].
  cbn [mbind result_bind].
  unfold mbind at 1, M_bind at 1.
  destruct (Task.priority_icon task) as [picon|e]; [|reflexivity].
  cbn [mbind result_bind row_key].
  unfold table_add_row.
  unfold mbind at 1, M_bind at 1, get.
  change (task_table (with_task_table t s)) with t.
  destruct (negb (Py.hashable (Task.id task))); [reflexivity|].
  unfold clashes.
  destruct (existsb _ (rows t)) eqn:Hc.
  - reflexivity.
  - unfold modify. simpl. apply IH.
Qed.

Lemma refresh_table_fill s :
  refresh_table s =
  let t0 := mkTable (columns (task_table s)) [] (mkCoordinate 0 0) in
  match filtered_view (heap s) (tasks s) (search_filter s) with
  | Ok view => (fst (fill (heap s) view t0),
                with_task_table (snd (fill (heap s) view t0)) s)
  | Raise e => (Raise e, with_task_table t0 s)
  end.
Proof.
  unfold refresh_table, table_clear.
  unfold mbind at 1, M_bind at 1, modify.
  set (t0 := mkTable (columns (task_table s)) [] (mkCoordinate 0 0)).
  unfold mbind at 1, M_bind at 1. rewrite get_filtered_tasks_view.
  change (heap (with_task_table t0 s)) with (heap s).
  change (tasks (with_task_table t0 s)) with (tasks s).
  change (search_filter (with_task_table t0 s)) with (search_filter s).
  cbv zeta.
  destruct (filtered_view (heap s) (tasks s) (search_filter s)) as [view|e];
    [|reflexivity].
  unfold mbind at 1, M_bind at 1. rewrite refresh_loop.
  destruct (fill (heap s) view t0) as [[[]|e] t']; simpl;
    [destruct view; reflexivity | reflexivity].
Qed.

Lemma pairwise_snoc {A} (R : A → A → Prop) l y :
  pairwise R l → Forall (λ x, R x y) l → pairwise R (l ++ [y]).
Proof.
  induction l as [|x l IH]; simpl; [done|].
  intros [Hx Hl] Hy. inversion Hy; subst. split.
  - apply Forall_app. split; [done|]. by constructor.
  - by apply IH.
Qed.

Lemma pairwise_sublist {A} (R : A → A → Prop) l l' :
  l' `sublist_of` l → pairwise R l → pairwise R l'.
Proof.
  induction 1 as [|x l1 l2 Hs IH|x l1 l2 Hs IH]; simpl; [done| |].
  - intros [Hx Hl]. split; [|by apply IH].
    rewrite Forall_forall in *. intros y Hy. apply Hx.
    eapply elem_of_sublist; eassumption.
  - intros [_ Hl]. by apply IH.
Qed.

Lemma keys_distinct_snoc keys k :
  keys_distinct keys → (∀ a, a ∈ keys → clashes a k = false) →
  keys_distinct (keys ++ [k]).
Proof.
  intros Hd Hk. apply pairwise_snoc; [done|]. by apply Forall_forall.
Qed.

Lemma existsb_clashes_false (rws : list TableRow) k :
  existsb (λ old, clashes (row_key old) k) rws = false →
  ∀ a, a ∈ row_key <$> rws → clashes a k = false.
Proof.
  intros H a Ha. apply list_elem_of_fmap in Ha as (rw & -> & Hrw).
  destruct (clashes (row_key rw) k) eqn:Hc; [|done].
  assert (existsb (λ old, clashes (row_key old) k) rws = true); [|congruence].
  apply existsb_exists. exists rw. split; [by apply list_elem_of_In|done].
Qed.

(** What a loop that ends normally has added. *)
Lemma fill_Ok h l t t' :
  fill h l t = (Ok (), t') →
  columns t' = columns t ∧ cursor_coordinate t' = cursor_coordinate t
  ∧ ∃ new, rows t' = rows t ++ new
           ∧ Forall2 (λ r rw, ∃ x, h !! r = Some x ∧ row_of x = Ok rw) l new
           ∧ (keys_distinct (row_keys t) → keys_distinct (row_keys t')).
Proof.
  revert t. induction l as [|r l IH]; intros t H; simpl in H.
  - injection H as <-. repeat split. exists []. rewrite app_nil_r.
    repeat split; [constructor | done].
  - unfold heap_get in H. destruct (h !! r) as [x|] eqn:Hx; [|discriminate].
    simpl in H. destruct (row_of x) as [rw|] eqn:Hrw; [|discriminate].
    destruct (negb (Py.hashable (row_key rw))); [discriminate|].
    destruct (existsb _ (rows t)) eqn:Hc; [discriminate|].
    destruct (IH _ H) as (Hcol & Hcur & new & Hrows & Hall & Hd).
    simpl in *. split; [done|]. split; [done|].
    exists (rw :: new). rewrite Hrows, <- app_assoc. split; [done|].
    split; [constructor; eauto|].
    intros Hdt. apply Hd. unfold row_keys. simpl. rewrite fmap_app. simpl.
    apply keys_distinct_snoc; [done|]. by apply existsb_clashes_false.
Qed.

Lemma py_eq_str a i : Py.eq a (PStr i) = true ↔ a = PStr i.
Proof.
  destruct a as [|b|z|f|j|l|d]; simpl; try (split; discriminate).
  rewrite String.eqb_eq. split; congruence.
Qed.

Lemma row_of_key x rw : row_of x = Ok rw → row_key rw = Task.id x.
Proof.
  unfold row_of. destruct (if Py.truthy _ then _ else _); [|discriminate].
  simpl. destruct (Task.priority_icon x); [|discriminate].
  simpl. by intros [= <-].
Qed.

Lemma existsb_clashes_str (rws : list TableRow) i :
  existsb (λ old, clashes (row_key old) (PStr i)) rws = true
  ↔ PStr i ∈ row_key <$> rws.
Proof.
  rewrite existsb_exists. split.
  - intros (rw & Hin & Hc). simpl in Hc. apply py_eq_str in Hc.
    apply list_elem_of_fmap. exists rw. split; [done|by apply list_elem_of_In].
  - intros Hin. apply list_elem_of_fmap in Hin as (rw & Hk & Hin).
    exists rw. split; [by apply list_elem_of_In|]. simpl. by apply py_eq_str.
Qed.

Lemma fill_displayable h l vals t :
  Forall2 (λ r x, h !! r = Some x) l vals →
  Forall (λ x, displayable x = true) vals →
  (NoDup (row_keys t ++ (Task.id <$> vals)) → fst (fill h l t) = Ok ())
  ∧ (NoDup (row_keys t) → ¬ NoDup (row_keys t ++ (Task.id <$> vals)) →
     fst (fill h l t) = Raise DuplicateKey).
Proof.
  intros Hl. revert t. induction Hl as [|r x l vals Hr _ IH]; intros t Hd.
  - simpl. rewrite app_nil_r. split; [done|]. intros H1 H2. by destruct H2.
  - rewrite fmap_cons.
    inversion Hd as [|? ? Hx Hd']; subst. specialize (IH (mkTable (columns t)
      (rows t ++ [match row_of x with Ok rw => rw | Raise _ => mkRow PNone [] end])
      (cursor_coordinate t)) Hd').
    unfold displayable in Hx. apply andb_true_iff in Hx as [Hok Hstr].
    destruct (row_of x) as [rw|] eqn:Hrw; [|discriminate].
    pose proof (row_of_key x rw Hrw) as Hk.
    destruct (Task.id x) as [| | | |i| |] eqn:Hi; try discriminate.
    simpl fill. unfold heap_get. rewrite Hr. simpl. rewrite Hrw, Hk. simpl.
    assert (Hkeys : row_keys (mkTable (columns t) (rows t ++ [rw])
                               (cursor_coordinate t))
                    = row_keys t ++ [PStr i]).
    { unfold row_keys. simpl. rewrite fmap_app. simpl. by rewrite Hk. }
    rewrite Hkeys in IH. rewrite <- app_assoc in IH. simpl in IH.
    destruct (existsb _ (rows t)) eqn:Hc.
    + apply existsb_clashes_str in Hc. split; [|done].
      intros Hnd. apply NoDup_app in Hnd as (_ & Hdis & _).
      destruct (Hdis _ Hc). left.
    + destruct IH as [IH1 IH2]. split; [exact IH1|].
      intros Hnt Hnn. apply IH2; [|done].
      apply NoDup_app. split; [done|]. split; [|apply NoDup_singleton].
      intros a Ha Ha'. apply list_elem_of_singleton in Ha' as ->.
      apply existsb_clashes_str in Ha. unfold clashes in Ha.
      rewrite Ha in Hc. discriminate.
Qed.

Lemma refresh_table_Ok s :
  eval refresh_table s = Ok () →
  ∃ view t',
    filtered_view (heap s) (tasks s) (search_filter s) = Ok view
    ∧ fill (heap s) view
           (mkTable (columns (task_table s)) [] (mkCoordinate 0 0))
      = (Ok (), t')
    ∧ exec refresh_table s = with_task_table t' s.
Proof.
  unfold eval, exec. rewrite refresh_table_fill. cbv zeta.
  destruct (filtered_view (heap s) (tasks s) (search_filter s)) as [view|e]
    eqn:Hview; [|discriminate].
  destruct (fill (heap s) view _) as [[[]|e] t'] eqn:Hfill; [|discriminate].
  intros _. by exists view, t'.
Qed.

Lemma refresh_table_sync s :
  eval refresh_table s = Ok () → table_in_sync (exec refresh_table s).
Proof.
  intros H. destruct (refresh_table_Ok s H) as (view & t' & Hview & Hfill & ->).
  destruct (fill_Ok _ _ _ _ Hfill) as (_ & _ & new & Hrows & Hall & _).
  exists view. rewrite eval_get_filtered_tasks. simpl. split; [done|].
  simpl in Hrows. by rewrite Hrows.
Qed.

(** X14. When [refresh_table] returns normally the table shows the filtered
    view, its keys do not clash, its cursor is at the origin and its
    columns are those it had; nothing else has changed. *)
Theorem refresh_table_shows_view (s : App) :
  eval refresh_table s = Ok () →
  let s' := exec refresh_table s in
  table_in_sync s'
  ∧ keys_distinct (row_keys (task_table s'))
  ∧ cursor_coordinate (task_table s') = mkCoordinate 0 0
  ∧ columns (task_table s') = columns (task_table s)
  ∧ s' = with_task_table (task_table s') s.
Proof.
  intros H s'. split; [by apply refresh_table_sync|].
  subst s'. destruct (refresh_table_Ok s H) as (view & t' & Hview & Hfill & ->).
  destruct (fill_Ok _ _ _ _ Hfill) as (Hcol & Hcur & new & Hrows & Hall & Hd).
  simpl in *. split; [by apply Hd|done].
Qed.

Lemma refresh_table_shows_view_witness :
  cursor_coordinate (task_table (exec refresh_table st_search))
  = mkCoordinate 0 0.
Proof.
  refine (proj1 (proj2 (proj2 (refresh_table_shows_view st_search _)))).
  vm_compute. reflexivity.
Defined.

(** X15. On a view of displayable tasks (string ids, cells that can be
    formatted), [refresh_table] returns normally exactly when the ids are
    pairwise different, and raises [DuplicateKey] otherwise. *)
Theorem refresh_table_needs_distinct_ids (s : App) (view : list ref)
    (vals : list Task.t) :
  eval get_filtered_tasks s = Ok view →
  Forall2 (λ r x, heap s !! r = Some x) view vals →
  Forall (λ x, displayable x = true) vals →
  (NoDup (Task.id <$> vals) → eval refresh_table s = Ok ())
  ∧ (¬ NoDup (Task.id <$> vals) → eval refresh_table s = Raise DuplicateKey).
Proof.
  intros Hview Hl Hd. rewrite eval_get_filtered_tasks in Hview.
  unfold eval. rewrite refresh_table_fill. cbv zeta. rewrite Hview.
  destruct (fill_displayable (heap s) view vals
              (mkTable (columns (task_table s)) [] (mkCoordinate 0 0)) Hl Hd)
    as [H1 H2].
  split; intros H; simpl; [by apply H1 | apply H2; [constructor | done]].
Qed.

Lemma join_strs sep (l : list pyval) :
  forallb is_str l = true → is_Ok (Py.join sep (PList l)) = true.
Proof.
  intros H. unfold Py.join. simpl.
  assert (Hm : ∃ ss, mapR Py.as_str l = Ok ss).
  { induction l as [|v l IH]; simpl in *; [eauto|].
    apply andb_true_iff in H as [Hv Hl]. destruct v; try discriminate.
    destruct (IH Hl) as [ss Hss]. simpl. rewrite Hss. simpl. eauto. }
  destruct Hm as [ss ->]. reflexivity.
Qed.

Lemma searchable_row_of x :
  searchable x = true → Py.hashable (Task.priority x) = true →
  is_Ok (row_of x) = true.
Proof.
  unfold searchable, row_of, Task.priority_icon.
  destruct (Task.title x); try discriminate.
  destruct (Task.tags x) as [| | | | |l|]; try discriminate.
  intros Hs ->. destruct (Py.truthy (PList l)).
  - pose proof (join_strs ", " l Hs) as Hj.
    destruct (Py.join ", " (PList l)); [reflexivity|discriminate].
  - reflexivity.
Qed.

Lemma created_task_displayable n d now :
  displayable (created_task n d now) = true.
Proof.
  unfold displayable. rewrite searchable_row_of; [done| |done].
  unfold searchable. simpl. induction (td_tags d); simpl; auto.
Qed.

Lemma refresh_table_needs_distinct_ids_witness :
  eval refresh_table st_ABC = Ok ().
Proof.
  refine (proj1 (refresh_table_needs_distinct_ids st_ABC [0; 1; 2]%nat
                   [task_A; task_B; task_C] _ _ _) _).
  - vm_compute. reflexivity.
  - repeat constructor.
  - repeat constructor.
  - vm_compute. repeat constructor; intros H;
      repeat (apply elem_of_cons in H as [H|H]; [discriminate|]);
      by apply elem_of_nil in H.
Defined.

Lemma table_in_sync_part s s' :
  sync_part s' = sync_part s → table_in_sync s → table_in_sync s'.
Proof.
  unfold sync_part. intros [= Hh Ht Hq Hr] (view & Hv & Hall).
  exists view. rewrite eval_get_filtered_tasks in *.
  rewrite Hh, Ht, Hq, Hr. done.
Qed.

Lemma syncs_refresh_table : syncs refresh_table.
Proof.
  intros s H. apply refresh_table_sync.
  destruct (eval refresh_table s) as [[]|]; [done|discriminate].
Qed.

Lemma syncs_bind {A B} (m : M A) (f : A → M B) :
  (∀ a, syncs (f a)) → syncs (m ≫= f).
Proof.
  intros Hf s. unfold eval, exec, mbind, M_bind.
  destruct (m s) as [[a|e] s1]; [apply Hf | discriminate].
Qed.

Lemma syncs_then_keeps {A} (m : M unit) (k : M A) :
  syncs m → keeps sync_part k → syncs (m ;; k).
Proof.
  intros Hm Hk s. unfold eval, exec, mbind, M_bind.
  specialize (Hm s). unfold eval, exec in Hm.
  destruct (m s) as [[[]|e] s1]; [|discriminate]. simpl in Hm.
  intros _. eapply table_in_sync_part; [apply Hk | by apply Hm].
Qed.

Lemma update_detail_panel_keeps_sync : keeps sync_part update_detail_panel.
Proof. unfold update_detail_panel. frame. Qed.

Lemma handle_keeps_sync ev s :
  table_in_sync s → is_Ok (eval (handle ev) s) = true →
  table_in_sync (exec (handle ev) s).
Proof.
  intros Hs.
  destruct ev as [result now w|w|w|input_id value| |cursor_row]; simpl.
  - destruct result as [d|]; [|done].
    unfold action_add_task.
    repeat (first [apply syncs_refresh_table | apply syncs_bind; intros]).
  - unfold action_complete_task.
    revert s Hs. cut (∀ s, table_in_sync s → is_Ok (eval (action_complete_task w) s) = true → table_in_sync (exec (action_complete_task w) s)); [done|].
    intros s Hs. unfold action_complete_task, eval, exec.
    rewrite (bind_Ok get _ s s s) by reflexivity.
    destruct (current_task s) as [r|]; [|done].
    apply (syncs_bind (deref r)). intros task.
    apply syncs_bind. intros _. apply syncs_bind. intros _.
    apply syncs_then_keeps;
      [apply syncs_refresh_table | apply update_detail_panel_keeps_sync].
  - unfold eval, exec, action_delete_task.
    rewrite (bind_Ok get _ s s s) by reflexivity.
    destruct (current_task s) as [c|]; [|done].
    apply (syncs_bind (filter_each _ (tasks s))). intros kept.
    repeat (first [apply syncs_refresh_table | apply syncs_bind; intros]).
  - unfold on_input_changed. destruct (String.eqb _ _); [|done].
    apply syncs_bind. intros _. apply syncs_refresh_table.
  - unfold action_clear_search. apply syncs_bind. intros _.
    apply syncs_refresh_table.
  - intros _. eapply table_in_sync_part; [|exact Hs].
    assert (Hk : keeps sync_part (on_data_table_row_highlighted cursor_row)).
    { unfold on_data_table_row_highlighted, table_move_cursor_row,
        update_current_task, table_get_row_at, get_filtered_tasks,
        update_detail_panel. frame. }
    apply Hk.
Qed.

Lemma run_keeps_sync evs s :
  table_in_sync s → eval (run evs) s = Ok () →
  table_in_sync (exec (run evs) s).
Proof.
  revert s. induction evs as [|ev evs IH]; intros s Hs; [done|].
  simpl. pose proof (handle_keeps_sync ev s Hs) as H1.
  unfold eval, exec, mbind, M_bind in *.
  destruct (handle ev s) as [[[]|e] s1]; simpl in *; [|discriminate].
  apply IH. by apply H1.
Qed.

(** X16. In a session where no handler raised, the table shows the filtered
    view at the end: one row per task of the view, in order, built from
    the task as it is then. *)
Theorem session_table_in_sync (disk : option file) (clock : nat → string)
    (evs : list event) :
  eval (session clock evs) (init disk) = Ok () →
  table_in_sync (exec (session clock evs) (init disk)).
Proof.
  unfold session, eval, exec. unfold mbind at 1 2, M_bind at 1 2.
  destruct (on_mount clock (init disk)) as [[[]|e] s1] eqn:Hm; [|discriminate].
  apply run_keeps_sync.
  assert (Hs : syncs (on_mount clock)).
  { unfold on_mount. apply syncs_bind. intros _. apply syncs_bind. intros _.
    apply syncs_refresh_table. }
  specialize (Hs (init disk)). unfold eval, exec in Hs. rewrite Hm in Hs.
  by apply Hs.
Qed.

Lemma session_table_in_sync_witness :
  table_in_sync (exec (session sample_clock sample_events)
                   (init (tasks_file st_ABC))).
Proof.
  apply session_table_in_sync. vm_compute. reflexivity.
Defined.

Lemma pairwise_lookup {A} (R : A → A → Prop) l :
  pairwise R l ↔
  ∀ i j a b, (i < j)%nat → l !! i = Some a → l !! j = Some b → R a b.
Proof.
  induction l as [|x l IH]; simpl.
  - split; [intros _ i j a b _ Hi; by rewrite lookup_nil in Hi | done].
  - split.
    + intros [Hx Hl] i j a b Hij Hi Hj.
      destruct j as [|j]; [lia|]. simpl in Hj.
      destruct i as [|i]; simpl in Hi.
      * injection Hi as <-. rewrite Forall_forall in Hx. apply Hx.
        by eapply list_elem_of_lookup_2.
      * apply (proj1 IH Hl i j); [lia|done|done].
    + intros H. split.
      * apply Forall_forall. intros y Hy.
        apply list_elem_of_lookup in Hy as [j Hj].
        apply (H 0%nat (S j)); [lia|done|done].
      * apply IH. intros i j a b Hij Hi Hj.
        apply (H (S i) (S j)); [lia|done|done].
Qed.

Lemma float_eq_sym f g : Py.float_eq f g = Py.float_eq g f.
Proof.
  destruct f as [|a|m1 e1], g as [|b|m2 e2]; simpl; try reflexivity.
  - by destruct a, b.
  - rewrite (Z.min_comm e2 e1). apply Z.eqb_sym.
Qed.

Lemma py_eq_sym_int a b n m :
  Py.int a = Ok n → Py.int b = Ok m → Py.eq a b = Py.eq b a.
Proof.
  intros Ha Hb.
  destruct a as [|x|x|x|x|x|x]; try discriminate;
    destruct b as [|y|y|y|y|y|y]; try discriminate;
    first [ apply float_eq_sym | apply String.eqb_sym | reflexivity ].
Qed.

Lemma filter_each_sublist {A} (p : A → M bool) l s kept s' :
  filter_each p l s = (Ok kept, s') → kept `sublist_of` l.
Proof.
  revert s kept s'. induction l as [|y l IH]; intros s kept s' H; simpl in H.
  - injection H as <- _. done.
  - unfold mbind at 1, M_bind at 1 in H.
    destruct (p y s) as [[b|e] s1]; [|discriminate].
    unfold mbind at 1, M_bind at 1 in H.
    destruct (filter_each p l s1) as [[ys|e] s2] eqn:Hl; [|discriminate].
    injection H as <- _. specialize (IH _ _ _ Hl).
    destruct b; [by apply sublist_skip | by apply sublist_cons].
Qed.

Lemma ids_fresh_sub s s' :
  heap s' = heap s → tasks s' `sublist_of` tasks s →
  task_counter s' = task_counter s → ids_fresh s → ids_fresh s'.
Proof.
  intros Hh Ht Hc [H1 H2]. unfold ids_fresh, collection_ids in *.
  rewrite Hh, Hc.
  assert (Hsub : ((λ r, Task.id <$> heap s !! r) <$> tasks s')
                   `sublist_of` ((λ r, Task.id <$> heap s !! r) <$> tasks s))
    by (by apply fmap_sublist).
  split.
  - apply Forall_forall. intros o Ho. rewrite Forall_forall in H1.
    apply H1. by eapply elem_of_sublist.
  - by eapply pairwise_sublist.
Qed.

Lemma ids_fresh_keeps {A} (m : M A) s :
  keeps (λ s, (heap s, tasks s, task_counter s)) m →
  ids_fresh s → ids_fresh (exec m s).
Proof.
  intros Hk. specialize (Hk s). injection Hk as Hh Ht Hc.
  apply ids_fresh_sub; [done| |done]. unfold exec. by rewrite Ht.
Qed.

Lemma action_delete_task_ids_fresh w s :
  ids_fresh s → ids_fresh (exec (action_delete_task w) s).
Proof.
  intros Hok. destruct (current_task s) as [c|] eqn:Hc.
  - unfold exec, action_delete_task.
    rewrite (bind_Ok get _ s s s) by reflexivity. rewrite Hc.
    unfold mbind at 1, M_bind at 1.
    destruct (filter_each _ (tasks s) s) as [[kept|e] s1] eqn:Hf.
    + pose proof (filter_each_sublist _ _ _ _ _ Hf) as Hsub.
      assert (Hs1 : s1 = s).
      { pose proof (delete_comprehension_state c (tasks s) s) as Hk.
        by rewrite Hf in Hk. }
      subst s1.
      pose proof (after_bind memory (modify (with_tasks kept))
                    (λ _, save_tasks w ;; refresh_table) s
                    (λ _, save_refresh_keeps_memory w)) as Hm.
      unfold memory, exec in Hm. injection Hm as Hh Ht _ _ Hn.
      eapply ids_fresh_sub; [exact Hh | | exact Hn | exact Hok].
      rewrite Ht. exact Hsub.
    + simpl.
      assert (Hs1 : s1 = s).
      { pose proof (delete_comprehension_state c (tasks s) s) as Hk.
        by rewrite Hf in Hk. }
      by subst.
  - unfold exec. by rewrite action_delete_task_no_selection.
Qed.

Lemma action_complete_task_ids_fresh w s :
  ids_fresh s → ids_fresh (exec (action_complete_task w) s).
Proof.
  intros Hok. destruct (current_task s) as [c|] eqn:Hc.
  - destruct (heap s !! c) as [task|] eqn:Hr.
    + pose proof (action_complete_task_memory w s c task Hc Hr) as Hm.
      set (s' := exec (action_complete_task w) s) in *.
      unfold memory in Hm. injection Hm as Hh Ht _ _ Hn.
      assert (Hids : collection_ids s' = collection_ids s).
      { unfold collection_ids. rewrite Hh, Ht. apply list_fmap_ext.
        intros _ r _. destruct (decide (r = c)) as [->|Hne].
        - rewrite list_lookup_insert_eq by (by eapply lookup_lt_Some).
          by rewrite Hr.
        - by rewrite list_lookup_insert_ne. }
      unfold ids_fresh. rewrite Hids, Hn. exact Hok.
    + unfold exec, action_complete_task.
      rewrite !(bind_Ok get _ s s s) by reflexivity. rewrite Hc.
      assert (Hd : deref c s = (Raise KeyError, s))
        by (unfold deref; by rewrite Hr).
      by rewrite !(bind_Raise _ _ _ _ _ Hd).
  - unfold exec. by rewrite action_complete_task_no_selection.
Qed.

Lemma action_add_task_ids_fresh result now w s :
  ids_fresh s → ids_fresh (exec (action_add_task result now w) s).
Proof.
  intros [H1 H2]. destruct result as [d|]; [|done].
  pose proof (action_add_task_memory w s d now) as Hm.
  set (s' := exec (action_add_task (Some d) now w) s) in *.
  unfold memory in Hm. injection Hm as Hh Ht _ _ Hn.
  assert (Hids : collection_ids s'
                 = collection_ids s ++ [Some (PStr (Str.of_int (task_counter s)))]).
  { unfold collection_ids. rewrite Hh, Ht, fmap_app. f_equal.
    - apply Forall_fmap_ext. rewrite Forall_forall. intros r Hr.
      rewrite Forall_forall in H1.
      destruct (H1 (Task.id <$> heap s !! r)) as (v & n & Hv & _).
      { apply list_elem_of_fmap. by exists r. }
      destruct (heap s !! r) as [x|] eqn:Hx; [|discriminate].
      by rewrite (lookup_app_l_Some _ _ _ _ Hx).
    - simpl. by rewrite list_lookup_middle. }
  unfold ids_fresh. rewrite Hids, Hn. split.
  - apply Forall_app. split.
    + eapply Forall_impl; [exact H1|]. intros o Ho. simpl in Ho.
      destruct Ho as (v & n & Hv & Hi & Hlt). exists v, n. repeat split; [done|done|lia].
    + constructor; [|constructor].
      eexists _, _. split; [reflexivity|]. split; [apply int_of_created_id|lia].
  - apply pairwise_snoc; [done|].
    eapply Forall_impl; [exact H1|]. intros o Ho. simpl in Ho.
    destruct Ho as (v & n & -> & Hi & Hlt). intros v' w' [= <-] [= <-].
    destruct (Py.eq v (PStr (Str.of_int (task_counter s)))) eqn:He; [|done].
    apply py_eq_str in He. subst v. rewrite int_of_created_id in Hi.
    injection Hi as <-. lia.
Qed.

Lemma handle_ids_fresh ev s : ids_fresh s → ids_fresh (exec (handle ev) s).
Proof.
  intros Hok. destruct ev as [result now w|w|w|input_id value| |cursor_row]; simpl.
  - by apply action_add_task_ids_fresh.
  - by apply action_complete_task_ids_fresh.
  - by apply action_delete_task_ids_fresh.
  - apply ids_fresh_keeps; [|done].
    unfold on_input_changed, refresh_table, table_clear, get_filtered_tasks,
      table_add_row, table_move_cursor_row, update_current_task,
      table_get_row_at, update_detail_panel. frame.
  - apply ids_fresh_keeps; [|done].
    unfold action_clear_search, refresh_table, table_clear,
      get_filtered_tasks, table_add_row, table_move_cursor_row,
      update_current_task, table_get_row_at, update_detail_panel. frame.
  - apply ids_fresh_keeps; [|done].
    unfold on_data_table_row_highlighted, table_move_cursor_row,
      update_current_task, table_get_row_at, get_filtered_tasks,
      update_detail_panel. frame.
Qed.

Lemma run_ids_fresh evs s : ids_fresh s → ids_fresh (exec (run evs) s).
Proof.
  revert s. induction evs as [|ev evs IH]; intros s Hok; [done|].
  simpl. pose proof (handle_ids_fresh ev s Hok) as H1.
  unfold exec, mbind, M_bind in *.
  destruct (handle ev s) as [[[]|e] s1]; simpl in *; [by apply IH | done].
Qed.

Lemma alloc_all_keeps_search_filter l : keeps search_filter (alloc_all l).
Proof.
  induction l as [|x l IH]; simpl; [apply keeps_ret|].
  apply keeps_bind; [by intros s | intros r].
  apply keeps_bind; [exact IH | intros rs; apply keeps_ret].
Qed.

Lemma load_tasks_keeps_search_filter clock :
  keeps search_filter (load_tasks clock).
Proof.
  unfold load_tasks, json_load.
  repeat first [apply alloc_all_keeps_search_filter | frame_step].
Qed.

Lemma load_tasks_ids_below clock s :
  tasks s = [] → eval (load_tasks clock) s = Ok () →
  let s1 := exec (load_tasks clock) s in
  Forall (λ o, ∃ v n, o = Some v ∧ Py.int v = Ok n ∧ n < task_counter s1)
         (collection_ids s1).
Proof.
  intros Hts Hok s1.
  destruct (load_tasks_counter clock s Hts Hok)
    as [[Ht _]|(ids & _ & Hall & _ & Hlt)]; fold s1 in Ht || fold s1 in Hall, Hlt.
  - unfold collection_ids. rewrite Ht. constructor.
  - apply Forall_forall. intros o Ho. unfold collection_ids in Ho.
    apply list_elem_of_fmap in Ho as (r & -> & Hr).
    apply list_elem_of_lookup in Hr as [i Hi].
    assert (Hci : collection s1 !! i = Some (heap s1 !! r))
      by (unfold collection; by rewrite list_lookup_fmap, Hi).
    destruct (Forall2_lookup_l _ _ _ _ _ Hall Hci) as (n & Hn & x & Hx & Hint).
    rewrite Hx. exists (Task.id x), n. repeat split; [done|].
    apply Hlt. by eapply list_elem_of_lookup_2.
Qed.

Lemma fill_ids_distinct h l t0 t' :
  rows t0 = [] → fill h l t0 = (Ok (), t') →
  pairwise (λ a b, ∀ v w, a = Some v → b = Some w → clashes v w = false)
           ((λ r, Task.id <$> h !! r) <$> l).
Proof.
  intros Hrows Hfill.
  destruct (fill_Ok _ _ _ _ Hfill) as (_ & _ & new & Hnew & Hall & Hd).
  rewrite Hrows in Hnew. simpl in Hnew.
  assert (Hk : keys_distinct (row_keys t')).
  { apply Hd. unfold row_keys. by rewrite Hrows. }
  unfold row_keys in Hk. rewrite Hnew in Hk.
  unfold keys_distinct in Hk. rewrite pairwise_lookup in Hk.
  apply pairwise_lookup. intros i j a b Hij Hi Hj v w -> ->.
  rewrite list_lookup_fmap in Hi, Hj.
  destruct (l !! i) as [ri|] eqn:Hri; [|discriminate].
  destruct (l !! j) as [rj|] eqn:Hrj; [|discriminate].
  simpl in Hi, Hj. injection Hi as Hi. injection Hj as Hj.
  destruct (Forall2_lookup_l _ _ _ _ _ Hall Hri) as (rwi & Hrwi & x & Hx & Hrx).
  destruct (Forall2_lookup_l _ _ _ _ _ Hall Hrj) as (rwj & Hrwj & y & Hy & Hry).
  rewrite Hx in Hi. rewrite Hy in Hj. simpl in Hi, Hj.
  injection Hi as <-. injection Hj as <-.
  rewrite <- (row_of_key _ _ Hrx), <- (row_of_key _ _ Hry).
  apply (Hk i j); [done| |]; rewrite list_lookup_fmap.
  - by rewrite Hrwi.
  - by rewrite Hrwj.
Qed.

Lemma on_mount_ids_fresh disk clock :
  eval (on_mount clock) (init disk) = Ok () →
  ids_fresh (exec (on_mount clock) (init disk)).
Proof.
  intros Hok. unfold eval, exec in *.
  destruct (on_mount clock (init disk)) as [[[]|e] s1] eqn:Hm; [|discriminate].
  clear Hok. simpl.
  unfold on_mount in Hm. unfold mbind at 1, M_bind at 1 in Hm.
  destruct (load_tasks clock (init disk)) as [[[]|e] s0] eqn:Hl; [|discriminate].
  assert (Hq : search_filter s0 = EmptyString).
  { pose proof (load_tasks_keeps_search_filter clock (init disk)) as H.
    by rewrite Hl in H. }
  assert (H0 : Forall (λ o, ∃ v n, o = Some v ∧ Py.int v = Ok n
                                   ∧ n < task_counter s0) (collection_ids s0)).
  { pose proof (load_tasks_ids_below clock (init disk) eq_refl) as H.
    unfold eval, exec in H. rewrite Hl in H. by apply H. }
  unfold mbind at 1, M_bind at 1 in Hm.
  destruct (setup_table s0) as [[[]|e] s0'] eqn:Hs; [|discriminate].
  assert (Hs' : s0' = with_task_table (task_table s0') s0
                ∧ rows (task_table s0') = rows (task_table s0)).
  { unfold setup_table, table_add_columns in Hs. vm_compute in Hs.
    injection Hs as <-. by destruct s0. }
  assert (Hr : eval refresh_table s0' = Ok ())
    by (unfold eval; by rewrite Hm).
  destruct (refresh_table_Ok s0' Hr) as (view & t' & Hv & Hfill & Hex).
  unfold exec in Hex. rewrite Hm in Hex. simpl in Hex.
  destruct Hs' as [Hs' _].
  assert (Hh : heap s0' = heap s0) by (rewrite Hs'; by destruct s0).
  assert (Ht : tasks s0' = tasks s0) by (rewrite Hs'; by destruct s0).
  assert (Hf : search_filter s0' = search_filter s0)
    by (rewrite Hs'; by destruct s0).
  assert (Hn : task_counter s0' = task_counter s0)
    by (rewrite Hs'; by destruct s0).
  rewrite Hh, Ht, Hf, Hq in Hv. unfold filtered_view in Hv. simpl in Hv.
  injection Hv as <-. rewrite Hh in Hfill.
  assert (Hids : collection_ids s1 = collection_ids s0).
  { unfold collection_ids. rewrite Hex. destruct s0'; simpl in *. by subst. }
  assert (Hn1 : task_counter s1 = task_counter s0).
  { rewrite Hex. destruct s0'; simpl in *. by subst. }
  unfold ids_fresh. rewrite Hids, Hn1. split; [exact H0|].
  pose proof (fill_ids_distinct _ _ _ _ (eq_refl : rows (mkTable _ [] _) = []) Hfill) as Hp.
  rewrite pairwise_lookup in Hp. apply pairwise_lookup.
  intros i j a b Hij Hi Hj v w -> ->.
  specialize (Hp i j _ _ Hij Hi Hj v w eq_refl eq_refl).
  rewrite Forall_forall in H0.
  destruct (H0 (Some w)) as (w' & n & [= <-] & Hint & _);
    [by eapply list_elem_of_lookup_2|].
  unfold clashes in Hp. by destruct w.
Qed.

Lemma session_ids_fresh disk clock evs :
  eval (on_mount clock) (init disk) = Ok () →
  ids_fresh (exec (session clock evs) (init disk)).
Proof.
  intros Hok. pose proof (on_mount_ids_fresh disk clock Hok) as H.
  unfold session, eval, exec in *. unfold mbind at 1, M_bind at 1.
  destruct (on_mount clock (init disk)) as [[[]|e] s1] eqn:Hm; [|discriminate].
  by apply run_ids_fresh.
Qed.

Lemma ids_fresh_lookup s i r :
  ids_fresh s → tasks s !! i = Some r →
  ∃ x n, heap s !! r = Some x ∧ Py.int (Task.id x) = Ok n
         ∧ n < task_counter s.
Proof.
  intros [H1 _] Hi. rewrite Forall_forall in H1.
  destruct (H1 (Task.id <$> heap s !! r)) as (v & n & Hv & Hint & Hlt).
  { unfold collection_ids. apply list_elem_of_fmap. exists r.
    split; [done|]. by eapply list_elem_of_lookup_2. }
  destruct (heap s !! r) as [x|]; [|discriminate].
  injection Hv as <-. eauto.
Qed.

Lemma ids_fresh_distinct s i j a b x y :
  ids_fresh s → i ≠ j → tasks s !! i = Some a → tasks s !! j = Some b →
  heap s !! a = Some x → heap s !! b = Some y →
  Py.eq (Task.id x) (Task.id y) = false.
Proof.
  intros Hf Hij Hi Hj Hx Hy.
  destruct (ids_fresh_lookup s i a Hf Hi) as (x' & n & Hx' & Hn & _).
  destruct (ids_fresh_lookup s j b Hf Hj) as (y' & m & Hy' & Hm & _).
  assert (x' = x) by congruence. assert (y' = y) by congruence. subst.
  destruct Hf as [_ Hp]. rewrite pairwise_lookup in Hp.
  assert (Hci : ∀ k r z, tasks s !! k = Some r → heap s !! r = Some z →
                         collection_ids s !! k = Some (Some (Task.id z))).
  { intros k r z Hk Hz. unfold collection_ids.
    by rewrite list_lookup_fmap, Hk; simpl; rewrite Hz. }
  destruct (decide (i < j)%nat) as [Hlt|Hge].
  - exact (Hp i j _ _ Hlt (Hci _ _ _ Hi Hx) (Hci _ _ _ Hj Hy) _ _ eq_refl eq_refl).
  - rewrite (py_eq_sym_int _ _ _ _ Hn Hm).
    assert (Hlt : (j < i)%nat) by lia.
    exact (Hp j i _ _ Hlt (Hci _ _ _ Hj Hy) (Hci _ _ _ Hi Hx) _ _ eq_refl eq_refl).
Qed.

(** X17. After a mount that returned normally and any events, no two elements
    of the collection have equal ids. *)
Theorem session_ids_distinct (disk : option file) (clock : nat → string)
    (evs : list event) :
  eval (on_mount clock) (init disk) = Ok () →
  let s := exec (session clock evs) (init disk) in
  ∀ i j a b, i ≠ j → tasks s !! i = Some a → tasks s !! j = Some b →
    ∃ x y, heap s !! a = Some x ∧ heap s !! b = Some y
           ∧ Py.eq (Task.id x) (Task.id y) = false.
Proof.
  intros Hok s i j a b Hij Hi Hj.
  pose proof (session_ids_fresh disk clock evs Hok) as Hf. fold s in Hf.
  destruct (ids_fresh_lookup s i a Hf Hi) as (x & n & Hx & _).
  destruct (ids_fresh_lookup s j b Hf Hj) as (y & m & Hy & _).
  exists x, y. repeat split; [done|done|].
  by eapply ids_fresh_distinct.
Qed.

(** X18. After a mount that returned normally and any events, the counter is
    above the integer reading of every id of the collection, so the id
    the next [action_add_task] allocates is new. *)
Theorem session_counter_above_ids (disk : option file)
    (clock : nat → string) (evs : list event) :
  eval (on_mount clock) (init disk) = Ok () →
  let s := exec (session clock evs) (init disk) in
  ∀ r, r ∈ tasks s →
    ∃ x n, heap s !! r = Some x ∧ Py.int (Task.id x) = Ok n
           ∧ n < task_counter s.
Proof.
  intros Hok s r Hr. apply list_elem_of_lookup in Hr as [i Hi].
  eapply ids_fresh_lookup; [|exact Hi].
  by apply session_ids_fresh.
Qed.

Lemma py_eq_refl_int v n : Py.int v = Ok n → Py.eq v v = true.
Proof.
  destruct v as [|b|z|f|x|l|d]; try discriminate; simpl.
  - intros _. apply Z.eqb_refl.
  - intros _. apply Z.eqb_refl.
  - destruct f as [|a|m e]; try discriminate. intros _. simpl.
    apply Z.eqb_refl.
  - intros _. apply String.eqb_refl.
Qed.

Lemma filter_all {A} (p : A → bool) l :
  (∀ x, x ∈ l → p x = true) → List.filter p l = l.
Proof.
  induction l as [|x l IH]; intros H; simpl; [done|].
  rewrite (H x) by left. f_equal. apply IH. intros y Hy. apply H. by right.
Qed.

Lemma filter_drops_index {A} (p : A → bool) l (k : nat) c :
  l !! k = Some c → p c = false →
  (∀ i x, i ≠ k → l !! i = Some x → p x = true) →
  List.filter p l = delete k l.
Proof.
  revert k. induction l as [|x l IH]; intros k Hk Hc Hall; [done|].
  destruct k as [|k]; simpl in *.
  - injection Hk as ->. rewrite Hc. apply filter_all. intros y Hy.
    apply list_elem_of_lookup in Hy as [i Hi]. by apply (Hall (S i)).
  - rewrite (Hall 0%nat x) by done. f_equal. apply IH; [done|done|].
    intros i y Hi Hy. apply (Hall (S i)); [lia|done].
Qed.

Lemma ids_fresh_refs_valid s : ids_fresh s → refs_valid s.
Proof.
  intros Hf r Hr. apply list_elem_of_lookup in Hr as [i Hi].
  destruct (ids_fresh_lookup s i r Hf Hi) as (x & _ & Hx & _). eauto.
Qed.

(** X19. In the states a session reaches after a normal mount, deleting
    removes the selected element of the collection and nothing else; the
    other elements keep their order. *)
Theorem session_delete_removes_only_selection (disk : option file)
    (clock : nat → string) (evs : list event) (w : write_outcome)
    (k : nat) (c : ref) :
  eval (on_mount clock) (init disk) = Ok () →
  let s := exec (session clock evs) (init disk) in
  current_task s = Some c → tasks s !! k = Some c →
  tasks (exec (action_delete_task w) s) = delete k (tasks s).
Proof.
  intros Hok s Hc Hk.
  pose proof (session_ids_fresh disk clock evs Hok) as Hf. fold s in Hf.
  destruct (ids_fresh_lookup s k c Hf Hk) as (cur & n & Hcur & Hn & _).
  pose proof (action_delete_task_memory w s c cur Hc Hcur
                (ids_fresh_refs_valid s Hf)) as Hm.
  unfold memory in Hm. injection Hm as _ Ht _ _ _. rewrite Ht.
  apply (filter_drops_index _ _ k c Hk).
  - unfold other_id. rewrite Hcur. by rewrite (py_eq_refl_int _ _ Hn).
  - intros i r Hi Hr.
    destruct (ids_fresh_lookup s i r Hf Hr) as (x & m & Hx & _).
    unfold other_id. rewrite Hx.
    by rewrite (ids_fresh_distinct s i k r c x cur Hf Hi Hr Hk Hx Hcur).
Qed.

Lemma session_ids_distinct_witness :
  ∃ x y, heap st_session !! 1%nat = Some x ∧ heap st_session !! 4%nat = Some y
         ∧ Py.eq (Task.id x) (Task.id y) = false.
Proof.
  assert (H0 : eval (on_mount sample_clock) (init (tasks_file st_ABC)) = Ok ())
    by (vm_compute; reflexivity).
  assert (H1 : (0 ≠ 3)%nat) by lia.
  assert (H2 : tasks st_session !! 0%nat = Some 1%nat)
    by (vm_compute; reflexivity).
  assert (H3 : tasks st_session !! 3%nat = Some 4%nat)
    by (vm_compute; reflexivity).
  exact (session_ids_distinct (tasks_file st_ABC) sample_clock sample_events
           H0 0%nat 3%nat 1%nat 4%nat H1 H2 H3).
Defined.

Lemma session_counter_above_ids_witness :
  ∃ x n, heap st_session !! 4%nat = Some x ∧ Py.int (Task.id x) = Ok n
         ∧ n < task_counter st_session.
Proof.
  assert (H0 : eval (on_mount sample_clock) (init (tasks_file st_ABC)) = Ok ())
    by (vm_compute; reflexivity).
  assert (H1 : 4%nat ∈ tasks st_session)
    by (vm_compute; repeat constructor).
  exact (session_counter_above_ids (tasks_file st_ABC) sample_clock
           sample_events H0 4%nat H1).
Defined.

Lemma session_delete_removes_only_selection_witness :
  tasks (exec (action_delete_task WriteOk)
           (exec (session sample_clock events_ABC) (init None)))
  = delete 1%nat (tasks (exec (session sample_clock events_ABC) (init None))).
Proof.
  assert (H0 : eval (on_mount sample_clock) (init None) = Ok ())
    by (vm_compute; reflexivity).
  assert (H1 : current_task (exec (session sample_clock events_ABC) (init None))
               = Some 1%nat) by (vm_compute; reflexivity).
  assert (H2 : tasks (exec (session sample_clock events_ABC) (init None))
               !! 1%nat = Some 1%nat) by (vm_compute; reflexivity).
  exact (session_delete_removes_only_selection None sample_clock events_ABC
           WriteOk 1%nat 1%nat H0 H1 H2).
Defined.

Lemma row_of_cells x rw : row_of x = Ok rw → ∃ c cells, row_cells rw = c :: cells.
Proof.
  unfold row_of. intros H.
  destruct (if Py.truthy (Task.tags x) then _ else _) as [tg|]; [|discriminate].
  simpl in H. destruct (Task.priority_icon x) as [p|]; [|discriminate].
  simpl in H. injection H as <-. simpl. eauto.
Qed.

Lemma table_get_row_at_out s z :
  ¬ (0 ≤ z < Z.of_nat (length (rows (task_table s)))) →
  table_get_row_at z s = (Raise RowDoesNotExist, s).
Proof.
  intros H. unfold table_get_row_at.
  rewrite (bind_Ok get _ s s s) by reflexivity.
  destruct ((0 <=? z) && (z <? Z.of_nat (length (rows (task_table s)))))
    eqn:Hb; [|done].
  apply andb_true_iff in Hb as [H1 H2].
  apply Z.leb_le in H1. apply Z.ltb_lt in H2. lia.
Qed.

(** X20. When the table shows the view, highlighting row [z] selects the
    element of the view at that position. A row the table does not have
    raises [RowDoesNotExist] and leaves the selection as it was. *)
Theorem highlight_selects_row (s : App) (view : list ref) (z : Z) :
  table_in_sync s → eval get_filtered_tasks s = Ok view →
  let s' := exec (on_data_table_row_highlighted z) s in
  (0 ≤ z < Z.of_nat (length view) → current_task s' = view !! Z.to_nat z)
  ∧ (¬ (0 ≤ z < Z.of_nat (length view)) →
     eval (on_data_table_row_highlighted z) s = Raise RowDoesNotExist
     ∧ current_task s' = current_task s).
Proof.
  intros (view0 & Hv0 & Hall) Hv s'.
  assert (view0 = view) by congruence. subst view0.
  set (s1 := with_task_table
               (mkTable (columns (task_table s)) (rows (task_table s))
                        (mkCoordinate z (column (cursor_coordinate (task_table s)))))
               s).
  assert (Hstep : on_data_table_row_highlighted z s = update_current_task s1).
  { unfold on_data_table_row_highlighted.
    by rewrite (bind_Ok (table_move_cursor_row z) _ s () s1). }
  assert (Hrows : rows (task_table s1) = rows (task_table s))
    by (by destruct s).
  assert (Hv1 : eval get_filtered_tasks s1 = Ok view).
  { rewrite eval_get_filtered_tasks in *. by destruct s. }
  assert (Hrow : row (cursor_coordinate (task_table s1)) = z)
    by (by destruct s).
  pose proof (Forall2_length _ _ _ Hall) as Hlen.
  subst s'. unfold exec, eval. rewrite Hstep. split.
  - intros Hz.
    destruct (lookup_lt_is_Some_2 (rows (task_table s)) (Z.to_nat z))
      as [rw Hrw]; [lia|].
    destruct (lookup_lt_is_Some_2 view (Z.to_nat z)) as [r Hr]; [lia|].
    destruct (Forall2_lookup_lr _ _ _ _ _ _ Hall Hr Hrw) as (x & Hx & Hrx).
    destruct (row_of_cells _ _ Hrx) as (c & cells & Hcells).
    apply (update_current_task_is_positional s1 (Z.to_nat z) rw c cells view);
      [rewrite Hrow; lia | by rewrite Hrows | done | done].
  - intros Hz. unfold update_current_task.
    rewrite (bind_Ok get _ s1 s1 s1) by reflexivity.
    change (Coordinate_truthy (cursor_coordinate (task_table s1))) with true.
    cbn iota. rewrite Hrow.
    assert (Hg : table_get_row_at z s1 = (Raise RowDoesNotExist, s1)).
    { apply table_get_row_at_out. rewrite Hrows, <- Hlen. exact Hz. }
    rewrite (bind_Raise _ _ _ _ _ (bind_Raise _ _ _ _ _ Hg)).
    split; [done | by destruct s].
Qed.

Lemma highlight_selects_row_witness :
  current_task (exec (on_data_table_row_highlighted 2) st_ABC) = Some 2%nat.
Proof.
  assert (Hs : table_in_sync st_ABC).
  { exists [0; 1; 2]%nat. split; [vm_compute; reflexivity|].
    repeat constructor; eexists; split; vm_compute; reflexivity. }
  assert (Hv : eval get_filtered_tasks st_ABC = Ok [0; 1; 2]%nat)
    by (vm_compute; reflexivity).
  refine (proj1 (highlight_selects_row st_ABC [0; 1; 2]%nat 2 Hs Hv) _).
  simpl. lia.
Defined.

Lemma bind_inv_Ok {A B} (m : M A) (f : A → M B) s b :
  eval (m ≫= f) s = Ok b →
  ∃ a s', m s = (Ok a, s') ∧ (m ≫= f) s = f a s'.
Proof.
  unfold eval, mbind, M_bind. destruct (m s) as [[a|e] s']; [eauto|discriminate].
Qed.

(** X21. When toggling returns normally, the detail panel shows the selected
    task with its new status. *)
Theorem toggle_updates_detail_panel (s : App) (w : write_outcome) (r : ref)
    (task : Task.t) :
  current_task s = Some r → heap s !! r = Some task →
  eval (action_complete_task w) s = Ok () →
  detail_content (exec (action_complete_task w) s)
  = Some (Task.set_completed (PBool (negb (Py.truthy (Task.completed task))))
                             task).
Proof.
  intros Hc Hr. unfold eval, exec, action_complete_task.
  rewrite (bind_Ok get _ s s s) by reflexivity. rewrite Hc.
  rewrite (bind_Ok _ _ _ _ _ (deref_Ok r task s Hr)).
  set (task' := Task.set_completed _ task).
  erewrite bind_Ok by reflexivity.
  set (s1 := with_heap (<[r:=task']> (heap s)) s).
  assert (Hm1 : memory s1 = (<[r:=task']> (heap s), tasks s, Some r,
                             search_filter s, task_counter s))
    by (unfold memory; destruct s; simpl in *; congruence).
  pose proof (save_tasks_keeps_memory w s1) as Hk1.
  intros Hok. destruct (bind_inv_Ok _ _ _ _ Hok) as ([] & s2 & Hs2 & Heq).
  unfold eval in Hok. rewrite Heq in *. rewrite Hs2 in Hk1. simpl in Hk1.
  clear Heq. pose proof (refresh_table_keeps_memory s2) as Hk2.
  destruct (bind_inv_Ok _ _ _ _ Hok) as ([] & s3 & Hs3 & Heq).
  unfold eval in Hok. rewrite Heq in *. rewrite Hs3 in Hk2. simpl in Hk2.
  clear Heq. revert Hok.
  assert (Hm3 : memory s3 = (<[r:=task']> (heap s), tasks s, Some r,
                             search_filter s, task_counter s)) by congruence.
  unfold memory in Hm3. injection Hm3 as Hh3 _ Hc3 _ _.
  unfold update_detail_panel.
  rewrite (bind_Ok get _ s3 s3 s3) by reflexivity. rewrite Hc3.
  assert (Hd : deref r s3 = (Ok task', s3)).
  { apply deref_Ok. rewrite Hh3. apply list_lookup_insert_eq.
    by eapply lookup_lt_Some. }
  rewrite (bind_Ok _ _ _ _ _ Hd).
  unfold mbind, M_bind, lift.
  destruct (format_details task') as [[]|e]; [|discriminate].
  intros _. reflexivity.
Qed.

Lemma toggle_updates_detail_panel_witness :
  detail_content (exec (action_complete_task WriteOk) st_ABC)
  = Some (Task.set_completed (PBool true) task_B).
Proof.
  assert (H1 : current_task st_ABC = Some 1%nat) by (vm_compute; reflexivity).
  assert (H2 : heap st_ABC !! 1%nat = Some task_B) by (vm_compute; reflexivity).
  assert (H3 : eval (action_complete_task WriteOk) st_ABC = Ok ())
    by (vm_compute; reflexivity).
  exact (toggle_updates_detail_panel st_ABC WriteOk 1%nat task_B H1 H2 H3).
Defined.

(** X22. When clearing the search returns normally, the filter is empty, the
    view is the whole collection and the table has one row per task of
    the collection, in order; the tasks, the selection and the counter
    are as before. *)
Theorem clear_search_shows_all (s : App) :
  eval action_clear_search s = Ok () →
  let s' := exec action_clear_search s in
  search_filter s' = EmptyString
  ∧ eval get_filtered_tasks s' = Ok (tasks s)
  ∧ Forall2 (λ r rw, ∃ x, heap s !! r = Some x ∧ row_of x = Ok rw)
            (tasks s) (rows (task_table s'))
  ∧ (heap s', tasks s', current_task s', task_counter s')
    = (heap s, tasks s, current_task s, task_counter s).
Proof.
  unfold eval, exec, action_clear_search.
  set (s1 := with_search_filter EmptyString s).
  rewrite (bind_Ok _ _ s () s1) by reflexivity. intros Hok.
  assert (Hr : eval refresh_table s1 = Ok ()) by exact Hok.
  destruct (refresh_table_Ok s1 Hr) as (view & t' & Hv & Hfill & Hex).
  unfold exec in Hex. rewrite Hex.
  change (Ok (tasks s) = Ok view) in Hv. injection Hv as <-.
  change (heap s1) with (heap s) in Hfill.
  destruct (fill_Ok _ _ _ _ Hfill) as (_ & _ & new & Hnew & Hall & _).
  simpl in Hnew.
  split; [reflexivity|]. split; [rewrite get_filtered_tasks_view; reflexivity|].
  split; [|reflexivity].
  change (rows (task_table (with_task_table t' s1))) with (rows t').
  rewrite Hnew. exact Hall.
Qed.

Lemma clear_search_shows_all_witness :
  eval get_filtered_tasks (exec action_clear_search st_search)
  = Ok (tasks st_search).
Proof.
  refine (proj1 (proj2 (clear_search_shows_all st_search _))).
  vm_compute. reflexivity.
Defined.

Ltac classes_solver :=
  repeat first [ rewrite elem_of_union | rewrite elem_of_difference
               | rewrite elem_of_singleton ];
  intuition congruence.

(** X23. [apply_theme] leaves exactly one of the classes [dark] and [light]
    on the app, the one of [dark_mode], and touches no other class. *)
Theorem apply_theme_sets_one_class (s : Theme.t) :
  let s' := Theme.apply_theme s in
  Theme.dark_mode s' = Theme.dark_mode s
  ∧ ("dark"%string ∈ Theme.classes s' ↔ Theme.dark_mode s = true)
  ∧ ("light"%string ∈ Theme.classes s' ↔ Theme.dark_mode s = false)
  ∧ ∀ name, name ≠ "dark"%string → name ≠ "light"%string →
      (name ∈ Theme.classes s' ↔ name ∈ Theme.classes s).
Proof.
  unfold Theme.apply_theme, Theme.add_class, Theme.remove_class.
  destruct s as [[] cs]; simpl;
    (split; [reflexivity|]); (split; [classes_solver|]);
    (split; [classes_solver|]); intros name Hd Hl; classes_solver.
Qed.

(** X24. Toggling the theme flips [dark_mode]; toggling twice from a themed
    state gives the state back. *)
Theorem toggle_theme_twice (s : Theme.t) :
  Theme.dark_mode (Theme.action_toggle_theme s) = negb (Theme.dark_mode s)
  ∧ Theme.action_toggle_theme
      (Theme.action_toggle_theme (Theme.apply_theme s))
    = Theme.apply_theme s.
Proof.
  unfold Theme.action_toggle_theme, Theme.apply_theme, Theme.add_class,
    Theme.remove_class.
  destruct s as [[] cs]; simpl; (split; [reflexivity|]); f_equal;
    apply set_eq; intros x;
    destruct (decide (x = "dark"%string)) as [Hd|Hd];
    destruct (decide (x = "light"%string)) as [Hl|Hl];
    subst; try discriminate; classes_solver.
Qed.

(** ** The outcome of a delete, and the selection after it *)




















Lemma py_eq_str_refl i : Py.eq (PStr i) (PStr i) = true.
Proof. simpl. apply String.eqb_refl. Qed.





(** ** The filter on strings over all of Unicode *)

Lemma lower_char_code (c : ascii) :
  N_of_ascii (Str.lower_char c) = UStr.latin1_lower (N_of_ascii c).
Proof.
  destruct c as [[] [] [] [] [] [] [] []]; vm_compute; reflexivity.
Qed.

Lemma ascii_code_below (c : ascii) : (N_of_ascii c < 256)%N.
Proof. destruct c as [[] [] [] [] [] [] [] []]; vm_compute; reflexivity. Qed.

(** On the strings of the model above, [str.lower] is [Str.lower]. *)
Lemma lower_of_string (db : UStr.ucd) (s : string) :
  UStr.latin1 db →
  UStr.lower db (UStr.of_string s) = UStr.of_string (Str.lower s).
Proof.
  intros Hdb. unfold UStr.lower. generalize (@nil N) as before.
  induction s as [|c r IH]; intros before; [reflexivity|].
  unfold UStr.of_string in *. simpl.
  pose proof (ascii_code_below c) as Hlt.
  destruct (N.eqb_spec (N_of_ascii c) 931) as [He|_]; [lia|].
  rewrite (Hdb _ Hlt), IH, lower_char_code. reflexivity.
Qed.

Lemma code_eqb (a b : ascii) :
  (N_of_ascii a =? N_of_ascii b)%N = Ascii.eqb a b.
Proof.
  destruct (Ascii.eqb_spec a b) as [->|Hne]; [apply N.eqb_refl|].
  apply N.eqb_neq. intros H. apply Hne.
  by rewrite <- (ascii_N_embedding a), <- (ascii_N_embedding b), H.
Qed.

Lemma startswith_of_string (p s : string) :
  UStr.startswith (UStr.of_string p) (UStr.of_string s) = Str.startswith p s.
Proof.
  revert s. induction p as [|a p IH]; intros [|b s]; try reflexivity.
  unfold UStr.of_string in *. simpl. by rewrite code_eqb, IH.
Qed.

Lemma contains_of_string (needle hay : string) :
  UStr.contains (UStr.of_string needle) (UStr.of_string hay)
  = Str.contains needle hay.
Proof.
  induction hay as [|b hay IH].
  - simpl. by rewrite <- startswith_of_string.
  - change (UStr.of_string (String b hay))
      with (N_of_ascii b :: UStr.of_string hay).
    simpl. rewrite <- IH, <- startswith_of_string. reflexivity.
Qed.

Lemma any_tag_matches_of_string (db : UStr.ucd) (q : string)
    (tg : list pyval) (tg' : list UStr.t) :
  UStr.latin1 db →
  mapM (λ v, match v with
             | PStr s => Some (UStr.of_string s)
             | _ => None
             end) tg = Some tg' →
  any_tag_matches (Str.lower q) tg
  = Ok (existsb (λ tag, UStr.contains (UStr.lower db (UStr.of_string q))
                                      (UStr.lower db tag)) tg').
Proof.
  intros Hdb. revert tg'. induction tg as [|v tg IH]; intros tg' H.
  - injection H as <-. reflexivity.
  - simpl in H. destruct v as [| | | |tag| |]; try discriminate.
    simpl in H.
    destruct (mapM _ tg) as [r|] eqn:Hr; [|discriminate].
    injection H as <-. simpl.
    rewrite !(lower_of_string db) by done.
    rewrite contains_of_string.
    destruct (Str.contains (Str.lower q) (Str.lower tag)); [reflexivity|].
    rewrite (IH r eq_refl). by rewrite !(lower_of_string db) by done.
Qed.

(** The condition of the comprehension on a task over code points below
    256 is the condition on its code points. *)
Lemma task_matches_of_task (db : UStr.ucd) (q : string) (x : Task.t)
    (u : UStr.task) :
  UStr.latin1 db → UStr.of_task x = Some u →
  task_matches (Str.lower q) x
  = Ok (UStr.task_matches db (UStr.lower db (UStr.of_string q)) u).
Proof.
  intros Hdb. unfold UStr.of_task, task_matches, UStr.task_matches.
  destruct (Task.title x) as [| | | |ti| |]; try discriminate.
  destruct (Task.tags x) as [| | | | |tg|]; try discriminate.
  destruct (mapM _ tg) as [tg'|] eqn:Htg; [|discriminate].
  intros [= <-]. simpl.
  rewrite !(lower_of_string db) by done. rewrite contains_of_string.
  destruct (Str.contains (Str.lower q) (Str.lower ti)); [reflexivity|].
  rewrite (any_tag_matches_of_string db q tg tg' Hdb Htg).
  by rewrite !(lower_of_string db) by done.
Qed.

(** On a collection over code points below 256, the filtered view of the
    model above is the view the filter of [UStr] gives. *)
Lemma filtered_view_latin1 (db : UStr.ucd) (h : list Task.t) (ts : list ref)
    (q : string) :
  UStr.latin1 db → q ≠ EmptyString →
  (∀ r, r ∈ ts → ∃ x u, h !! r = Some x ∧ UStr.of_task x = Some u) →
  filtered_view h ts q = Ok (UStr.latin1_view db h ts q).
Proof.
  intros Hdb Hq Hts. unfold filtered_view, UStr.latin1_view.
  destruct (Str.is_empty q) eqn:He; [by destruct q|].
  apply filterR_total. intros r Hr.
  destruct (Hts r Hr) as (x & u & Hx & Hu).
  unfold heap_get. rewrite Hx. cbn [mbind option_bind]. rewrite Hu.
  exact (task_matches_of_task db q x u Hdb Hu).
Qed.

(** C3. A task whose title is the Greek capitals alpha and sigma is
    dropped from the view when the search text is the capital sigma,
    whatever the other tasks are, although its title contains the search
    text as it is written: [str.lower] gives the final sigma for the
    sigma that ends the title and the other sigma for the one that stands
    alone. *)
Theorem filter_misses_final_sigma (db : UStr.ucd) (tasks : list UStr.task) :
  UStr.greek_alpha db →
  let task := UStr.mk_task [913; 931]%N [] in
  UStr.contains [931%N] (UStr.title task) = true
  ∧ UStr.lower db (UStr.title task) = [945; 962]%N
  ∧ UStr.lower db [931%N] = [963%N]
  ∧ (task ∉ UStr.get_filtered_tasks db [931%N] tasks)
  ∧ UStr.get_filtered_tasks db [931%N] [task] = [].
Proof.
  intros (Hl & Hc & Hi) task.
  assert (H1 : UStr.lower db (UStr.title task) = [945; 962]%N).
  { unfold UStr.lower. simpl. rewrite Hl.
    unfold UStr.handle_capital_sigma. simpl. by rewrite Hi, Hc. }
  assert (H2 : UStr.lower db [931%N] = [963%N]) by reflexivity.
  assert (H3 : UStr.task_matches db (UStr.lower db [931%N]) task = false).
  { unfold UStr.task_matches. rewrite H1, H2. reflexivity. }
  split; [reflexivity|]. split; [exact H1|]. split; [exact H2|]. split.
  - unfold UStr.get_filtered_tasks. intros Hin.
    apply list_elem_of_In, filter_In in Hin as [_ Hm]. congruence.
  - unfold UStr.get_filtered_tasks. simpl List.filter. by rewrite H3.
Qed.

Lemma filter_misses_final_sigma_witness :
  UStr.get_filtered_tasks ucd_latin1_greek [931%N]
    [UStr.mk_task [913; 931]%N []] = [].
Proof.
  assert (H : UStr.greek_alpha ucd_latin1_greek)
    by (repeat split; reflexivity).
  exact (proj2 (proj2 (proj2 (proj2
           (filter_misses_final_sigma ucd_latin1_greek [] H))))).
Defined.

Lemma ucd_latin1_greek_latin1 : UStr.latin1 ucd_latin1_greek.
Proof.
  intros n Hn. simpl.
  destruct (N.eqb_spec n 913) as [->|_]; [lia|].
  destruct (N.eqb_spec n 931) as [->|_]; [lia|]. reflexivity.
Qed.
